(** * Batch embedding service

    A shallow embedding of the Go sources of the batch embedding API
    (packages [config], [models], [services], [handlers] and
    [middleware]) together with the properties of its chunker,
    embedding pipeline, job registry, worker pool, handlers and
    middleware.

    Conventions of the embedding:
    - Go's [int] and [int64] are 64-bit two's complement integers:
      they are values of [Z] and every arithmetic result goes through
      [GoInt.wrap];
    - [float32] and [float64] are IEEE 754 binary32 and binary64
      numbers, given by the Standard Library's [spec_float] with the
      precisions 24 and 53;
    - a Go [string] is a sequence of bytes, which is what [string]
      is here; the runes of a string come from the Go runtime
      ([GoRuntime]);
    - a slice whose being [nil] can be observed is an [option (list _)];
    - code that may panic or loop for ever returns an [outcome];
    - code that talks to the file system, the network, the clock or
      the job registry runs in the state monad [M];
    - [log.Printf] calls are left out: they change nothing the program
      can observe. *)

From Stdlib Require Import ZArith Lia Bool Ascii String.
From Stdlib Require Import SpecFloat.
From stdpp Require Import base option list strings pretty gmap.

Local Open Scope Z_scope.

(** ** Go integers *)

Module GoInt.

Definition min_int : Z := - 2 ^ 63.
Definition max_int : Z := 2 ^ 63 - 1.

(** Two's complement wrap-around of a 64-bit signed integer. *)
Definition wrap (z : Z) : Z := (z + 2 ^ 63) mod 2 ^ 64 - 2 ^ 63.

Definition add (a b : Z) : Z := wrap (a + b).
Definition mul (a b : Z) : Z := wrap (a * b).

(** Go's [/] truncates towards zero; the caller checks the divisor. *)
Definition quo (a b : Z) : Z := wrap (Z.quot a b).

Definition in_range (z : Z) : Prop := min_int ≤ z ≤ max_int.

(** The length of a Go slice or string, an [int]. *)
Definition len {A} (l : list A) : Z := Z.of_nat (length l).

End GoInt.

(** ** Results, panics and divergence *)

(** A Go [error] is represented by its message. *)
Definition error := string.

(** The pair [(value, err)] of a fallible Go function. *)
Inductive result (A : Type) : Type :=
| ROk (a : A)
| RErr (e : error).
Arguments ROk {A} a.
Arguments RErr {A} e.

(** How a call ends: it returns, it panics, or it never returns. *)
Inductive outcome (A : Type) : Type :=
| Returns (a : A)
| Panics
| Diverges.
Arguments Returns {A} a.
Arguments Panics {A}.
Arguments Diverges {A}.

Definition outcome_bind {A B} (o : outcome A) (k : A → outcome B) : outcome B :=
  match o with
  | Returns a => k a
  | Panics => Panics
  | Diverges => Diverges
  end.

(** A slice that may be [nil]: [None] is the nil slice. *)
Definition slice (A : Type) : Type := option (list A).

Definition elems {A} (s : slice A) : list A := default [] s.

(** [s[lo:hi]]: Go panics when the bounds are out of order or out of
    range.  (Go checks [hi] against the capacity; at every call site
    below [hi] is at most the length.) *)
Definition slice_range {A} (l : list A) (lo hi : Z) : outcome (list A) :=
  if (0 <=? lo) && (lo <=? hi) && (hi <=? GoInt.len l)
  then Returns (take (Z.to_nat (hi - lo)) (drop (Z.to_nat lo) l))
  else Panics.

(** ** Floating point numbers

    Every operation is rounded on its own, to nearest even, as the
    compiler does on amd64. *)

Module GoFloat.

Definition float32 := spec_float.
Definition float64 := spec_float.

Definition prec32 : Z := 24.
Definition emax32 : Z := 128.
Definition prec64 : Z := 53.
Definition emax64 : Z := 1024.

Definition mul32 : float32 → float32 → float32 := SFmul prec32 emax32.
Definition sub32 : float32 → float32 → float32 := SFsub prec32 emax32.
Definition add64 : float64 → float64 → float64 := SFadd prec64 emax64.
Definition div64 : float64 → float64 → float64 := SFdiv prec64 emax64.
Definition sqrt64 : float64 → float64 := SFsqrt prec64 emax64.
Definition eqb64 : float64 → float64 → bool := SFeqb.

(** The conversion [float64(x)] of a [float32]: exact. *)
Definition to64 (x : float32) : float64 :=
  match x with
  | S754_finite s m e => binary_round prec64 emax64 s m e
  | _ => x
  end.

(** The conversion [float32(x)] of a [float64]: rounds to nearest even. *)
Definition to32 (x : float64) : float32 :=
  match x with
  | S754_finite s m e => binary_round prec32 emax32 s m e
  | _ => x
  end.

Definition zero64 : float64 := S754_zero false.
Definition one32 : float32 := binary_round prec32 emax32 false 1 0.
Definition two32 : float32 := binary_round prec32 emax32 false 1 1.

Definition is_zero (x : spec_float) : bool :=
  match x with
  | S754_zero _ => true
  | _ => false
  end.

End GoFloat.

Import GoFloat.

Definition rune := Z.

(** ** package config *)

Record Config := {
  EmbeddingProvider : string;
  EmbeddingDimension : Z;
  OllamaURL : string;
  OllamaModel : string;
  MaxChunkSize : Z;
  DefaultChunkSize : Z;
  StoragePath : string;
}.

(** ** package models *)

Record InputItem := {
  InputItem_ID : string;
  InputItem_Text : string;
}.

Record EmbedRequest := {
  Req_Model : string;
  Inputs : list InputItem;
  TruncateStrategy : string;
  ChunkSize : Z;
  Normalize : bool;
}.

Record Chunk := {
  Chunk_ChunkID : string;
  Chunk_Start : Z;
  Chunk_End : Z;
  TextSnippet : string;
  Chunk_Embedding : slice float32;
}.

Record EmbedResult := {
  Result_ID : string;
  Embeddings : slice float32;
  Chunks : slice Chunk;
}.

Record EmbedResponse := {
  Results : list EmbedResult;
}.

Record Error := {
  Code : string;
  Message : string;
}.

(** [ResultURLs] is nil or a slice of one element in this program;
    nil is the empty list. *)
Record Job := {
  JobID : string;
  Status : string;
  Progress : Z;
  Files : list string;
  Model : string;
  ResultURLs : list string;
  Error_ : option Error;
  CreatedAt : Z;
  UpdatedAt : Z;
  CallbackURL : string;
}.

(** ** The Go runtime and standard library

    The functions of Go's runtime and standard library that the
    sources call and that have no effect.  The properties below hold
    for every implementation of them. *)

(** The body of the request to the Ollama API. *)
Record OllamaEmbedRequest := {
  Ollama_Model : string;
  Prompt : string;
}.

(** The payload of a callback: the keys [job_id], [status],
    [result_urls] and, when the job has one, [error]. *)
Record CallbackPayload := {
  payload_job_id : string;
  payload_status : string;
  payload_result_urls : list string;
  payload_error : option Error;
}.

Class GoRuntime := {
  (** [[]rune(s)], also the runes that [for _, r := range s] visits *)
  runes_of : string → list rune;
  (** [string(runes)] *)
  string_of_runes : list rune → string;
  strings_ToLower : string → string;
  strings_TrimSpace : string → string;
  filepath_Base : string → string;
  filepath_Join : string → string → string;
  (** the [i]-th value that [rng.Float32()] returns, for
      [rng := rand.New(rand.NewSource(seed))] *)
  rand_Float32 : Z → nat → float32;
  (** [json.Marshal] and [json.MarshalIndent] at the three types they
    are called with *)
  json_Marshal_request : OllamaEmbedRequest → result string;
  json_Marshal_payload : CallbackPayload → result string;
  json_MarshalIndent_results : list EmbedResponse → result string;
}.

(** [utf8.RuneCountInString]: it counts the runes that decoding yields. *)
Definition utf8_RuneCountInString `{GoRuntime} (s : string) : Z :=
  GoInt.len (runes_of s).

(** ** services/embedding.go: the chunker *)

Record TextChunk := {
  ChunkID : string;
  Text : string;
  Start : Z;
  End_ : Z;
}.

Section Chunker.
Context `{GoRuntime}.

(** The loop of the "split" strategy,
    [for start := 0; start < textLen; start += chunkSize], from the
    state [(start, chunkIndex, chunks)].  [fuel] bounds the number of
    iterations. *)
Fixpoint chunkText_split (fuel : nat) (docID : string) (runes : list rune)
    (chunkSize : Z) (start chunkIndex : Z) (chunks : list TextChunk)
    : outcome (list TextChunk) :=
  let textLen := GoInt.len runes in
  if negb (start <? textLen) then Returns chunks else
  match fuel with
  | O => Diverges
  | S fuel' =>
      let end0 := GoInt.add start chunkSize in
      let end1 := if end0 >? textLen then textLen else end0 in
      match slice_range runes start end1 with
      | Returns piece =>
          chunkText_split fuel' docID runes chunkSize
            (GoInt.add start chunkSize) (GoInt.add chunkIndex 1)
            (chunks ++ [ {| ChunkID := docID +:+ "_" +:+ pretty chunkIndex;
                            Text := string_of_runes piece;
                            Start := start;
                            End_ := end1 |} ])
      | Panics => Panics
      | Diverges => Diverges
      end
  end.

(** [chunkText].  With a positive chunk size the loop takes at most
    [textLen] iterations; when [textLen + 1] do not suffice the loop
    makes no progress and never ends ([chunkText_split_stuck]). *)
Definition chunkText (docID text : string) (chunkSize : Z) (strategy : string)
    : outcome (list TextChunk) :=
  let runes := runes_of text in
  let textLen := GoInt.len runes in
  if String.eqb strategy "truncate" then
    let end0 := chunkSize in
    let end1 := if end0 >? textLen then textLen else end0 in
    outcome_bind (slice_range runes 0 end1) (λ piece,
      Returns [ {| ChunkID := docID +:+ "_0";
                   Text := string_of_runes piece;
                   Start := 0;
                   End_ := end1 |} ])
  else
    chunkText_split (S (length runes)) docID runes chunkSize 0 0 [].

(** ** services/embedding.go: vectors *)

(** The first loop of [normalizeL2]: [sumSq += float64(v * v)]. *)
Definition normalizeL2_sumSq (vec : slice float32) : float64 :=
  fold_left (λ sumSq v, add64 sumSq (to64 (mul32 v v))) (elems vec) zero64.

Definition normalizeL2_norm (vec : slice float32) : float64 :=
  sqrt64 (normalizeL2_sumSq vec).

Definition normalizeL2 (vec : slice float32) : slice float32 :=
  let norm := normalizeL2_norm vec in
  if eqb64 norm zero64 then vec
  else Some (map (λ v, to32 (div64 (to64 v) norm)) (elems vec)).

(** [make([]float32, n)] panics on a negative length. *)
Definition mockEmbedding (text : string) (dimension : Z) (normalize : bool)
    : outcome (slice float32) :=
  let seed :=
    fold_left (λ seed r, GoInt.add (GoInt.mul seed 31) r) (runes_of text) 0 in
  if dimension <? 0 then Panics else
  let embedding :=
    Some (map (λ i, sub32 (mul32 (rand_Float32 seed i) two32) one32)
              (seq 0 (Z.to_nat dimension))) in
  Returns (if normalize then normalizeL2 embedding else embedding).

Definition truncateSnippet (text : string) (maxLen : Z) : outcome string :=
  let runes := runes_of text in
  if GoInt.len runes <=? maxLen then Returns text
  else outcome_bind (slice_range runes 0 maxLen) (λ piece,
         Returns (string_of_runes piece +:+ "...")).

End Chunker.

(** ** The world outside the process

    The file system, the network, the clock and the source of job
    identifiers.  [W] is the state of all of them; every call takes the
    state before it and returns the state after it. *)

Record Response (Body : Type) := {
  StatusCode : Z;
  Resp_Body : Body;
}.
Arguments StatusCode {Body} _.
Arguments Resp_Body {Body} _.

Class World (W Body : Type) := {
  (** [time.Now().Unix()] *)
  time_Now_Unix : W → Z * W;
  (** [uuid.New().String()] *)
  uuid_New_String : W → string * W;
  (** [os.Stat(name)]: only its error is used *)
  os_Stat : string → W → option error * W;
  os_ReadFile : string → W → result string * W;
  os_MkdirAll : string → Z → W → option error * W;
  os_WriteFile : string → string → Z → W → option error * W;
  (** [client.Get(url)] of a client with the given timeout in seconds *)
  http_Get : Z → string → W → result (Response Body) * W;
  (** [client.Post(url, contentType, body)], same *)
  http_Post : Z → string → string → string → W → result (Response Body) * W;
  (** [io.ReadAll]: the bytes read and the error that stopped it, if any *)
  io_ReadAll : Body → W → (string * option error) * W;
  Body_Close : Body → W → W;
  (** [json.NewDecoder(body).Decode(&ollamaResp)], then the field
      [ollamaResp.Embedding] *)
  json_Decode_Embedding : Body → W → result (slice float32) * W;
}.

(** ** The state of the process *)

(** A pointer to a [models.Job] on the heap. *)
Definition loc := positive.

(** Calls that the properties below speak of; the program itself does
    not read this list. *)
Inductive event : Type :=
| EvCreateJob (j : Job)
| EvUpdateJob (j : Job)
| EvDownloadFile (url : string)
| EvSaveResults (jobID : string) (results : list EmbedResponse)
| EvSendCallback (j : Job).

(** The type [JobStore]: its map holds pointers. *)
Record JobStore := {
  jobs : gmap string loc;
}.

Record State (W : Type) := {
  world : W;
  heap : gmap loc Job;
  next_loc : loc;
  jobStore : JobStore;
  trace : list event;
}.
Arguments world {W} _.
Arguments heap {W} _.
Arguments next_loc {W} _.
Arguments jobStore {W} _.
Arguments trace {W} _.

Definition set_world {W} (w : W) (st : State W) : State W :=
  {| world := w; heap := heap st; next_loc := next_loc st;
     jobStore := jobStore st; trace := trace st |}.
Definition set_heap {W} (h : gmap loc Job) (st : State W) : State W :=
  {| world := world st; heap := h; next_loc := next_loc st;
     jobStore := jobStore st; trace := trace st |}.
Definition set_next_loc {W} (n : loc) (st : State W) : State W :=
  {| world := world st; heap := heap st; next_loc := n;
     jobStore := jobStore st; trace := trace st |}.
Definition set_jobStore {W} (s : JobStore) (st : State W) : State W :=
  {| world := world st; heap := heap st; next_loc := next_loc st;
     jobStore := s; trace := trace st |}.
Definition set_trace {W} (t : list event) (st : State W) : State W :=
  {| world := world st; heap := heap st; next_loc := next_loc st;
     jobStore := jobStore st; trace := t |}.

(** ** The monad of the program: state, panics and divergence *)

Definition M (W A : Type) : Type := State W → outcome A * State W.

Definition ret {W A} (a : A) : M W A := λ st, (Returns a, st).

Definition bind {W A B} (m : M W A) (k : A → M W B) : M W B :=
  λ st, match m st with
        | (Returns a, st') => k a st'
        | (Panics, st') => (Panics, st')
        | (Diverges, st') => (Diverges, st')
        end.

#[global] Instance M_ret {W} : MRet (M W) := λ A, ret.
#[global] Instance M_bind {W} : MBind (M W) := λ A B k m, bind m k.

(** A call into the outside world. *)
Definition call {W A} (f : W → A * W) : M W A :=
  λ st, let '(a, w) := f (world st) in (Returns a, set_world w st).

Definition call_ {W} (f : W → W) : M W unit :=
  λ st, (Returns tt, set_world (f (world st)) st).

(** A computation without effects that may panic or diverge. *)
Definition run {W A} (o : outcome A) : M W A := λ st, (o, st).

Definition emit {W} (e : event) : M W unit :=
  λ st, (Returns tt, set_trace (trace st ++ [e]) st).

(** [*p]: dereferencing a pointer that does not point to a job panics. *)
Definition load {W} (p : loc) : M W Job :=
  λ st, match heap st !! p with
        | Some j => (Returns j, st)
        | None => (Panics, st)
        end.

(** An assignment [p.field = v]. *)
Definition assign {W} (p : loc) (f : Job → Job) : M W unit :=
  λ st, match heap st !! p with
        | Some j => (Returns tt, set_heap (<[p := f j]> (heap st)) st)
        | None => (Panics, st)
        end.

(** [&models.Job{...}] *)
Definition new {W} (j : Job) : M W loc :=
  λ st, let p := next_loc st in
        (Returns p, set_next_loc (Pos.succ p) (set_heap (<[p := j]> (heap st)) st)).

Definition set_Status (v : string) (j : Job) : Job :=
  {| JobID := JobID j; Status := v; Progress := Progress j; Files := Files j;
     Model := Model j; ResultURLs := ResultURLs j; Error_ := Error_ j;
     CreatedAt := CreatedAt j; UpdatedAt := UpdatedAt j;
     CallbackURL := CallbackURL j |}.
Definition set_Progress (v : Z) (j : Job) : Job :=
  {| JobID := JobID j; Status := Status j; Progress := v; Files := Files j;
     Model := Model j; ResultURLs := ResultURLs j; Error_ := Error_ j;
     CreatedAt := CreatedAt j; UpdatedAt := UpdatedAt j;
     CallbackURL := CallbackURL j |}.
Definition set_ResultURLs (v : list string) (j : Job) : Job :=
  {| JobID := JobID j; Status := Status j; Progress := Progress j; Files := Files j;
     Model := Model j; ResultURLs := v; Error_ := Error_ j;
     CreatedAt := CreatedAt j; UpdatedAt := UpdatedAt j;
     CallbackURL := CallbackURL j |}.
Definition set_Error (v : option Error) (j : Job) : Job :=
  {| JobID := JobID j; Status := Status j; Progress := Progress j; Files := Files j;
     Model := Model j; ResultURLs := ResultURLs j; Error_ := v;
     CreatedAt := CreatedAt j; UpdatedAt := UpdatedAt j;
     CallbackURL := CallbackURL j |}.
Definition set_UpdatedAt (v : Z) (j : Job) : Job :=
  {| JobID := JobID j; Status := Status j; Progress := Progress j; Files := Files j;
     Model := Model j; ResultURLs := ResultURLs j; Error_ := Error_ j;
     CreatedAt := CreatedAt j; UpdatedAt := v;
     CallbackURL := CallbackURL j |}.

(** ** services/embedding.go: the embedding pipeline *)

Section EmbeddingService.
Context `{GoRuntime} {W Body : Type} `{World W Body}.

(** The receiver [s *EmbeddingService]: its only field. *)
Variable config : Config.

Definition ollamaEmbedding (text : string) : M W (result (slice float32)) :=
  let reqBody := {| Ollama_Model := OllamaModel config; Prompt := text |} in
  match json_Marshal_request reqBody with
  | RErr err => mret (RErr ("failed to marshal request: " +:+ err))
  | ROk jsonData =>
      let url := OllamaURL config +:+ "/api/embeddings" in
      r ← call (http_Post 60 url "application/json" jsonData);
      match r with
      | RErr err => mret (RErr ("failed to call Ollama: " +:+ err))
      | ROk resp =>
          (* the deferred [resp.Body.Close()] runs when the function returns *)
          res ← (if negb (StatusCode resp =? 200) then
                   '(body, _) ← call (io_ReadAll (Resp_Body resp));
                   mret (RErr ("Ollama returned status " +:+ pretty (StatusCode resp)
                               +:+ ": " +:+ body))
                 else
                   d ← call (json_Decode_Embedding (Resp_Body resp));
                   match d with
                   | RErr err =>
                       mret (RErr ("failed to decode Ollama response: " +:+ err))
                   | ROk embedding => mret (ROk embedding)
                   end);
          call_ (Body_Close (Resp_Body resp));;
          mret res
      end
  end.

Definition generateEmbedding (text : string) (normalize : bool)
    : M W (slice float32) :=
  let dimension := EmbeddingDimension config in
  let provider := EmbeddingProvider config in
  if String.eqb provider "ollama" then
    r ← ollamaEmbedding text;
    match r with
    | RErr _ => run (mockEmbedding text dimension normalize)
    | ROk emb => mret (if normalize then normalizeL2 emb else emb)
    end
  else if String.eqb provider "openai" then
    run (mockEmbedding text dimension normalize)
  else
    (* case "mock" falls through to default *)
    run (mockEmbedding text dimension normalize).

(** The inner loop of [GenerateEmbeddings]: [for _, chunk := range chunks]. *)
Fixpoint embed_chunks (normalize : bool) (chunks : list TextChunk)
    (acc : list Chunk) : M W (list Chunk) :=
  match chunks with
  | [] => mret acc
  | chunk :: rest =>
      embedding ← generateEmbedding (Text chunk) normalize;
      snippet ← run (truncateSnippet (Text chunk) 200);
      embed_chunks normalize rest
        (acc ++ [ {| Chunk_ChunkID := ChunkID chunk;
                     Chunk_Start := Start chunk;
                     Chunk_End := End_ chunk;
                     TextSnippet := snippet;
                     Chunk_Embedding := embedding |} ])
  end.

(** The body of the outer loop, for one input. *)
Definition embed_input (normalize : bool) (chunkSize : Z)
    (truncateStrategy : string) (input : InputItem) : M W EmbedResult :=
  let textLen := utf8_RuneCountInString (InputItem_Text input) in
  if textLen <=? chunkSize then
    (* No chunking needed *)
    embedding ← generateEmbedding (InputItem_Text input) normalize;
    mret {| Result_ID := InputItem_ID input;
            Embeddings := embedding;
            Chunks := None |}
  else
    (* Chunking needed *)
    chunks ← run (chunkText (InputItem_ID input) (InputItem_Text input)
                            chunkSize truncateStrategy);
    cs ← embed_chunks normalize chunks [];
    mret {| Result_ID := InputItem_ID input;
            Embeddings := None;
            Chunks := Some cs |}.

(** The outer loop: [for _, input := range req.Inputs]. *)
Fixpoint embed_inputs (normalize : bool) (chunkSize : Z)
    (truncateStrategy : string) (inputs : list InputItem)
    (results : list EmbedResult) : M W (list EmbedResult) :=
  match inputs with
  | [] => mret results
  | input :: rest =>
      result ← embed_input normalize chunkSize truncateStrategy input;
      embed_inputs normalize chunkSize truncateStrategy rest (results ++ [result])
  end.

Definition effective_chunkSize (req : EmbedRequest) : Z :=
  let chunkSize := ChunkSize req in
  let chunkSize := if chunkSize <=? 0 then DefaultChunkSize config else chunkSize in
  if chunkSize >? MaxChunkSize config then MaxChunkSize config else chunkSize.

Definition effective_truncateStrategy (req : EmbedRequest) : string :=
  let truncateStrategy := TruncateStrategy req in
  if String.eqb truncateStrategy "" then "truncate" else truncateStrategy.

(** [GenerateEmbeddings] returns a pointer to the response, [None] when
    it is nil, and an error, [None] when it is nil. *)
Definition GenerateEmbeddings (req : EmbedRequest)
    : M W (option EmbedResponse * option error) :=
  let chunkSize := effective_chunkSize req in
  let truncateStrategy := effective_truncateStrategy req in
  results ← embed_inputs (Normalize req) chunkSize truncateStrategy (Inputs req) [];
  mret (Some {| Results := results |}, None).

End EmbeddingService.

(** ** services/embedding.go: text extraction *)

Definition HasSuffix (s suffix : string) : bool :=
  let n := String.length s in
  let k := String.length suffix in
  (k <=? n)%nat && String.eqb (String.substring (n - k) k s) suffix.

Definition byte_of (c : Ascii.ascii) : Z := Z.of_N (Ascii.N_of_ascii c).

Definition printable (c : Ascii.ascii) : bool :=
  (32 <=? byte_of c) && (byte_of c <? 127).

Definition WriteByte (result : string) (c : Ascii.ascii) : string :=
  result +:+ String c EmptyString.

(** The first loop of [extractPDFText], [for i := 0; i < len(text); i++],
    on the bytes from [i] on.  [inParen] says that the inner loop
    [for j < len(text) && text[j] != ')'] is running, [c] then being
    [text[j]]; when it ends, [i = j] and the [i++] of the outer loop
    step over the closing parenthesis. *)
Fixpoint extractPDFText_scan (text : string) (inText inParen : bool)
    (result : string) : string :=
  match text with
  | EmptyString => result
  | String c rest =>
      if inParen then
        if Ascii.eqb c ")"%char then extractPDFText_scan rest inText false result
        else extractPDFText_scan rest inText true
               (if printable c then WriteByte result c else result)
      else
        let body :=
          if inText && Ascii.eqb c "("%char then
            extractPDFText_scan rest inText true result
          else extractPDFText_scan rest inText false result in
        match rest with
        | String c' _ =>
            if Ascii.eqb c "B"%char && Ascii.eqb c' "T"%char then
              extractPDFText_scan rest true false result
            else if Ascii.eqb c "E"%char && Ascii.eqb c' "T"%char then
              extractPDFText_scan rest false false (WriteByte result " "%char)
            else body
        | EmptyString => body
        end
  end.

(** The fallback loop, [for _, c := range content]. *)
Fixpoint extractPDFText_ascii (content : string) (result : string) : string :=
  match content with
  | EmptyString => result
  | String c rest =>
      extractPDFText_ascii rest
        (if printable c then WriteByte result c
         else if (byte_of c =? 10) || (byte_of c =? 13) || (byte_of c =? 9)
              then WriteByte result " "%char
              else result)
  end.

Definition extractPDFText `{GoRuntime} (content : string) : string :=
  let result := extractPDFText_scan content false false "" in
  let result :=
    if (String.length result =? 0)%nat
    then extractPDFText_ascii content result else result in
  strings_TrimSpace result.

Definition ExtractTextFromFile `{GoRuntime} (filename : string) (content : string)
    : result string :=
  let lowerName := strings_ToLower filename in
  if HasSuffix lowerName ".txt" then ROk content
  else if HasSuffix lowerName ".pdf" then
    let text := extractPDFText content in
    if String.eqb text "" then RErr "could not extract text from PDF"
    else ROk text
  else RErr ("unsupported file type: " +:+ filename).

(** ** services/jobstore.go

    The mutex of the store serialises its methods; each method is one
    step of the state here. *)

Section JobStoreMethods.
Context {W Body : Type} `{World W Body}.

Definition NewJobStore : JobStore := {| jobs := ∅ |}.

Definition CreateJob (files : list string) (model callbackURL : string)
    : M W loc :=
  id ← call uuid_New_String;
  created ← call time_Now_Unix;
  updated ← call time_Now_Unix;
  job ← new {| JobID := id; Status := "queued"; Progress := 0;
               Files := files; Model := model; ResultURLs := [];
               Error_ := None; CreatedAt := created; UpdatedAt := updated;
               CallbackURL := callbackURL |};
  j ← load job;
  (λ st, (Returns tt,
          set_jobStore {| jobs := <[JobID j := job]> (jobs (jobStore st)) |} st));;
  emit (EvCreateJob j);;
  mret job.

(** [GetJob] returns the pointer in the map, [None] for nil. *)
Definition GetJob (jobID : string) : M W (option loc) :=
  λ st, (Returns (jobs (jobStore st) !! jobID), st).

Definition UpdateJob (job : loc) : M W unit :=
  now ← call time_Now_Unix;
  assign job (set_UpdatedAt now);;
  j ← load job;
  (λ st, (Returns tt,
          set_jobStore {| jobs := <[JobID j := job]> (jobs (jobStore st)) |} st));;
  emit (EvUpdateJob j).

Definition counts_as_pending (j : Job) : bool :=
  String.eqb (Status j) "queued" || String.eqb (Status j) "running".

(** The iteration order of a Go map is unspecified; the count does not
    depend on it. *)
Definition GetQueueDepth : M W Z :=
  λ st,
    (map_fold (λ _ p (count : outcome Z),
                 outcome_bind count (λ count,
                   match heap st !! p with
                   | Some j => Returns (if counts_as_pending j
                                        then GoInt.add count 1 else count)
                   | None => Panics
                   end))
              (Returns 0) (jobs (jobStore st)),
     st).

(** The record that the registry holds for an identifier. *)
Definition stored (st : State W) (jobID : string) : option Job :=
  p ← jobs (jobStore st) !! jobID; heap st !! p.

End JobStoreMethods.

(** ** The worker: file acquisition, persistence, callbacks *)

Section Worker.
Context `{GoRuntime} {W Body : Type} `{World W Body}.

Variable config : Config.

(** The embedding service that the worker calls.  The worker of the
    program holds [GenerateEmbeddings config]; the control flow of
    [processJobWith] is that of [processJob] for any service. *)
Variable embeddingService_GenerateEmbeddings :
  EmbedRequest → M W (option EmbedResponse * option error).

Definition downloadFile (url : string) : M W (result (string * string)) :=
  emit (EvDownloadFile url);;
  (* Check if it's a local file path *)
  st ← call (os_Stat url);
  match st with
  | None =>
      r ← call (os_ReadFile url);
      match r with
      | RErr err => mret (RErr err)
      | ROk content => mret (ROk (content, filepath_Base url))
      end
  | Some _ =>
      (* Download from URL *)
      r ← call (http_Get 60 url);
      match r with
      | RErr err => mret (RErr err)
      | ROk resp =>
          res ← (if negb (StatusCode resp =? 200) then
                   mret (RErr ("failed to download: status "
                               +:+ pretty (StatusCode resp)))
                 else
                   '(content, err) ← call (io_ReadAll (Resp_Body resp));
                   match err with
                   | Some err => mret (RErr err)
                   | None =>
                       let filename := filepath_Base url in
                       let filename :=
                         if String.eqb filename "" || String.eqb filename "."
                            || String.eqb filename "/"
                         then "downloaded_file" else filename in
                       mret (ROk (content, filename))
                   end);
          call_ (Body_Close (Resp_Body resp));;
          mret res
      end
  end.

Definition saveResults (jobID : string) (results : list EmbedResponse)
    : M W (result string) :=
  emit (EvSaveResults jobID results);;
  let storagePath := StoragePath config in
  e ← call (os_MkdirAll storagePath 493 (* 0755 *));
  match e with
  | Some err => mret (RErr err)
  | None =>
      let filename := jobID +:+ "_results.json" in
      let filepath := filepath_Join storagePath filename in
      match json_MarshalIndent_results results with
      | RErr err => mret (RErr err)
      | ROk data =>
          e ← call (os_WriteFile filepath data 420 (* 0644 *));
          match e with
          | Some err => mret (RErr err)
          | None => mret (ROk ("/v1/results/" +:+ filename))
          end
      end
  end.

Definition sendCallback (job : loc) : M W unit :=
  j ← load job;
  emit (EvSendCallback j);;
  if String.eqb (CallbackURL j) "" then mret tt else
  let payload := {| payload_job_id := JobID j;
                    payload_status := Status j;
                    payload_result_urls := ResultURLs j;
                    payload_error := Error_ j |} in
  match json_Marshal_payload payload with
  | RErr _ => mret tt
  | ROk data =>
      r ← call (http_Post 10 (CallbackURL j) "application/json" data);
      match r with
      | RErr _ => mret tt
      | ROk resp => call_ (Body_Close (Resp_Body resp))
      end
  end.

(** The failure path shared by the four stages:
    [job.Status = "failed"; job.Error = &models.Error{...};
     w.jobStore.UpdateJob(job); w.sendCallback(job); return]. *)
Definition fail_job (job : loc) (code : string) (err : error) : M W unit :=
  assign job (set_Status "failed");;
  assign job (set_Error (Some {| Code := code; Message := err |}));;
  UpdateJob job;;
  sendCallback job.

(** The loop [for i, fileURL := range job.Files] from index [i] on.
    [after_loop] is the rest of [processJob], which runs when the loop
    ends; a [return] inside the loop leaves it out. *)
Fixpoint process_files (job : loc) (totalFiles : Z) (i : Z)
    (files : list string) (results : list EmbedResponse)
    (after_loop : list EmbedResponse → M W unit) : M W unit :=
  match files with
  | [] => after_loop results
  | fileURL :: rest =>
      (* Download file *)
      d ← downloadFile fileURL;
      match d with
      | RErr err => fail_job job "download_failed" err
      | ROk (content, filename) =>
          (* Extract text *)
          match ExtractTextFromFile filename content with
          | RErr err => fail_job job "extraction_failed" err
          | ROk text =>
              (* Generate embeddings *)
              j ← load job;
              let req := {| Req_Model := Model j;
                            Inputs := [ {| InputItem_ID := filename;
                                           InputItem_Text := text |} ];
                            TruncateStrategy := "split";
                            ChunkSize := DefaultChunkSize config;
                            Normalize := true |} in
              '(resp, err) ← embeddingService_GenerateEmbeddings req;
              match err with
              | Some err => fail_job job "embedding_failed" err
              | None =>
                  (* [*resp] *)
                  resp ← run (match resp with
                              | Some r => Returns r
                              | None => Panics
                              end);
                  let results := results ++ [resp] in
                  (* Update progress *)
                  progress ← run (if totalFiles =? 0 then Panics else
                       Returns (GoInt.quo (GoInt.mul (GoInt.add i 1) 100) totalFiles));
                  assign job (set_Progress progress);;
                  UpdateJob job;;
                  process_files job totalFiles (GoInt.add i 1) rest results after_loop
              end
          end
      end
  end.

(** What [processJob] does once every file has been embedded. *)
Definition finish_job (job : loc) (results : list EmbedResponse) : M W unit :=
  (* Save results *)
  j ← load job;
  s ← saveResults (JobID j) results;
  match s with
  | RErr err => fail_job job "storage_failed" err
  | ROk resultPath =>
      (* Mark as completed *)
      assign job (set_Status "completed");;
      assign job (set_Progress 100);;
      assign job (set_ResultURLs [resultPath]);;
      UpdateJob job;;
      (* Send callback *)
      sendCallback job
  end.

Definition processJobWith (workerID : Z) (jobID : string) : M W unit :=
  job ← GetJob jobID;
  match job with
  | None => mret tt
  | Some job =>
      (* Update status to running *)
      assign job (set_Status "running");;
      assign job (set_Progress 0);;
      UpdateJob job;;
      (* Process each file *)
      j ← load job;
      let totalFiles := GoInt.len (Files j) in
      process_files job totalFiles 0 (Files j) [] (finish_job job)
  end.

End Worker.

(** [processJob] of the program: the worker holds the embedding service
    of the same configuration. *)
Definition processJob `{GoRuntime} {W Body : Type} `{World W Body}
    (config : Config) (workerID : Z) (jobID : string) : M W unit :=
  processJobWith config (GenerateEmbeddings config) workerID jobID.

(** ** The job queue

    [jobQueue: make(chan string, 100)], the send [w.jobQueue <- jobID] of
    [EnqueueJob] and the receive [jobID := <-w.jobQueue] of
    [processLoop], with the semantics that the Go specification gives
    to a buffered channel: a send on a full buffer parks the sending
    goroutine; a receive takes the oldest element of the buffer and
    moves the value of the longest-parked sender, if there is one, to
    the end of the buffer, which lets that sender go on. *)

Module JobQueue.

Definition capacity : nat := 100.

Record chan := {
  (** the elements in the buffer, oldest first *)
  buf : list string;
  (** the values of the goroutines parked in a send, oldest first *)
  parked : list string;
}.

(** [make(chan string, 100)] in [NewWorker] *)
Definition NewWorker_jobQueue : chan := {| buf := []; parked := [] |}.

(** What the goroutines do to the queue, in the order in which the
    runtime serialises it. *)
Inductive op : Type :=
| EnqueueJob (jobID : string)     (* a submitter executes [w.jobQueue <- jobID] *)
| Receive (workerID : Z).         (* an executor is at [jobID := <-w.jobQueue] *)

(** The send.  The second component tells whether the send has
    completed; when it has not, the submitter is parked. *)
Definition send (jobID : string) (q : chan) : chan * bool :=
  if (length (buf q) <? capacity)%nat
  then ({| buf := buf q ++ [jobID]; parked := parked q |}, true)
  else ({| buf := buf q; parked := parked q ++ [jobID] |}, false).

(** The receive.  On an empty buffer the executor waits and nothing
    changes; [None] is then the value delivered. *)
Definition receive (q : chan) : chan * option string :=
  match buf q with
  | [] => (q, None)
  | jobID :: rest =>
      match parked q with
      | [] => ({| buf := rest; parked := [] |}, Some jobID)
      | v :: waiting => ({| buf := rest ++ [v]; parked := waiting |}, Some jobID)
      end
  end.

(** What an observer sees of one operation. *)
Inductive obs : Type :=
| Enqueued (jobID : string)                 (* the send completed at once *)
| Blocked (jobID : string)                  (* the submitter is parked *)
| Delivered (workerID : Z) (jobID : string) (* [processJob workerID jobID] starts *)
| Idle (workerID : Z).                      (* the executor waits *)

Definition step (o : op) (q : chan) : chan * obs :=
  match o with
  | EnqueueJob jobID =>
      let '(q', done) := send jobID q in
      (q', if done then Enqueued jobID else Blocked jobID)
  | Receive workerID =>
      let '(q', v) := receive q in
      (q', match v with
           | Some jobID => Delivered workerID jobID
           | None => Idle workerID
           end)
  end.

Fixpoint run (ops : list op) (q : chan) : chan * list obs :=
  match ops with
  | [] => (q, [])
  | o :: rest =>
      let '(q1, e) := step o q in
      let '(q2, es) := run rest q1 in
      (q2, e :: es)
  end.

(** The identifiers submitted by [ops], in order. *)
Definition submitted (ops : list op) : list string :=
  omap (λ o, match o with EnqueueJob id => Some id | Receive _ => None end) ops.

(** The identifiers handed to executors, in order. *)
Definition delivered (es : list obs) : list string :=
  omap (λ e, match e with Delivered _ id => Some id | _ => None end) es.

(** The buffer never exceeds its capacity, and a submitter is parked
    only while the buffer is full. *)
Definition bounded (q : chan) : Prop :=
  (length (buf q) ≤ capacity)%nat
  ∧ (parked q ≠ [] → length (buf q) = capacity).

End JobQueue.

(** ** services/embedding.go: the text that [extractPDFText] builds *)

(** The contents of [result] when [extractPDFText] reaches its last
    line, where it trims them. *)
Definition extractPDFText_result (content : string) : string :=
  let result := extractPDFText_scan content false false "" in
  if (String.length result =? 0)%nat
  then extractPDFText_ascii content result else result.

(** ** services/jobstore.go: ListJobs *)

Section ListJobs.
Context {W : Type}.

(** The order in which [for _, job := range s.jobs] visits the entries
    of the map, which Go leaves open. *)
Variable range : gmap string loc → list (string * loc).

Definition ListJobs : M W (list loc) :=
  λ st, (Returns (foldl (λ jobs kv, jobs ++ [kv.2]) [] (range (jobs (jobStore st)))),
         st).

End ListJobs.

(** ** package config: the fields read outside the services

    [Config] holds the fields of [config.Config] that the services
    read; these are the fields that the handlers and the middleware
    read besides. *)

Record Limits := {
  APIKeys : list string;
  RapidAPIProxySecret : string;
  EmbeddingModel : string;
  MaxBatchSize : Z;
  SyncFileLimitMB : Z;
}.

(** ** package models: the types of the handlers *)

Record AsyncJobRequest := {
  Async_Model : string;
  Async_Files : list string;
  Async_CallbackURL : string;
  Priority : string;
}.

Record JobStatus := {
  JobStatus_JobID : string;
  JobStatus_Status : string;
  JobStatus_Progress : Z;
  JobStatus_ResultURLs : list string;
  JobStatus_Error : option Error;
}.

Record HealthResponse := {
  Health_Status : string;
  Version : string;
  QueueDepth : Z;
}.

Record AsyncAcceptedResponse := {
  Accepted_JobID : string;
  Accepted_Status : string;
  Accepted_Message : string;
}.

(** ** Strings and paths *)

Definition HasPrefix (s prefix : string) : bool := String.prefix prefix s.

(** [strings.Contains]: [substr] starts at some position of [s]. *)
Fixpoint Contains (s substr : string) : bool :=
  String.prefix substr s
  || match s with
     | String _ rest => Contains rest substr
     | EmptyString => false
     end.

(** [strings.SplitN(s, " ", 2)]: the text before the first space and
    the text after it, or [s] alone when it has no space. *)
Fixpoint cut_space (s : string) : option (string * string) :=
  match s with
  | EmptyString => None
  | String c rest =>
      if Ascii.eqb c " "%char then Some (EmptyString, rest)
      else match cut_space rest with
           | Some (before, after) => Some (String c before, after)
           | None => None
           end
  end.

Definition SplitN_space_2 (s : string) : list string :=
  match cut_space s with
  | Some (before, after) => [before; after]
  | None => [s]
  end.

(** The loop of [filepath.Ext], from the last byte backwards:
    [for i := len(path) - 1; i >= 0 && path[i] != '/'; i--]. *)
Fixpoint Ext_scan (rev_path : list Ascii.ascii) (suffix : list Ascii.ascii) : string :=
  match rev_path with
  | [] => ""
  | c :: rest =>
      if Ascii.eqb c "/"%char then ""
      else if Ascii.eqb c "."%char then string_of_list_ascii (c :: suffix)
      else Ext_scan rest (c :: suffix)
  end.

Definition filepath_Ext (path : string) : string :=
  Ext_scan (reverse (list_ascii_of_string path)) [].

(** The conversion [float64(n)] of an integer. *)
Definition of_int (n : Z) : float64 :=
  match n with
  | Z0 => S754_zero false
  | Zpos p => binary_round prec64 emax64 false p 0
  | Zneg p => binary_round prec64 emax64 true p 0
  end.

Definition gt64 (x y : float64) : bool :=
  match SFcompare x y with
  | Some Gt => true
  | _ => false
  end.

(** ** package handlers *)

(** What a handler writes: [c.JSON(code, obj)] or [c.File(filePath)]. *)
Inductive json : Type :=
| JError (e : Error)
| JHealth (h : HealthResponse)
| JEmbed (resp : option EmbedResponse)
| JAccepted (a : AsyncAcceptedResponse)
| JJobStatus (s : JobStatus)
| JJobs (statuses : list JobStatus).

Inductive response : Type :=
| JSON (code : Z) (obj : json)
| File (filePath : string).

(** The file of a multipart form: the header, and what
    [io.ReadAll(file)] gives. *)
Record Upload := {
  Filename : string;
  Size : Z;
  Upload_ReadAll : string * option error;
}.

Definition job_status (job : Job) : JobStatus :=
  {| JobStatus_JobID := JobID job;
     JobStatus_Status := Status job;
     JobStatus_Progress := Progress job;
     JobStatus_ResultURLs := ResultURLs job;
     JobStatus_Error := Error_ job |}.

Module Handler.
Section Handler.
Context `{GoRuntime} {W Body : Type} `{World W Body}.

(** The receiver [h *Handler]: its configuration; the embedding
    service, the job store and the worker are those of the process. *)
Variable config : Config.
Variable limits : Limits.

Definition invalid_request (message : string) : response :=
  JSON 400 (JError {| Code := "invalid_request"; Message := message |}).

Definition internal_error (message : string) : response :=
  JSON 500 (JError {| Code := "internal_error"; Message := message |}).

Definition Health : M W response :=
  depth ← GetQueueDepth;
  mret (JSON 200 (JHealth {| Health_Status := "ok"; Version := "1.0.0";
                             QueueDepth := depth |})).

(** [bound] is what [c.ShouldBindJSON(&req)] gives: the error, or the
    request that it has filled in. *)
Definition Embed (bound : result EmbedRequest) : M W response :=
  match bound with
  | RErr err => mret (invalid_request err)
  | ROk req =>
      (* Validate batch size *)
      if GoInt.len (Inputs req) >? MaxBatchSize limits then
        mret (JSON 413 (JError {| Code := "payload_too_large";
                                  Message := "Batch size exceeds maximum allowed" |}))
      (* Validate chunk size *)
      else if (ChunkSize req <? 0) || (ChunkSize req >? MaxChunkSize config) then
        mret (invalid_request "Invalid chunk_size")
      (* Validate truncate strategy *)
      else if negb (String.eqb (TruncateStrategy req) "")
              && negb (String.eqb (TruncateStrategy req) "truncate")
              && negb (String.eqb (TruncateStrategy req) "split") then
        mret (invalid_request "truncate_strategy must be 'truncate' or 'split'")
      else
        (* Generate embeddings *)
        '(resp, err) ← GenerateEmbeddings config req;
        match err with
        | Some err => mret (internal_error err)
        | None => mret (JSON 200 (JEmbed resp))
        end
  end.

(** [c.DefaultPostForm(key, defaultValue)], [form] giving the first
    value of a key that the form has. *)
Definition DefaultPostForm (form : string → option string)
    (key defaultValue : string) : string :=
  default defaultValue (form key).

(** [formFile] is what [c.Request.FormFile("file")] gives. *)
Definition EmbedFile (formFile : result Upload) (form : string → option string)
    : M W response :=
  match formFile with
  | RErr _ => mret (invalid_request "No file uploaded")
  | ROk header =>
      (* Validate file type *)
      let ext := strings_ToLower (filepath_Ext (Filename header)) in
      if negb (String.eqb ext ".pdf") && negb (String.eqb ext ".txt") then
        mret (invalid_request
                "Unsupported file type. Only PDF and TXT files are allowed.")
      else
      (* Check file size *)
      let fileSizeMB := div64 (of_int (Size header)) (of_int (1024 * 1024)) in
      if gt64 fileSizeMB (of_int (SyncFileLimitMB limits)) then
        mret (JSON 413 (JError {| Code := "payload_too_large";
                Message := "File too large for synchronous processing. Use /v1/jobs for async processing." |}))
      else
      (* Read file content *)
      match Upload_ReadAll header with
      | (_, Some _) => mret (internal_error "Failed to read file")
      | (content, None) =>
          (* Extract text from file *)
          match ExtractTextFromFile (Filename header) content with
          | RErr err => mret (invalid_request err)
          | ROk text =>
              (* Get form parameters *)
              let model := DefaultPostForm form "model" (EmbeddingModel limits) in
              let truncateStrategy := DefaultPostForm form "truncate_strategy" "split" in
              let chunkSize := DefaultChunkSize config in
              let normalize :=
                String.eqb (DefaultPostForm form "normalize" "true") "true" in
              (* Generate embeddings *)
              let req := {| Req_Model := model;
                            Inputs := [ {| InputItem_ID := Filename header;
                                           InputItem_Text := text |} ];
                            TruncateStrategy := truncateStrategy;
                            ChunkSize := chunkSize;
                            Normalize := normalize |} in
              '(resp, err) ← GenerateEmbeddings config req;
              match err with
              | Some err => mret (internal_error err)
              | None => mret (JSON 200 (JEmbed resp))
              end
          end
      end
  end.

(** The loop [for _, fileURL := range req.Files] of [CreateJob]: the
    first file that it refuses, if any. *)
Fixpoint invalid_file (files : list string) : option string :=
  match files with
  | [] => None
  | fileURL :: rest =>
      if negb (HasPrefix fileURL "http://") && negb (HasPrefix fileURL "https://") then
        (* Check if it's a valid local path (for testing) *)
        if negb (Contains fileURL "/") && negb (Contains fileURL "\") then Some fileURL
        else invalid_file rest
      else invalid_file rest
  end.

(** [jobQueue] is the queue of the worker before the call; the handler
    returns the queue after its send, and whether the send has
    completed.  When it has not, the handler goroutine is parked in
    [EnqueueJob] and writes its response once an executor has made
    room.  The call is one step of the process: no executor runs
    between the send and the read of [job.Status]. *)
Definition CreateJob (bound : result AsyncJobRequest) (jobQueue : JobQueue.chan)
    : M W (response * JobQueue.chan * bool) :=
  match bound with
  | RErr err => mret (invalid_request err, jobQueue, true)
  | ROk req =>
      (* Validate files *)
      if GoInt.len (Async_Files req) =? 0 then
        mret (invalid_request "At least one file URL is required", jobQueue, true)
      else
      (* Validate URLs *)
      match invalid_file (Async_Files req) with
      | Some fileURL =>
          mret (invalid_request ("Invalid file URL: " +:+ fileURL), jobQueue, true)
      | None =>
          (* Create job *)
          job ← (* h.jobStore. *) CreateJob (Async_Files req) (Async_Model req)
                                    (Async_CallbackURL req);
          (* Enqueue for processing *)
          j ← load job;
          let '(jobQueue, sent) := JobQueue.send (JobID j) jobQueue in
          j ← load job;
          mret (JSON 202 (JAccepted {| Accepted_JobID := JobID j;
                                       Accepted_Status := Status j;
                                       Accepted_Message := "Job accepted for processing" |}),
                jobQueue, sent)
      end
  end.

Definition GetJob (job_id : string) : M W response :=
  job ← (* h.jobStore. *) GetJob job_id;
  match job with
  | None => mret (JSON 404 (JError {| Code := "not_found";
                                      Message := "Job not found" |}))
  | Some job =>
      j ← load job;
      mret (JSON 200 (JJobStatus (job_status j)))
  end.

(** [GetResults]: the path that it hands to [c.File]. *)
Definition GetResults (filename : string) : response :=
  (* Sanitize filename to prevent directory traversal *)
  let filename := filepath_Base filename in
  let filePath := filepath_Join (StoragePath config) filename in
  File filePath.

(** The loop of [ListJobs], [for _, job := range jobs]. *)
Fixpoint ListJobs_statuses (jobs : list loc) (statuses : list JobStatus)
    : M W (list JobStatus) :=
  match jobs with
  | [] => mret statuses
  | job :: rest =>
      j ← load job;
      ListJobs_statuses rest (statuses ++ [job_status j])
  end.

Definition ListJobs (range : gmap string loc → list (string * loc)) : M W response :=
  jobs ← (* h.jobStore. *) ListJobs range;
  statuses ← ListJobs_statuses jobs [];
  mret (JSON 200 (JJobs statuses)).

End Handler.
End Handler.

(** ** package middleware *)

Module Middleware.

(** How a middleware ends: [c.Next()], after having set the given keys
    of the context with [c.Set], or [c.AbortWithStatusJSON(code, obj)]. *)
Inductive flow : Type :=
| Next (keys : list (string * string))
| AbortWithStatusJSON (code : Z) (obj : Error).

Section AuthMiddleware.
Context `{GoRuntime}.
Variable cfg : Limits.

Definition unauthorized (message : string) : flow :=
  AbortWithStatusJSON 401 {| Code := "unauthorized"; Message := message |}.

(** The loop [for _, key := range cfg.APIKeys]. *)
Fixpoint valid_token (token : string) (keys : list string) : bool :=
  match keys with
  | [] => false
  | key :: rest =>
      if String.eqb token (strings_TrimSpace key) then true
      else valid_token token rest
  end.

(** [GetHeader] is [c.GetHeader]: the value of a header of the request,
    empty when the request does not have it. *)
Definition AuthMiddleware (GetHeader : string → string) : flow :=
  (* Check for Bearer token *)
  let bearer :=
    let authHeader := GetHeader "Authorization" in
    if String.eqb authHeader "" then unauthorized "Missing Authorization header" else
    (* Extract token *)
    match SplitN_space_2 authHeader with
    | [scheme; token] =>
        if negb (String.eqb (strings_ToLower scheme) "bearer") then
          unauthorized "Invalid Authorization header format. Use: Bearer <token>"
        (* Validate token against allowed API keys *)
        else if negb (valid_token token (APIKeys cfg)) then
          unauthorized "Invalid API key"
        else Next [("auth_type", "api_key")]
    | _ => unauthorized "Invalid Authorization header format. Use: Bearer <token>"
    end in
  (* Check for RapidAPI proxy secret first *)
  if negb (String.eqb (RapidAPIProxySecret cfg) "") then
    let rapidAPISecret := GetHeader "X-RapidAPI-Proxy-Secret" in
    if String.eqb rapidAPISecret (RapidAPIProxySecret cfg) then
      (* Request is from RapidAPI *)
      Next [("auth_type", "rapidapi"); ("rapidapi_user", GetHeader "X-RapidAPI-User")]
    else bearer
  else bearer.

End AuthMiddleware.

(** The rate limiter of [golang.org/x/time/rate]: [L] is the state of a
    [*rate.Limiter], [W] that of the clock. *)
Class RateLib (L W : Type) := {
  (** [rate.NewLimiter(rate.Limit(rps), burst)] *)
  rate_NewLimiter : Z → Z → L;
  (** [limiter.Allow()] *)
  Limiter_Allow : L → W → bool * L * W;
}.

Section RateLimiter.
Context {L W : Type} `{RateLib L W}.

(** The map of [RateLimiter] holds pointers to limiters that nothing
    else holds: it is a map of limiters here, and [Allow] updates the
    entry. *)
Record RateLimiter := {
  clients : gmap string L;
  rate : Z;
  burst : Z;
}.

Definition NewRateLimiter (rps burst : Z) : RateLimiter :=
  {| clients := ∅; rate := rps; burst := burst |}.

Definition GetLimiter (r : RateLimiter) (clientID : string) : L * RateLimiter :=
  match clients r !! clientID with
  | Some limiter => (limiter, r)
  | None =>
      let limiter := rate_NewLimiter (rate r) (burst r) in
      (limiter, {| clients := <[clientID := limiter]> (clients r);
                   rate := rate r; burst := burst r |})
  end.

(** The client identifier of a request: API key or IP. *)
Definition clientID_of (GetHeader : string → string) (ClientIP : string) : string :=
  let clientID := GetHeader "X-RapidAPI-User" in
  let clientID := if String.eqb clientID "" then GetHeader "Authorization" else clientID in
  if String.eqb clientID "" then ClientIP else clientID.

Definition RateLimitMiddleware (limiter : RateLimiter) (GetHeader : string → string)
    (ClientIP : string) (w : W) : flow * RateLimiter * W :=
  let clientID := clientID_of GetHeader ClientIP in
  let '(l, limiter) := GetLimiter limiter clientID in
  let '(allowed, l, w) := Limiter_Allow l w in
  let limiter := {| clients := <[clientID := l]> (clients limiter);
                    rate := rate limiter; burst := burst limiter |} in
  if negb allowed then
    (AbortWithStatusJSON 429 {| Code := "too_many_requests";
                                Message := "Rate limit exceeded. Please slow down." |},
     limiter, w)
  else (Next [], limiter, w).

End RateLimiter.

End Middleware.

(** ** Vocabulary of the properties *)

(** [ceil(a / b)] for a positive [b]. *)
Definition ceil_div (a b : Z) : Z := (a + b - 1) / b.

(** The offset ranges of [chunks] start at [pos], each chunk is not
    empty and starts where the one before it ends, and the last one
    ends at [stop]: they are contiguous, do not overlap, increase
    strictly, and cover exactly [[pos, stop)]. *)
Fixpoint contiguous_cover (pos : Z) (chunks : list TextChunk) (stop : Z) : Prop :=
  match chunks with
  | [] => pos = stop
  | c :: rest => Start c = pos ∧ pos < End_ c ∧ contiguous_cover (End_ c) rest stop
  end.

(** The [k]-th chunk that the "split" strategy is to produce. *)
Definition split_chunk `{GoRuntime} (docID : string) (runes : list rune)
    (chunkSize : Z) (k : nat) : TextChunk :=
  let start := Z.of_nat k * chunkSize in
  let stop := Z.min (start + chunkSize) (GoInt.len runes) in
  {| ChunkID := docID +:+ "_" +:+ pretty (Z.of_nat k);
     Text := string_of_runes (take (Z.to_nat (stop - start)) (drop (Z.to_nat start) runes));
     Start := start;
     End_ := stop |}.

(** The longest text that fits in memory is far shorter than this. *)
Definition max_text_len : Z := 2 ^ 62.

(** [m] changes nothing but the world outside. *)
Definition world_only {W A} (m : M W A) : Prop :=
  ∀ st, ∃ w, (m st).2 = set_world w st.

(** The request [req] with another truncation strategy. *)
Definition with_strategy (req : EmbedRequest) (strategy : string) : EmbedRequest :=
  {| Req_Model := Req_Model req; Inputs := Inputs req; TruncateStrategy := strategy;
     ChunkSize := ChunkSize req; Normalize := Normalize req |}.

(** The record [c] of a result is the one made from the chunk [tc]. *)
Definition chunk_of (tc : TextChunk) (c : Chunk) : Prop :=
  Chunk_ChunkID c = ChunkID tc ∧ Chunk_Start c = Start tc ∧ Chunk_End c = End_ tc.

(** Exactly one of the two payload fields is present, that is, not nil. *)
Definition exactly_one_payload (result : EmbedResult) : Prop :=
  (is_Some (Embeddings result) ∧ Chunks result = None)
  ∨ (Embeddings result = None ∧ is_Some (Chunks result)).

(** A request on which [GenerateEmbeddings] neither panics nor loops:
    the configured dimension is not negative, the effective chunk size
    is positive, and the texts fit in memory. *)
Definition valid_request `{GoRuntime} (config : Config) (req : EmbedRequest) : Prop :=
  0 ≤ EmbeddingDimension config
  ∧ 0 < effective_chunkSize config req ≤ GoInt.max_int
  ∧ Forall (λ input, utf8_RuneCountInString (InputItem_Text input) < max_text_len)
           (Inputs req).

Section result_for.
Context `{GoRuntime} {W Body : Type} `{World W Body}.

(** What [GenerateEmbeddings] puts in the result of one input: the
    identifier of the input and, by the length of the text, either the
    vector that [generateEmbedding] returns, with no chunks, or the
    records of the chunks of [chunkText], with no vector.  The vector
    is nil only when the Ollama backend has answered with a nil vector. *)
Definition result_for (config : Config) (normalize : bool) (chunkSize : Z)
    (strategy : string) (input : InputItem) (result : EmbedResult) : Prop :=
  Result_ID result = InputItem_ID input ∧
  if utf8_RuneCountInString (InputItem_Text input) <=? chunkSize then
    Chunks result = None
    ∧ (∃ st st' : State W,
         generateEmbedding config (InputItem_Text input) normalize st
         = (Returns (Embeddings result), st'))
    ∧ (Embeddings result = None →
       EmbeddingProvider config = "ollama"
       ∧ ∃ st st' : State W,
           ollamaEmbedding config (InputItem_Text input) st = (Returns (ROk None), st'))
  else
    Embeddings result = None
    ∧ ∃ chunks cs,
        chunkText (InputItem_ID input) (InputItem_Text input) chunkSize strategy
        = Returns chunks
        ∧ Chunks result = Some cs
        ∧ Forall2 chunk_of chunks cs.
End result_for.

(** The record [j0] with the five fields that the worker assigns. *)
Definition job_with (j0 : Job) (status : string) (progress : Z)
    (urls : list string) (err : option Error) (updated : Z) : Job :=
  {| JobID := JobID j0; Status := status; Progress := progress; Files := Files j0;
     Model := Model j0; ResultURLs := urls; Error_ := err;
     CreatedAt := CreatedAt j0; UpdatedAt := updated; CallbackURL := CallbackURL j0 |}.

(** The state [st] after the worker has changed the world, the record
    of [job] and its entry in the registry, and has made the calls
    [evs]. *)
Definition job_state {W} (st : State W) (w : W) (job : loc) (j : Job)
    (evs : list event) : State W :=
  {| world := w;
     heap := <[job := j]> (heap st);
     next_loc := next_loc st;
     jobStore := {| jobs := <[JobID j := job]> (jobs (jobStore st)) |};
     trace := trace st ++ evs |}.

(** The progress that the worker writes once [done] files of [total]
    have been embedded. *)
Definition progress_after (total done : Z) : Z :=
  GoInt.quo (GoInt.mul done 100) total.

(** The calls that [processJob] makes from the head of its loop on,
    at index [i] with the record [cur] and the files left, how it ends,
    and the record of the job at the end.  [codes] are the error codes
    that a failure inside the loop may give. *)
Inductive loop_trace (codes : list string) (total : Z)
  : Z → Job → list string → list event → outcome unit → Job → Prop :=
| loop_completed i cur path results t :
    loop_trace codes total i cur []
      [EvSaveResults (JobID cur) results;
       EvUpdateJob (job_with cur "completed" 100 [path] (Error_ cur) t);
       EvSendCallback (job_with cur "completed" 100 [path] (Error_ cur) t)]
      (Returns tt)
      (job_with cur "completed" 100 [path] (Error_ cur) t)
| loop_storage_failed i cur err results t :
    loop_trace codes total i cur []
      [EvSaveResults (JobID cur) results;
       EvUpdateJob (job_with cur "failed" (Progress cur) (ResultURLs cur)
                      (Some {| Code := "storage_failed"; Message := err |}) t);
       EvSendCallback (job_with cur "failed" (Progress cur) (ResultURLs cur)
                         (Some {| Code := "storage_failed"; Message := err |}) t)]
      (Returns tt)
      (job_with cur "failed" (Progress cur) (ResultURLs cur)
         (Some {| Code := "storage_failed"; Message := err |}) t)
| loop_file_failed i cur fileURL rest code err t :
    code ∈ codes →
    loop_trace codes total i cur (fileURL :: rest)
      [EvDownloadFile fileURL;
       EvUpdateJob (job_with cur "failed" (Progress cur) (ResultURLs cur)
                      (Some {| Code := code; Message := err |}) t);
       EvSendCallback (job_with cur "failed" (Progress cur) (ResultURLs cur)
                         (Some {| Code := code; Message := err |}) t)]
      (Returns tt)
      (job_with cur "failed" (Progress cur) (ResultURLs cur)
         (Some {| Code := code; Message := err |}) t)
| loop_crashed i cur fileURL rest o :
    o ≠ Returns tt →
    loop_trace codes total i cur (fileURL :: rest) [EvDownloadFile fileURL] o cur
| loop_file_done i cur fileURL rest t evs o final :
    loop_trace codes total (GoInt.add i 1)
      (job_with cur (Status cur) (progress_after total (GoInt.add i 1))
         (ResultURLs cur) (Error_ cur) t)
      rest evs o final →
    loop_trace codes total i cur (fileURL :: rest)
      (EvDownloadFile fileURL
       :: EvUpdateJob (job_with cur (Status cur) (progress_after total (GoInt.add i 1))
                         (ResultURLs cur) (Error_ cur) t)
       :: evs)
      o final.

(** The calls of one run of [processJob] on the record [j0]. *)
Definition job_trace (codes : list string) (j0 : Job) (evs : list event)
    (o : outcome unit) (final : Job) : Prop :=
  ∃ t evs',
    evs = EvUpdateJob (job_with j0 "running" 0 (ResultURLs j0) (Error_ j0) t) :: evs'
    ∧ loop_trace codes (GoInt.len (Files j0)) 0
        (job_with j0 "running" 0 (ResultURLs j0) (Error_ j0) t)
        (Files j0) evs' o final.

(** The records written to the registry, oldest first. *)
Definition writes (evs : list event) : list Job :=
  omap (λ e, match e with
             | EvCreateJob j | EvUpdateJob j => Some j
             | _ => None
             end) evs.

(** The files that the worker has started on, oldest first. *)
Definition downloads (evs : list event) : list string :=
  omap (λ e, match e with EvDownloadFile url => Some url | _ => None end) evs.

(** The values of [l] never decrease, and none is below [lo]. *)
Fixpoint non_decreasing_from (lo : Z) (l : list Z) : Prop :=
  match l with
  | [] => True
  | x :: rest => lo ≤ x ∧ non_decreasing_from x rest
  end.

(** A record as [CreateJob] makes it. *)
Definition as_created (j : Job) : Prop :=
  Status j = "queued" ∧ Progress j = 0 ∧ ResultURLs j = [] ∧ Error_ j = None.

(** [result_urls] is populated exactly on [completed], [error] exactly
    on [failed]. *)
Definition populated_ok (j : Job) : Prop :=
  (ResultURLs j ≠ [] ↔ Status j = "completed")
  ∧ (is_Some (Error_ j) ↔ Status j = "failed").

(** The record carries an error descriptor with the code [code]. *)
Definition has_code (code : string) (j : Job) : Prop :=
  ∃ e, Error_ j = Some e ∧ Code e = code.

(** What a record written by a first run of [processJob] looks like. *)
Definition written_ok (codes : list string) (j : Job) : Prop :=
  0 ≤ Progress j ≤ 100
  ∧ ((Status j = "running" ∧ ResultURLs j = [] ∧ Error_ j = None)
     ∨ (Status j = "completed" ∧ Progress j = 100
        ∧ (∃ path, ResultURLs j = [path]) ∧ Error_ j = None)
     ∨ (Status j = "failed" ∧ ResultURLs j = [] ∧ has_code "storage_failed" j)
     ∨ (Status j = "failed" ∧ ResultURLs j = [] ∧ Progress j < 100
        ∧ ∃ code, code ∈ codes ∧ has_code code j)).

Section file_failure.
Context `{GoRuntime} {W Body : Type} `{World W Body}.

(** What "acquisition, extraction or embedding fails for a file" means
    in a state [st]: the first of the three stages that returns an
    error, given by the error code that goes with it, and the error. *)
Definition file_failure (config : Config)
    (embed : EmbedRequest → M W (option EmbedResponse * option error))
    (model fileURL : string) (st : State W) : option (string * error) :=
  match downloadFile fileURL st with
  | (Returns (RErr err), _) => Some ("download_failed", err)
  | (Returns (ROk (content, filename)), st1) =>
      match ExtractTextFromFile filename content with
      | RErr err => Some ("extraction_failed", err)
      | ROk text =>
          match embed {| Req_Model := model;
                         Inputs := [ {| InputItem_ID := filename;
                                        InputItem_Text := text |} ];
                         TruncateStrategy := "split";
                         ChunkSize := DefaultChunkSize config;
                         Normalize := true |} st1 with
          | (Returns (_, Some err), _) => Some ("embedding_failed", err)
          | _ => None
          end
      end
  | _ => None
  end.
End file_failure.

(** The job record that a call was made with. *)
Definition event_job (e : event) : option Job :=
  match e with
  | EvCreateJob j | EvUpdateJob j | EvSendCallback j => Some j
  | _ => None
  end.

(** No record on the heap and no record that went through the
    registry or the callback dispatcher has the error code [code]. *)
Definition no_code {W} (code : string) (st : State W) : Prop :=
  (∀ p j, heap st !! p = Some j → ¬ has_code code j)
  ∧ (∀ e j, e ∈ trace st → event_job e = Some j → ¬ has_code code j).

Section reachable.
Context `{GoRuntime} {W Body : Type} `{World W Body}.

(** The states of the process: it starts with an empty registry;
    handlers create jobs, executors process them, and the world
    outside changes. *)
Inductive reachable (config : Config) : State W → Prop :=
| reach_start w :
    reachable config {| world := w; heap := ∅; next_loc := 1%positive;
                        jobStore := NewJobStore; trace := [] |}
| reach_CreateJob st files model callbackURL :
    reachable config st →
    reachable config (CreateJob files model callbackURL st).2
| reach_processJob st workerID jobID :
    reachable config st →
    reachable config (processJob config workerID jobID st).2
| reach_world st w :
    reachable config st → reachable config (set_world w st).
End reachable.

(** The error codes of the loop of [processJob] when the embedding
    service cannot fail. *)
Definition stage_codes : list string := ["download_failed"; "extraction_failed"].

(** [m] has no effect and its outcome does not depend on the state. *)
Definition effect_free {W A} (m : M W A) : Prop :=
  ∃ o, ∀ st, m st = (o, st).

Section first_chunk_result.
Context `{GoRuntime} {W Body : Type} `{World W Body}.

(** What [GenerateEmbeddings] makes of an input longer than the chunk
    size under the "truncate" strategy: one chunk record, for the first
    [chunkSize] code points of the text, with the vector of that
    prefix. *)
Definition first_chunk_result (config : Config) (normalize : bool) (chunkSize : Z)
    (input : InputItem) (result : EmbedResult) : Prop :=
  let prefix :=
    string_of_runes (take (Z.to_nat chunkSize) (runes_of (InputItem_Text input))) in
  Result_ID result = InputItem_ID input
  ∧ Embeddings result = None
  ∧ ∃ c, Chunks result = Some [c]
      ∧ Chunk_ChunkID c = InputItem_ID input +:+ "_0"
      ∧ Chunk_Start c = 0 ∧ Chunk_End c = chunkSize
      ∧ truncateSnippet prefix 200 = Returns (TextSnippet c)
      ∧ ∃ st1 st2 : State W,
          generateEmbedding config prefix normalize st1
          = (Returns (Chunk_Embedding c), st2).
End first_chunk_result.

(** The offsets of a chunk record lie within a text of [textLen] code
    points and span at most [chunkSize] of them. *)
Definition chunk_within (textLen chunkSize : Z) (c : Chunk) : Prop :=
  0 ≤ Chunk_Start c < Chunk_End c
  ∧ Chunk_End c ≤ textLen
  ∧ Chunk_End c - Chunk_Start c ≤ chunkSize.

(** Every byte of [s] is printable ASCII. *)
Definition printable_string (s : string) : Prop :=
  Forall (λ c, printable c = true) (list_ascii_of_string s).

(** The printable bytes of [s], in order. *)
Fixpoint printable_bytes (s : string) : string :=
  match s with
  | EmptyString => EmptyString
  | String c rest =>
      if printable c then String c (printable_bytes rest) else printable_bytes rest
  end.

(** The registry is consistent: every entry points to a record on the
    heap that carries the identifier it is filed under, and the heap
    has no record at or beyond the next pointer to be allocated. *)
Definition store_ok {W} (st : State W) : Prop :=
  (∀ jobID p, jobs (jobStore st) !! jobID = Some p →
     ∃ j, heap st !! p = Some j ∧ JobID j = jobID)
  ∧ (∀ p, is_Some (heap st !! p) → (p < next_loc st)%positive).

(** The fields of a record that say which job it is. *)
Definition same_job (j0 j : Job) : Prop :=
  JobID j = JobID j0 ∧ Files j = Files j0 ∧ Model j = Model j0
  ∧ CreatedAt j = CreatedAt j0 ∧ CallbackURL j = CallbackURL j0.

(** The record that a pointer of the registry points to counts for the
    queue depth. *)
Definition pending_at {W} (st : State W) (p : loc) : bool :=
  match heap st !! p with
  | Some j => counts_as_pending j
  | None => false
  end.

(** The entries of the registry whose job is queued or running. *)
Definition pending_jobs {W} (st : State W) : gmap string loc :=
  filter (λ kv, pending_at st kv.2 = true) (jobs (jobStore st)).

(** The records that the callback dispatcher was invoked with, oldest
    first. *)
Definition callbacks (evs : list event) : list Job :=
  omap (λ e, match e with EvSendCallback j => Some j | _ => None end) evs.

(** The name of the file that holds the results of a job. *)
Definition results_filename (jobID : string) : string := jobID +:+ "_results.json".

(** The results that the worker handed to [saveResults], oldest
    first. *)
Definition saved (evs : list event) : list (string * list EmbedResponse) :=
  omap (λ e, match e with
             | EvSaveResults jobID results => Some (jobID, results)
             | _ => None
             end) evs.

Section files_embedded.
Context `{GoRuntime} {W Body : Type} `{World W Body}.

(** The loop of [processJob] goes through [files], from the index [i]
    on, without a failure: each file is downloaded, its text extracted
    and embedded, and the progress written, in the state that the file
    before it has left.  The loop takes the process from [st] to [st']
    and gets [results], one response per file. *)
Inductive files_embedded (config : Config) (job : loc) (total : Z)
  : Z → list string → State W → list EmbedResponse → State W → Prop :=
| files_embedded_nil i st :
    files_embedded config job total i [] st [] st
| files_embedded_cons i fileURL rest st content filename st1 text j resp st2 st3
    results st' :
    downloadFile fileURL st = (Returns (ROk (content, filename)), st1) →
    ExtractTextFromFile filename content = ROk text →
    load job st1 = (Returns j, st1) →
    GenerateEmbeddings config
      {| Req_Model := Model j;
         Inputs := [ {| InputItem_ID := filename; InputItem_Text := text |} ];
         TruncateStrategy := "split";
         ChunkSize := DefaultChunkSize config;
         Normalize := true |} st1
    = (Returns (Some resp, None), st2) →
    total ≠ 0 →
    (assign job (set_Progress (GoInt.quo (GoInt.mul (GoInt.add i 1) 100) total));;
     UpdateJob job) st2 = (Returns tt, st3) →
    files_embedded config job total (GoInt.add i 1) rest st3 results st' →
    files_embedded config job total i (fileURL :: rest) st (resp :: results) st'.

(** The first statements of [processJob] on the record of a job:
    [job.Status = "running"; job.Progress = 0; w.jobStore.UpdateJob(job)]. *)
Definition started (job : loc) (st st1 : State W) : Prop :=
  (assign job (set_Status "running");; assign job (set_Progress 0);;
   UpdateJob job) st = (Returns tt, st1).
End files_embedded.


(** ** A runtime and a world to run the program in

    The properties below are proved for every [GoRuntime] and every
    [World].  To run the program on given inputs one of each is fixed
    here.  The runtime is Go's on ASCII strings; the encoders and the
    random generator stand for Go's, whose output the properties never
    look at. *)

Module Sim.

Definition ascii_runes_of (s : string) : list rune :=
  map (λ c, if byte_of c <? 128 then byte_of c else 65533 (* utf8.RuneError *))
      (list_ascii_of_string s).

Definition ascii_string_of_runes (rs : list rune) : string :=
  string_of_list_ascii
    (map (λ r, Ascii.ascii_of_N (Z.to_N (if (0 <=? r) && (r <? 128) then r else 63)))
         rs).

Definition ascii_lower (c : Ascii.ascii) : Ascii.ascii :=
  if (65 <=? byte_of c) && (byte_of c <=? 90)
  then Ascii.ascii_of_N (Z.to_N (byte_of c + 32)) else c.

Definition ascii_ToLower (s : string) : string :=
  string_of_list_ascii (map ascii_lower (list_ascii_of_string s)).

Definition ascii_space (c : Ascii.ascii) : bool :=
  (byte_of c =? 32) || ((9 <=? byte_of c) && (byte_of c <=? 13)).

Fixpoint trim_left (s : string) : string :=
  match s with
  | String c rest => if ascii_space c then trim_left rest else s
  | EmptyString => s
  end.

Definition ascii_TrimSpace (s : string) : string :=
  let rev_string s := string_of_list_ascii (reverse (list_ascii_of_string s)) in
  rev_string (trim_left (rev_string (trim_left s))).

Definition is_slash (c : Ascii.ascii) : bool := Ascii.eqb c "/"%char.

Fixpoint drop_slashes (l : list Ascii.ascii) : list Ascii.ascii :=
  match l with
  | c :: rest => if is_slash c then drop_slashes rest else l
  | [] => []
  end.

Fixpoint take_element (l : list Ascii.ascii) : list Ascii.ascii :=
  match l with
  | c :: rest => if is_slash c then [] else c :: take_element rest
  | [] => []
  end.

(** [filepath.Base] for slash-separated paths: strip the trailing
    slashes, keep what follows the last slash. *)
Definition slash_Base (path : string) : string :=
  if String.eqb path "" then "." else
  let stripped := drop_slashes (reverse (list_ascii_of_string path)) in
  let elem := string_of_list_ascii (reverse (take_element stripped)) in
  if String.eqb elem "" then "/" else elem.

(** [filepath.Join] of two clean relative paths. *)
Definition slash_Join (dir name : string) : string := dir +:+ "/" +:+ name.

(** 3/4, so that every component [x*2 - 1] of a mock vector is 1/2. *)
Definition const_Float32 (seed : Z) (i : nat) : float32 :=
  S754_finite false 12582912 (-24).

Definition show_strings (l : list string) : string :=
  "[" +:+ String.concat "," l +:+ "]".

#[export] Instance runtime : GoRuntime := {|
  runes_of := ascii_runes_of;
  string_of_runes := ascii_string_of_runes;
  strings_ToLower := ascii_ToLower;
  strings_TrimSpace := ascii_TrimSpace;
  filepath_Base := slash_Base;
  filepath_Join := slash_Join;
  rand_Float32 := const_Float32;
  json_Marshal_request r :=
    ROk ("{model:" +:+ Ollama_Model r +:+ ",prompt:" +:+ Prompt r +:+ "}");
  json_Marshal_payload p :=
    ROk ("{job_id:" +:+ payload_job_id p +:+ ",status:" +:+ payload_status p
         +:+ ",result_urls:" +:+ show_strings (payload_result_urls p) +:+ "}");
  json_MarshalIndent_results rs :=
    ROk ("[" +:+ pretty (length rs) +:+ " results]");
|}.

(** What a server answers: a status, the bytes of the body, and what
    the body decodes to as an Ollama response. *)
Record reply := {
  reply_status : Z;
  reply_bytes : string;
  reply_embedding : result (slice float32);
}.

Record env := {
  (** the files on disk, by path *)
  disk : gmap string string;
  (** whether the disk accepts writes *)
  writable : bool;
  (** the servers that answer, by URL *)
  web : gmap string reply;
  clock : Z;
  next_id : nat;
}.

#[export] Instance sim_world : World env reply := {|
  time_Now_Unix w :=
    (clock w, {| disk := disk w; writable := writable w; web := web w;
                 clock := clock w + 1; next_id := next_id w |});
  uuid_New_String w :=
    ("job-" +:+ pretty (next_id w),
     {| disk := disk w; writable := writable w; web := web w;
        clock := clock w; next_id := S (next_id w) |});
  os_Stat name w :=
    (match disk w !! name with
     | Some _ => None
     | None => Some ("stat " +:+ name +:+ ": no such file or directory")
     end, w);
  os_ReadFile name w :=
    (match disk w !! name with
     | Some content => ROk content
     | None => RErr ("open " +:+ name +:+ ": no such file or directory")
     end, w);
  os_MkdirAll path perm w :=
    (if writable w then None
     else Some ("mkdir " +:+ path +:+ ": read-only file system"), w);
  os_WriteFile name data perm w :=
    if writable w then
      (None, {| disk := <[name := data]> (disk w); writable := writable w;
                web := web w; clock := clock w; next_id := next_id w |})
    else (Some ("open " +:+ name +:+ ": read-only file system"), w);
  http_Get timeout url w :=
    (match web w !! url with
     | Some r => ROk {| StatusCode := reply_status r; Resp_Body := r |}
     | None => RErr ("Get " +:+ url +:+ ": connection refused")
     end, w);
  http_Post timeout url contentType body w :=
    (match web w !! url with
     | Some r => ROk {| StatusCode := reply_status r; Resp_Body := r |}
     | None => RErr ("Post " +:+ url +:+ ": connection refused")
     end, w);
  io_ReadAll body w := ((reply_bytes body, None), w);
  Body_Close body w := w;
  json_Decode_Embedding body w := (reply_embedding body, w);
|}.

Definition init (w : env) : State env :=
  {| world := w; heap := ∅; next_loc := 1%positive;
     jobStore := NewJobStore; trace := [] |}.

(** The default configuration of [config.Load], with the storage
    directory written without its leading [./]. *)
Definition default_config : Config :=
  {| EmbeddingProvider := "mock"; EmbeddingDimension := 512;
     OllamaURL := "http://localhost:11434"; OllamaModel := "nomic-embed-text";
     MaxChunkSize := 8000; DefaultChunkSize := 1000;
     StoragePath := "storage" |}.

(** A small configuration: vectors of four components. *)
Definition small_config : Config :=
  {| EmbeddingProvider := "mock"; EmbeddingDimension := 4;
     OllamaURL := "http://localhost:11434"; OllamaModel := "nomic-embed-text";
     MaxChunkSize := 8000; DefaultChunkSize := 1000;
     StoragePath := "storage" |}.

(** The same with the Ollama backend, for vectors of 512 components. *)
Definition ollama_config : Config :=
  {| EmbeddingProvider := "ollama"; EmbeddingDimension := 512;
     OllamaURL := "http://localhost:11434"; OllamaModel := "nomic-embed-text";
     MaxChunkSize := 8000; DefaultChunkSize := 1000;
     StoragePath := "storage" |}.

Definition empty_world : env :=
  {| disk := ∅; writable := true; web := ∅; clock := 1700000000; next_id := 0 |}.

(** A world whose Ollama server answers 200 with the given vector. *)
Definition ollama_world (embedding : slice float32) : env :=
  {| disk := ∅; writable := true;
     web := {[ "http://localhost:11434/api/embeddings" :=
               {| reply_status := 200; reply_bytes := "{...}";
                  reply_embedding := ROk embedding |} ]};
     clock := 1700000000; next_id := 0 |}.

Definition hello_request (strategy : string) : EmbedRequest :=
  {| Req_Model := "embed-large-512";
     Inputs := [ {| InputItem_ID := "doc1"; InputItem_Text := "hello world" |} ];
     TruncateStrategy := strategy; ChunkSize := 4; Normalize := true |}.

(** The first scenario of the specification: a short text and a chunk
    size of 1000. *)
Definition scenario_request : EmbedRequest :=
  {| Req_Model := "embed-large-512";
     Inputs := [ {| InputItem_ID := "doc1"; InputItem_Text := "hello world" |} ];
     TruncateStrategy := ""; ChunkSize := 1000; Normalize := true |}.

(** The number of chunk records of each result of a response. *)
Definition chunk_counts (o : outcome (option EmbedResponse * option error))
    : list nat :=
  match o with
  | Returns (Some resp, _) => map (λ r, length (elems (Chunks r))) (Results resp)
  | _ => []
  end.

(** A disk with one text file. *)
Definition file_world : env :=
  {| disk := {[ "/data/a.txt" := "hello world" ]}; writable := true; web := ∅;
     clock := 1700000000; next_id := 0 |}.

(** The state after a handler has created a job for [files]. *)
Definition submitted (w : env) (files : list string) (callbackURL : string)
    : State env :=
  (CreateJob files "embed-large-512" callbackURL (init w)).2.

(** The record that [submitted] has created. *)
Definition submitted_job (files : list string) (callbackURL : string) : Job :=
  {| JobID := "job-0"; Status := "queued"; Progress := 0; Files := files;
     Model := "embed-large-512"; ResultURLs := []; Error_ := None;
     CreatedAt := 1700000000; UpdatedAt := 1700000001;
     CallbackURL := callbackURL |}.

End Sim.

(** ** Further inputs *)

Module Cases.
Import Sim.

(** A configuration whose default chunk size is [n]. *)
Definition chunk_config (n : Z) : Config :=
  {| EmbeddingProvider := "mock"; EmbeddingDimension := 4;
     OllamaURL := "http://localhost:11434"; OllamaModel := "nomic-embed-text";
     MaxChunkSize := 8000; DefaultChunkSize := n;
     StoragePath := "storage" |}.

(** The request of the worker for a file [a.txt] that reads
    "hello world". *)
Definition worker_request : EmbedRequest :=
  {| Req_Model := "embed-large-512";
     Inputs := [ {| InputItem_ID := "a.txt"; InputItem_Text := "hello world" |} ];
     TruncateStrategy := "split"; ChunkSize := 0; Normalize := true |}.

(** The default limits of [config.Load]. *)
Definition default_limits : Limits :=
  {| APIKeys := ["test-api-key"]; RapidAPIProxySecret := "";
     EmbeddingModel := "embed-large-512"; MaxBatchSize := 100;
     SyncFileLimitMB := 5 |}.

(** 2^-80, whose square is below the least positive [float32]. *)
Definition tiny : float32 := S754_finite false 8388608 (-103).

(** The state after a job for the file on disk has been created. *)
Definition created : State env := submitted file_world ["/data/a.txt"] "".

(** The record of that job. *)
Definition created_job : Job := submitted_job ["/data/a.txt"] "".

(** The state after that job has been processed. *)
Definition processed : State env := (processJob small_config 0 "job-0" created).2.

(** The state after a job without files has been created. *)
Definition created_empty : State env := submitted file_world [] "".

End Cases.

(** * Properties *)

(** ** Go integers *)

Lemma wrap_in_range z : GoInt.in_range z → GoInt.wrap z = z.
Proof.
  unfold GoInt.in_range, GoInt.min_int, GoInt.max_int, GoInt.wrap. intros Hz.
  rewrite Z.mod_small; lia.
Qed.

Lemma add_in_range a b : GoInt.in_range (a + b) → GoInt.add a b = a + b.
Proof. apply wrap_in_range. Qed.

Lemma len_nonneg {A} (l : list A) : 0 ≤ GoInt.len l.
Proof. unfold GoInt.len. lia. Qed.

(** ** normalizeL2 *)

Lemma sumSq_zeros (vec : list float32) (acc : float64) :
  Forall (λ v, is_zero v = true) vec →
  acc = zero64 →
  fold_left (λ sumSq v, add64 sumSq (to64 (mul32 v v))) vec acc = zero64.
Proof.
  intros Hall. revert acc. induction Hall as [|v vec Hv _ IH]; intros acc ->.
  - reflexivity.
  - cbn [fold_left]. apply IH.
    destruct v as [s| | |]; try discriminate. by destruct s.
Qed.

(** C8.  [normalizeL2] returns a vector whose norm, as the function
    computes it, is exactly zero as it is: the division is not reached.
    A vector whose components are all zero has such a norm, so
    normalising the all-zero vector gives the all-zero vector. *)
Theorem normalizeL2_zero_norm (vec : slice float32) :
  (eqb64 (normalizeL2_norm vec) zero64 = true → normalizeL2 vec = vec)
  ∧ (Forall (λ v, is_zero v = true) (elems vec) →
     eqb64 (normalizeL2_norm vec) zero64 = true ∧ normalizeL2 vec = vec).
Proof.
  assert (Hret : eqb64 (normalizeL2_norm vec) zero64 = true → normalizeL2 vec = vec).
  { intros Hnorm. unfold normalizeL2. by rewrite Hnorm. }
  split; [exact Hret|]. intros Hall.
  assert (Hnorm : eqb64 (normalizeL2_norm vec) zero64 = true).
  { unfold normalizeL2_norm, normalizeL2_sumSq. by rewrite sumSq_zeros. }
  auto.
Qed.

(** A vector of three zeros, one of them negative. *)
Lemma normalizeL2_zero_norm_witness :
  normalizeL2 (Some [S754_zero false; S754_zero true; S754_zero false])
  = Some [S754_zero false; S754_zero true; S754_zero false].
Proof.
  apply (normalizeL2_zero_norm (Some [S754_zero false; S754_zero true; S754_zero false])).
  repeat constructor.
Defined.

(** ** The chunker *)

Lemma lt_ceil_div (k a b : Z) : 0 < b → (k < ceil_div a b ↔ k * b < a).
Proof.
  intros Hb. unfold ceil_div.
  pose proof (Z.div_mod (a + b - 1) b ltac:(lia)) as Hdm.
  pose proof (Z.mod_pos_bound (a + b - 1) b Hb) as Hr.
  split; intros Hk; nia.
Qed.

Lemma ceil_div_nonneg (a b : Z) : 0 ≤ a → 0 < b → 0 ≤ ceil_div a b.
Proof. intros. unfold ceil_div. apply Z.div_pos; lia. Qed.

Lemma ceil_div_le (a b : Z) : 0 ≤ a → 0 < b → ceil_div a b ≤ a.
Proof.
  intros Ha Hb. destruct (Z_lt_le_dec a (ceil_div a b)) as [Hlt|]; [|done].
  apply lt_ceil_div in Hlt; [nia|done].
Qed.

Section ChunkerFacts.
Context `{GoRuntime}.
Variables (docID : string) (runes : list rune) (chunkSize : Z).
Hypothesis chunkSize_pos : 0 < chunkSize.
Hypothesis chunkSize_int : chunkSize ≤ GoInt.max_int.
Hypothesis runes_short : GoInt.len runes < max_text_len.

Let L := GoInt.len runes.
Let n := ceil_div L chunkSize.

(** The loop from its [k]-th iteration on appends the chunks [k], ...,
    [n - 1]. *)
Lemma chunkText_split_from (fuel : nat) : ∀ (k : nat) (acc : list TextChunk),
  n - Z.of_nat k ≤ Z.of_nat fuel →
  Z.of_nat k ≤ n →
  chunkText_split fuel docID runes chunkSize (Z.of_nat k * chunkSize) (Z.of_nat k) acc
  = Returns (acc ++ map (split_chunk docID runes chunkSize)
                        (seq k (Z.to_nat n - k))).
Proof.
  pose proof (len_nonneg runes) as HL0. fold L in HL0.
  assert (Hn0 : 0 ≤ n) by (apply ceil_div_nonneg; lia).
  assert (HnL : n ≤ L) by (apply ceil_div_le; lia).
  assert (HLmax : L < 2 ^ 62) by exact runes_short.
  induction fuel as [|fuel IH]; intros k acc Hfuel Hk.
  - assert (Z.of_nat k = n) as Hkn by lia.
    assert (¬ Z.of_nat k * chunkSize < L) as Hge.
    { intros Hc. apply lt_ceil_div in Hc; [|done]. fold n in Hc. lia. }
    cbn [chunkText_split]. fold L.
    destruct (Z.ltb_spec (Z.of_nat k * chunkSize) L); [lia|]. cbn.
    replace (Z.to_nat n - k)%nat with 0%nat by lia. cbn. by rewrite app_nil_r.
  - cbn [chunkText_split]. fold L.
    destruct (Z.ltb_spec (Z.of_nat k * chunkSize) L) as [Hlt|Hge]; cbn [negb].
    + assert (Z.of_nat k < n) as Hkn by (apply lt_ceil_div; done).
      assert (Hsum : GoInt.add (Z.of_nat k * chunkSize) chunkSize
                     = Z.of_nat (S k) * chunkSize).
      { rewrite add_in_range; [lia|].
        unfold GoInt.in_range, GoInt.min_int, GoInt.max_int in *.
        destruct k as [|k]; [lia|]. nia. }
      assert (Hidx : GoInt.add (Z.of_nat k) 1 = Z.of_nat (S k)).
      { rewrite add_in_range; [lia|].
        unfold GoInt.in_range, GoInt.min_int, GoInt.max_int. lia. }
      rewrite Hsum, Hidx.
      set (stop := if Z.of_nat (S k) * chunkSize >? L then L
                   else Z.of_nat (S k) * chunkSize).
      assert (Hstop : stop = Z.min (Z.of_nat k * chunkSize + chunkSize) L).
      { subst stop. destruct (Z.gtb_spec (Z.of_nat (S k) * chunkSize) L); lia. }
      unfold slice_range. fold L.
      destruct (Z.leb_spec 0 (Z.of_nat k * chunkSize)); [|lia].
      destruct (Z.leb_spec (Z.of_nat k * chunkSize) stop); [|lia].
      destruct (Z.leb_spec stop L); [|lia]. cbn [andb].
      rewrite IH by lia.
      replace (Z.to_nat n - k)%nat with (S (Z.to_nat n - S k)) by lia.
      cbn [seq map]. rewrite <- app_assoc. cbn [app].
      do 3 f_equal. unfold split_chunk. fold L. rewrite <- Hstop. done.
    + assert (¬ Z.of_nat k < n) as Hkn.
      { intros Hc. apply lt_ceil_div in Hc; [lia|done]. }
      replace (Z.to_nat n - k)%nat with 0%nat by lia. cbn. by rewrite app_nil_r.
Qed.

Lemma chunkText_split_eq (text : string) :
  runes_of text = runes →
  chunkText docID text chunkSize "split"
  = Returns (map (split_chunk docID runes chunkSize) (seq 0 (Z.to_nat n))).
Proof.
  intros Hrunes. unfold chunkText. cbn [String.eqb Ascii.eqb Bool.eqb].
  rewrite Hrunes.
  pose proof (len_nonneg runes) as HL0. fold L in HL0.
  assert (Hn0 : 0 ≤ n) by (apply ceil_div_nonneg; lia).
  assert (HnL : n ≤ L) by (apply ceil_div_le; lia).
  pose proof (chunkText_split_from (S (length runes)) 0 []) as Hloop.
  change (Z.of_nat 0 * chunkSize) with 0 in Hloop.
  change (Z.of_nat 0) with 0 in Hloop. rewrite Hloop.
  - cbn [app]. by rewrite Nat.sub_0_r.
  - unfold L, GoInt.len in HnL. lia.
  - lia.
Qed.

Lemma split_chunks_cover (k m : nat) :
  Z.of_nat (k + m) = n →
  contiguous_cover (Z.min (Z.of_nat k * chunkSize) L)
    (map (split_chunk docID runes chunkSize) (seq k m)) L.
Proof.
  pose proof (len_nonneg runes) as HL0. fold L in HL0.
  revert k. induction m as [|m IH]; intros k Hkm.
  - cbn. rewrite Nat.add_0_r in Hkm.
    assert (¬ Z.of_nat k * chunkSize < L) as Hge.
    { intros Hc. apply lt_ceil_div in Hc; [|done]. fold n in Hc. lia. }
    lia.
  - assert (Z.of_nat k * chunkSize < L) as Hlt.
    { apply lt_ceil_div; [done|]. fold n. lia. }
    cbn [seq map contiguous_cover split_chunk Start End_]. fold L.
    split; [lia|]. split; [lia|].
    specialize (IH (S k) ltac:(lia)).
    replace (Z.of_nat (S k) * chunkSize) with (Z.of_nat k * chunkSize + chunkSize) in IH by lia.
    by rewrite Z.min_comm in IH |- *.
Qed.

End ChunkerFacts.

Section ChunkerDivergence.
Context `{GoRuntime}.

(** With a chunk size of zero the loop never leaves its first state. *)
Lemma chunkText_split_stuck (fuel : nat) (docID : string) (runes : list rune)
    (start : Z) : ∀ (chunkIndex : Z) (chunks : list TextChunk),
  0 ≤ start < GoInt.len runes →
  GoInt.len runes < max_text_len →
  chunkText_split fuel docID runes 0 start chunkIndex chunks = Diverges.
Proof.
  intros chunkIndex chunks Hstart Hlen. unfold max_text_len in Hlen.
  assert (Hadd : GoInt.add start 0 = start).
  { rewrite add_in_range; [lia|].
    unfold GoInt.in_range, GoInt.min_int, GoInt.max_int. lia. }
  revert chunkIndex chunks.
  induction fuel as [|fuel IH]; intros chunkIndex chunks; cbn [chunkText_split];
    destruct (Z.ltb_spec start (GoInt.len runes)); try lia; cbn [negb]; [done|].
  rewrite Hadd. destruct (Z.gtb_spec start (GoInt.len runes)); [lia|].
  unfold slice_range.
  destruct (Z.leb_spec 0 start); [|lia].
  destruct (Z.leb_spec start start); [|lia].
  destruct (Z.leb_spec start (GoInt.len runes)); [|lia]. cbn [andb].
  apply IH.
Qed.

(** When [chunkText] is said to diverge, no number of iterations lets its
    loop end. *)
Lemma chunkText_diverges (docID text : string) (chunkSize : Z) (strategy : string) :
  GoInt.in_range chunkSize →
  utf8_RuneCountInString text < max_text_len →
  chunkText docID text chunkSize strategy = Diverges →
  ∀ fuel, chunkText_split fuel docID (runes_of text) chunkSize 0 0 [] = Diverges.
Proof.
  unfold utf8_RuneCountInString. intros Hrange Hlen Hdiv fuel.
  pose proof (len_nonneg (runes_of text)) as HL0.
  unfold chunkText in Hdiv. destruct (String.eqb strategy "truncate").
  { unfold slice_range in Hdiv. by destruct (_ && _). }
  destruct (Z_dec chunkSize 0) as [[Hneg|Hpos]|Hzero]; [| |subst chunkSize].
  - exfalso. cbn [chunkText_split] in Hdiv.
    destruct (Z.ltb_spec 0 (GoInt.len (runes_of text))); [|done]. cbn [negb] in Hdiv.
    rewrite add_in_range in Hdiv by (by rewrite Z.add_0_l).
    rewrite Z.add_0_l in Hdiv.
    destruct (Z.gtb_spec chunkSize (GoInt.len (runes_of text))); [lia|].
    unfold slice_range in Hdiv. destruct (Z.leb_spec 0 chunkSize); [lia|].
    by rewrite andb_false_r in Hdiv.
  - exfalso. unfold GoInt.in_range in Hrange.
    pose proof (chunkText_split_eq docID (runes_of text) chunkSize ltac:(lia)
                  ltac:(lia) Hlen text eq_refl) as Heq.
    unfold chunkText in Heq. cbn [String.eqb Ascii.eqb Bool.eqb] in Heq.
    by rewrite Heq in Hdiv.
  - destruct (Z_lt_le_dec 0 (GoInt.len (runes_of text))).
    + by apply chunkText_split_stuck.
    + exfalso. cbn [chunkText_split] in Hdiv.
      by destruct (Z.ltb_spec 0 (GoInt.len (runes_of text))); [lia|].
Qed.

End ChunkerDivergence.

(** C3.  For a text [T] and a chunk size greater than zero, [chunkText]
    with the strategy "split" returns [ceil(len(T) / chunk_size)] chunks,
    lengths counted in code points; their offset ranges [[Start, End)]
    are contiguous, do not overlap, increase strictly and cover exactly
    [[0, len(T))]; every chunk spans [chunk_size] code points except
    the last, which spans the remainder.  (The chunk size is an [int]
    and the text fits in memory.) *)
Theorem chunkText_split_covers `{GoRuntime} (docID text : string) (chunkSize : Z)
    (Hpos : 0 < chunkSize) (Hint : chunkSize ≤ GoInt.max_int)
    (Hlen : utf8_RuneCountInString text < max_text_len) :
  ∃ chunks : list TextChunk,
    chunkText docID text chunkSize "split" = Returns chunks
    ∧ GoInt.len chunks = ceil_div (utf8_RuneCountInString text) chunkSize
    ∧ contiguous_cover 0 chunks (utf8_RuneCountInString text)
    ∧ ∀ (k : nat) (c : TextChunk), chunks !! k = Some c →
        c = split_chunk docID (runes_of text) chunkSize k
        ∧ 0 < End_ c - Start c ≤ chunkSize
        ∧ ((S k < length chunks)%nat → End_ c - Start c = chunkSize)
        ∧ (S k = length chunks →
           End_ c - Start c = utf8_RuneCountInString text - Z.of_nat k * chunkSize).
Proof.
  unfold utf8_RuneCountInString in *.
  set (runes := runes_of text) in *. set (L := GoInt.len runes) in *.
  set (n := ceil_div L chunkSize).
  pose proof (len_nonneg runes) as HL0. fold L in HL0.
  assert (Hn0 : 0 ≤ n) by (apply ceil_div_nonneg; lia).
  eexists. split; [by apply chunkText_split_eq|].
  split; [|split].
  - unfold GoInt.len at 1. rewrite length_map, length_seq. fold L. fold n. lia.
  - pose proof (split_chunks_cover docID runes chunkSize Hpos 0 (Z.to_nat n)) as Hc.
    fold L n in Hc. rewrite Z.min_l in Hc by lia. apply Hc. lia.
  - intros k c Hk. fold L n in Hk.
    rewrite length_map, length_seq. fold L n.
    rewrite list_lookup_fmap in Hk.
    destruct (seq 0 (Z.to_nat n) !! k) as [i|] eqn:Hi; [|done].
    apply lookup_seq in Hi as [-> Hkn]. cbn in Hk. injection Hk as <-.
    split; [done|]. cbn [split_chunk Start End_]. fold L.
    assert (Z.of_nat k < n) as Hlt by lia.
    apply lt_ceil_div in Hlt; [|done].
    repeat split; try lia.
    + intros HS. assert (Z.of_nat (S k) < n) as HSn by lia.
      apply lt_ceil_div in HSn; [|done]. lia.
    + intros HS. assert (¬ Z.of_nat (S k) * chunkSize < L) as Hge.
      { intros Hc. apply lt_ceil_div in Hc; [|done]. fold n in Hc. lia. }
      lia.
Qed.

(** ** Reasoning about the monad *)

Section MonadFacts.
Context {W : Type}.

Lemma set_world_twice (w w' : W) (st : State W) :
  set_world w (set_world w' st) = set_world w st.
Proof. done. Qed.

Lemma world_only_ret {A} (a : A) : world_only (mret a : M W A).
Proof. intros st. exists (world st). by destruct st. Qed.

Lemma world_only_run {A} (o : outcome A) : world_only (run o : M W A).
Proof. intros st. exists (world st). by destruct st. Qed.

Lemma world_only_call {A} (f : W → A * W) : world_only (call f).
Proof. intros st. unfold call. destruct (f (world st)) as [a w]. by exists w. Qed.

Lemma world_only_call_ (f : W → W) : world_only (call_ f).
Proof. intros st. by eexists. Qed.

Lemma world_only_bind {A B} (m : M W A) (k : A → M W B) :
  world_only m → (∀ a, world_only (k a)) → world_only (m ≫= k).
Proof.
  intros Hm Hk st. unfold mbind, M_bind, bind.
  destruct (Hm st) as [w Hw]. destruct (m st) as [[a| |] st']; cbn in *; subst.
  - destruct (Hk a (set_world w st)) as [w' Hw']. exists w'.
    by rewrite Hw', set_world_twice.
  - by exists w.
  - by exists w.
Qed.

End MonadFacts.

Ltac solve_world_only :=
  repeat first
    [ apply world_only_ret | apply world_only_run | apply world_only_call
    | apply world_only_call_
    | apply world_only_bind; [|intros ?]
    | match goal with
      | |- world_only (match ?x with _ => _ end) => destruct x
      | |- world_only (if ?x then _ else _) => destruct x
      | |- world_only (let '(_, _) := ?x in _) => destruct x
      end
    | progress cbv beta ].

(** ** The embedding pipeline *)

Section PipelineFacts.
Context `{GoRuntime} {W Body : Type} `{World W Body}.
Variable config : Config.

Lemma ollamaEmbedding_world_only text : world_only (ollamaEmbedding config text).
Proof. unfold ollamaEmbedding. solve_world_only. Qed.

Lemma generateEmbedding_world_only text normalize :
  world_only (generateEmbedding config text normalize).
Proof.
  unfold generateEmbedding. pose proof (ollamaEmbedding_world_only text).
  solve_world_only; done.
Qed.

Lemma embed_chunks_world_only normalize chunks : ∀ acc,
  world_only (embed_chunks config normalize chunks acc).
Proof.
  induction chunks as [|c chunks IH]; intros acc; cbn [embed_chunks].
  - solve_world_only.
  - apply world_only_bind; [apply generateEmbedding_world_only|intros ?].
    apply world_only_bind; [apply world_only_run|intros ?]. apply IH.
Qed.

Lemma embed_input_world_only normalize chunkSize strategy input :
  world_only (embed_input config normalize chunkSize strategy input).
Proof.
  unfold embed_input.
  pose proof (generateEmbedding_world_only (InputItem_Text input) normalize).
  pose proof (embed_chunks_world_only normalize).
  solve_world_only; done.
Qed.

Lemma embed_inputs_world_only normalize chunkSize strategy inputs : ∀ results,
  world_only (embed_inputs config normalize chunkSize strategy inputs results).
Proof.
  induction inputs as [|i inputs IH]; intros results; cbn [embed_inputs].
  - solve_world_only.
  - apply world_only_bind; [apply embed_input_world_only|intros ?]. apply IH.
Qed.

Lemma GenerateEmbeddings_world_only req : world_only (GenerateEmbeddings config req).
Proof.
  unfold GenerateEmbeddings.
  apply world_only_bind; [apply embed_inputs_world_only|intros ?]. solve_world_only.
Qed.

End PipelineFacts.

Lemma normalizeL2_nil : normalizeL2 None = None.
Proof. reflexivity. Qed.

Lemma normalizeL2_elems_length (vec : slice float32) :
  length (elems (normalizeL2 vec)) = length (elems vec).
Proof.
  unfold normalizeL2. destruct (eqb64 _ _); [done|]. cbn. by rewrite length_map.
Qed.

Lemma normalizeL2_is_Some (l : list float32) : is_Some (normalizeL2 (Some l)).
Proof. unfold normalizeL2. destruct (eqb64 _ _); eauto. Qed.

(** *** What the vector generator returns *)

Section PipelineValues.
Context `{GoRuntime} {W Body : Type} `{World W Body}.
Variable config : Config.

Lemma mockEmbedding_returns text dimension normalize :
  0 ≤ dimension →
  ∃ l, mockEmbedding text dimension normalize = Returns (Some l)
       ∧ GoInt.len l = dimension.
Proof.
  intros Hdim. unfold mockEmbedding.
  destruct (Z.ltb_spec dimension 0); [lia|].
  set (raw := map _ (seq 0 (Z.to_nat dimension))).
  assert (Hraw : GoInt.len raw = dimension).
  { unfold GoInt.len, raw. rewrite length_map, length_seq. lia. }
  destruct normalize; [|eauto].
  destruct (normalizeL2_is_Some raw) as [l Hl]. exists l. rewrite Hl. split; [done|].
  pose proof (normalizeL2_elems_length (Some raw)) as Hlen. rewrite Hl in Hlen.
  unfold GoInt.len in *. cbn in Hlen. lia.
Qed.

Lemma ollamaEmbedding_returns text (st : State W) :
  ∃ r w, ollamaEmbedding config text st = (Returns r, set_world w st).
Proof.
  unfold ollamaEmbedding.
  destruct (json_Marshal_request _) as [jsonData|err].
  2:{ eexists _, (world st). by destruct st. }
  unfold mbind, M_bind, bind, call, call_, mret, M_ret, ret.
  destruct (http_Post _ _ _ _ _) as [[resp|err] w1]; [|by eauto].
  destruct (negb _); cbn.
  - destruct (io_ReadAll _ _) as [[body e] w2]. cbn. by eauto.
  - destruct (json_Decode_Embedding _ _) as [[emb|err] w2]; cbn; by eauto.
Qed.

(** What [generateEmbedding] returns, by provider and by what the remote
    backend did. *)
Lemma generateEmbedding_cases text normalize (st : State W) :
  0 ≤ EmbeddingDimension config →
  ∃ v w, generateEmbedding config text normalize st = (Returns v, set_world w st)
    ∧ ((∃ l, v = Some l ∧ GoInt.len l = EmbeddingDimension config
             ∧ (EmbeddingProvider config = "ollama" →
                ∃ err st', ollamaEmbedding config text st = (Returns (RErr err), st')))
       ∨ (EmbeddingProvider config = "ollama"
          ∧ ∃ emb st', ollamaEmbedding config text st = (Returns (ROk emb), st')
                       ∧ v = (if normalize then normalizeL2 emb else emb))).
Proof.
  intros Hdim. unfold generateEmbedding.
  destruct (mockEmbedding_returns text (EmbeddingDimension config) normalize Hdim)
    as (l & Hmock & Hlen).
  destruct (String.eqb_spec (EmbeddingProvider config) "ollama") as [Hp|Hp].
  - destruct (ollamaEmbedding_returns text st) as ([emb|err] & w & Hollama);
      unfold mbind, M_bind, bind; rewrite Hollama.
    + eexists _, w. split; [done|]. right. split; [done|]. by eauto.
    + rewrite Hmock. eexists _, w. split; [done|]. left. exists l.
      split; [done|]. split; [done|]. by eauto.
  - assert (run (W := W) (mockEmbedding text (EmbeddingDimension config) normalize) st
            = (Returns (Some l), set_world (world st) st)) as Hrun.
    { unfold run. rewrite Hmock. by destruct st. }
    destruct (String.eqb _ "openai"); rewrite Hrun;
      eexists _, _; (split; [done|]); left; exists l; done.
Qed.

End PipelineValues.

(** *** The pipeline returns *)

Section PipelineTheorems.
Context `{GoRuntime} {W Body : Type} `{World W Body}.
Variable config : Config.

Lemma chunkText_returns docID text chunkSize strategy :
  0 < chunkSize ≤ GoInt.max_int →
  utf8_RuneCountInString text < max_text_len →
  ∃ chunks, chunkText docID text chunkSize strategy = Returns chunks.
Proof.
  intros [Hpos Hint] Hlen.
  destruct (String.eqb_spec strategy "truncate") as [->|Hs].
  - unfold chunkText. cbn [String.eqb Ascii.eqb Bool.eqb].
    pose proof (len_nonneg (runes_of text)).
    set (stop := if chunkSize >? _ then _ else _).
    assert (0 ≤ stop ≤ GoInt.len (runes_of text)) as Hstop.
    { subst stop. destruct (Z.gtb_spec chunkSize (GoInt.len (runes_of text))); lia. }
    unfold slice_range.
    destruct (Z.leb_spec 0 stop); [|lia].
    destruct (Z.leb_spec stop (GoInt.len (runes_of text))); [|lia].
    cbn. by eauto.
  - unfold chunkText. apply String.eqb_neq in Hs. rewrite Hs.
    pose proof (chunkText_split_eq docID (runes_of text) chunkSize Hpos Hint Hlen text eq_refl)
      as Heq.
    unfold chunkText in Heq. cbn [String.eqb Ascii.eqb Bool.eqb] in Heq. by eauto.
Qed.

Lemma truncateSnippet_returns text : ∃ s, truncateSnippet text 200 = Returns s.
Proof.
  unfold truncateSnippet.
  destruct (Z.leb_spec (GoInt.len (runes_of text)) 200); [by eauto|].
  unfold slice_range.
  destruct (Z.leb_spec 200 (GoInt.len (runes_of text))); [|lia]. cbn. by eauto.
Qed.

Lemma embed_chunks_returns normalize chunks : ∀ acc (st : State W),
  0 ≤ EmbeddingDimension config →
  ∃ cs w, embed_chunks config normalize chunks acc st = (Returns (acc ++ cs), set_world w st)
          ∧ Forall2 chunk_of chunks cs.
Proof.
  induction chunks as [|c chunks IH]; intros acc st Hdim; cbn [embed_chunks].
  - exists [], (world st). rewrite app_nil_r. split; [by destruct st|constructor].
  - destruct (generateEmbedding_cases config (Text c) normalize st Hdim)
      as (v & w & Hgen & _).
    destruct (truncateSnippet_returns (Text c)) as [s Hs].
    unfold mbind, M_bind, bind. rewrite Hgen. unfold run. rewrite Hs.
    destruct (IH (acc ++ [ {| Chunk_ChunkID := ChunkID c; Chunk_Start := Start c;
                              Chunk_End := End_ c; TextSnippet := s;
                              Chunk_Embedding := v |} ]) (set_world w st) Hdim)
      as (cs & w' & Hrest & Hcs).
    rewrite Hrest, <- app_assoc. cbn [app]. eexists (_ :: cs), w'.
    split; [done|]. constructor; [done|done].
Qed.

Lemma embed_input_returns normalize chunkSize strategy input (st : State W) :
  0 ≤ EmbeddingDimension config →
  0 < chunkSize ≤ GoInt.max_int →
  utf8_RuneCountInString (InputItem_Text input) < max_text_len →
  ∃ result w,
    embed_input config normalize chunkSize strategy input st
    = (Returns result, set_world w st)
    ∧ result_for (W := W) config normalize chunkSize strategy input result.
Proof.
  intros Hdim Hcs Hlen. unfold embed_input, result_for.
  destruct (Z.leb_spec (utf8_RuneCountInString (InputItem_Text input)) chunkSize).
  - destruct (generateEmbedding_cases config (InputItem_Text input) normalize st Hdim)
      as (v & w & Hgen & Hcases).
    unfold mbind, M_bind, bind. rewrite Hgen. eexists _, w. split; [done|]. cbn.
    split; [done|]. split; [done|]. split; [by eauto|].
    intros ->. destruct Hcases as [(l & ? & _)|(Hp & emb & st' & Hollama & Hv)]; [done|].
    split; [done|]. exists st, st'. rewrite Hollama. do 3 f_equal.
    destruct normalize; [|done]. destruct emb as [l|]; [|done].
    by destruct (normalizeL2_is_Some l) as [? Hl]; rewrite Hl in Hv.
  - destruct (chunkText_returns (InputItem_ID input) (InputItem_Text input)
                chunkSize strategy Hcs Hlen) as [chunks Hchunks].
    unfold mbind, M_bind, bind, run. rewrite Hchunks.
    destruct (embed_chunks_returns normalize chunks [] st Hdim) as (cs & w & Hrun & Hcs').
    rewrite Hrun. cbn [app]. eexists _, w. split; [done|]. cbn.
    split; [done|]. split; [done|]. by eauto.
Qed.

Lemma embed_inputs_returns normalize chunkSize strategy inputs :
  ∀ results (st : State W),
  0 ≤ EmbeddingDimension config →
  0 < chunkSize ≤ GoInt.max_int →
  Forall (λ input, utf8_RuneCountInString (InputItem_Text input) < max_text_len) inputs →
  ∃ rs w,
    embed_inputs config normalize chunkSize strategy inputs results st
    = (Returns (results ++ rs), set_world w st)
    ∧ Forall2 (result_for (W := W) config normalize chunkSize strategy) inputs rs.
Proof.
  induction inputs as [|input inputs IH]; intros results st Hdim Hcs Hlen;
    cbn [embed_inputs].
  - exists [], (world st). rewrite app_nil_r. split; [by destruct st|constructor].
  - apply Forall_cons in Hlen as [Hlen1 Hlen].
    destruct (embed_input_returns normalize chunkSize strategy input st Hdim Hcs Hlen1)
      as (r & w & Hrun & Hr).
    unfold mbind, M_bind, bind. rewrite Hrun.
    destruct (IH (results ++ [r]) (set_world w st) Hdim Hcs Hlen) as (rs & w' & Hrest & Hrs).
    rewrite Hrest, <- app_assoc. cbn [app]. exists (r :: rs), w'.
    split; [done|]. by constructor.
Qed.

(** [GenerateEmbeddings] never returns an error or a nil response. *)
Lemma GenerateEmbeddings_no_error req (st : State W) :
  match (GenerateEmbeddings config req st).1 with
  | Returns (resp, err) => is_Some resp ∧ err = None
  | _ => True
  end.
Proof.
  unfold GenerateEmbeddings, mbind, M_bind, bind.
  destruct (embed_inputs _ _ _ _ _ _ _) as [[rs| |] st']; cbn; eauto.
Qed.

Lemma GenerateEmbeddings_returns req (st : State W) :
  valid_request config req →
  ∃ results w,
    GenerateEmbeddings config req st
    = (Returns (Some {| Results := results |}, None), set_world w st)
    ∧ Forall2 (result_for (W := W) config (Normalize req) (effective_chunkSize config req)
                 (effective_truncateStrategy req))
              (Inputs req) results.
Proof.
  intros (Hdim & Hcs & Hlen). unfold GenerateEmbeddings.
  destruct (embed_inputs_returns (Normalize req) (effective_chunkSize config req)
              (effective_truncateStrategy req) (Inputs req) [] st Hdim Hcs Hlen)
    as (rs & w & Hrun & Hrs).
  unfold mbind, M_bind, bind. rewrite Hrun. cbn [app]. by eauto.
Qed.

End PipelineTheorems.

(** *** The truncation strategy *)

Section StrategyFacts.
Context `{GoRuntime} {W Body : Type} `{World W Body}.
Variable config : Config.

Lemma chunkText_not_truncate docID text chunkSize strategy :
  strategy ≠ "truncate" →
  chunkText docID text chunkSize strategy = chunkText docID text chunkSize "split".
Proof.
  intros Hs. unfold chunkText. apply String.eqb_neq in Hs. by rewrite Hs.
Qed.

Lemma embed_inputs_not_truncate normalize chunkSize strategy inputs :
  strategy ≠ "truncate" →
  ∀ results (st : State W),
    embed_inputs config normalize chunkSize strategy inputs results st
    = embed_inputs config normalize chunkSize "split" inputs results st.
Proof.
  intros Hs. induction inputs as [|input inputs IH]; intros results st; [done|].
  cbn [embed_inputs]. unfold mbind, M_bind, bind.
  assert (embed_input config normalize chunkSize strategy input
          = embed_input config normalize chunkSize "split" input) as ->.
  { unfold embed_input. by rewrite chunkText_not_truncate. }
  destruct (embed_input _ _ _ _ _ st) as [[r| |] st']; [|done|done]. apply IH.
Qed.

(** C5, as the code has it.  The effective truncation strategy is
    "truncate" when the caller supplies "truncate" or nothing; with any
    other value, "split" and invalid literals such as "foo" alike,
    [GenerateEmbeddings] behaves as it does with "split". *)
Theorem GenerateEmbeddings_strategy (req : EmbedRequest) (strategy : string)
    (st : State W) :
  GenerateEmbeddings config (with_strategy req strategy) st
  = GenerateEmbeddings config
      (with_strategy req
         (if decide (strategy = "" ∨ strategy = "truncate")
          then "truncate" else "split")) st.
Proof.
  case_decide as Hs.
  - destruct Hs as [-> | ->]; reflexivity.
  - unfold GenerateEmbeddings, effective_truncateStrategy, effective_chunkSize.
    cbn [TruncateStrategy ChunkSize Normalize Inputs with_strategy].
    destruct (String.eqb_spec strategy "") as [->|Hne]; [tauto|].
    cbn [String.eqb]. unfold mbind, M_bind, bind.
    rewrite embed_inputs_not_truncate by tauto. done.
Qed.

End StrategyFacts.

(** ** The worker

    The steps of [processJob] on a state of the form [job_state]. *)

Section WorkerSteps.
Context `{GoRuntime} {W Body : Type} `{World W Body}.
Variable config : Config.
Variables (st : State W) (job : loc).

Lemma load_job_state w j evs :
  load job (job_state st w job j evs) = (Returns j, job_state st w job j evs).
Proof. unfold load. cbn. by rewrite lookup_insert_eq. Qed.

Lemma assign_job_state f w j evs :
  JobID (f j) = JobID j →
  assign job f (job_state st w job j evs) = (Returns tt, job_state st w job (f j) evs).
Proof.
  intros Hid. unfold assign. cbn. rewrite lookup_insert_eq.
  unfold job_state, set_heap. cbn. by rewrite insert_insert_eq, Hid.
Qed.

Lemma UpdateJob_job_state w j evs :
  ∃ t w', UpdateJob job (job_state st w job j evs)
          = (Returns tt, job_state st w' job (set_UpdatedAt t j)
                           (evs ++ [EvUpdateJob (set_UpdatedAt t j)])).
Proof.
  unfold UpdateJob, mbind, M_bind, bind, call. cbn.
  destruct (time_Now_Unix w) as [t w'] eqn:Hnow. exists t, w'.
  unfold assign. cbn. rewrite lookup_insert_eq. cbn.
  unfold load. cbn. rewrite lookup_insert_eq. cbn.
  unfold job_state, set_trace, set_jobStore, set_heap, set_world, emit. cbn.
  by rewrite !insert_insert_eq, <- app_assoc.
Qed.

Lemma sendCallback_job_state w j evs :
  ∃ w', sendCallback job (job_state st w job j evs)
        = (Returns tt, job_state st w' job j (evs ++ [EvSendCallback j])).
Proof.
  unfold sendCallback, mbind, M_bind, bind. rewrite load_job_state.
  unfold emit at 1. cbn -[job_state].
  assert (set_trace (trace (job_state st w job j evs) ++ [EvSendCallback j])
            (job_state st w job j evs)
          = job_state st w job j (evs ++ [EvSendCallback j])) as ->.
  { unfold job_state, set_trace. cbn. by rewrite <- app_assoc. }
  destruct (String.eqb _ ""); [by eauto|].
  destruct (json_Marshal_payload _) as [data|?]; [|by eauto].
  unfold call. cbn -[job_state].
  cbn [world job_state].
  destruct (http_Post _ _ _ _ w) as [[resp|?] w'] eqn:Hpost; cbn; by eauto.
Qed.

Lemma downloadFile_job_state url w j evs :
  ∃ r w', downloadFile url (job_state st w job j evs)
          = (Returns r, job_state st w' job j (evs ++ [EvDownloadFile url])).
Proof.
  unfold downloadFile, mbind, M_bind, bind, emit, call, call_. cbn.
  unfold job_state, set_world, set_trace. cbn. rewrite <- app_assoc.
  destruct (os_Stat url w) as [[e|] w1]; cbn.
  - destruct (http_Get 60 url w1) as [[resp|e'] w2]; cbn; [|by eauto].
    destruct (negb _); cbn; [by eauto|].
    destruct (io_ReadAll _ w2) as [[content [e'|]] w3]; cbn; by eauto.
  - destruct (os_ReadFile url w1) as [[content|e] w2]; cbn; by eauto.
Qed.

Lemma saveResults_job_state jobID results w j evs :
  ∃ r w', saveResults config jobID results (job_state st w job j evs)
          = (Returns r, job_state st w' job j (evs ++ [EvSaveResults jobID results])).
Proof.
  unfold saveResults, mbind, M_bind, bind, emit, call. cbn.
  unfold job_state, set_world, set_trace. cbn. rewrite <- app_assoc.
  destruct (os_MkdirAll _ _ w) as [[e|] w1]; cbn; [by eauto|].
  destruct (json_MarshalIndent_results results) as [data|e]; cbn; [|by eauto].
  destruct (os_WriteFile _ _ _ w1) as [[e|] w2]; cbn; by eauto.
Qed.

Lemma world_only_job_state {A} (m : M W A) w j evs :
  world_only m →
  ∃ o w', m (job_state st w job j evs) = (o, job_state st w' job j evs).
Proof.
  intros Hm. destruct (Hm (job_state st w job j evs)) as [w' Hw'].
  destruct (m _) as [o st']. cbn in Hw'. subst. by eauto.
Qed.

Lemma fail_job_job_state code err w j evs :
  ∃ t w',
    let j' := job_with j "failed" (Progress j) (ResultURLs j)
                (Some {| Code := code; Message := err |}) t in
    fail_job job code err (job_state st w job j evs)
    = (Returns tt, job_state st w' job j' (evs ++ [EvUpdateJob j'; EvSendCallback j'])).
Proof.
  unfold fail_job, mbind, M_bind, bind.
  rewrite assign_job_state by done. rewrite assign_job_state by done.
  destruct (UpdateJob_job_state w
              (set_Error (Some {| Code := code; Message := err |}) (set_Status "failed" j))
              evs) as (t & w1 & ->).
  destruct (sendCallback_job_state w1
              (set_UpdatedAt t (set_Error (Some {| Code := code; Message := err |})
                                  (set_Status "failed" j)))
              (evs ++ [EvUpdateJob (set_UpdatedAt t
                         (set_Error (Some {| Code := code; Message := err |})
                            (set_Status "failed" j)))])) as (w2 & ->).
  exists t, w2. cbn. by rewrite <- app_assoc.
Qed.

End WorkerSteps.

(** *** The calls of a run *)

Section WorkerTrace.
Context `{GoRuntime} {W Body : Type} `{World W Body}.
Variable config : Config.
Variable embed : EmbedRequest → M W (option EmbedResponse * option error).
Hypothesis embed_world_only : ∀ req, world_only (embed req).
Variable codes : list string.
Hypothesis codes_download : "download_failed" ∈ codes.
Hypothesis codes_extraction : "extraction_failed" ∈ codes.
Hypothesis codes_embedding : ∀ req st resp err st',
  embed req st = (Returns (resp, Some err), st') → "embedding_failed" ∈ codes.

Variables (st : State W) (job : loc).

Lemma finish_job_trace total i results w cur evs0 :
  ∃ w' evs final,
    finish_job config job results (job_state st w job cur evs0)
    = (Returns tt, job_state st w' job final (evs0 ++ evs))
    ∧ loop_trace codes total i cur [] evs (Returns tt) final.
Proof.
  unfold finish_job, mbind, M_bind, bind. rewrite load_job_state.
  destruct (saveResults_job_state config st job (JobID cur) results w cur evs0)
    as ([path|err] & w1 & ->).
  - do 3 (rewrite assign_job_state by done).
    destruct (UpdateJob_job_state st job w1
                (set_ResultURLs [path] (set_Progress 100 (set_Status "completed" cur)))
                (evs0 ++ [EvSaveResults (JobID cur) results])) as (t & w2 & ->).
    destruct (sendCallback_job_state st job w2
                (set_UpdatedAt t (set_ResultURLs [path]
                   (set_Progress 100 (set_Status "completed" cur))))
                ((evs0 ++ [EvSaveResults (JobID cur) results])
                 ++ [EvUpdateJob (set_UpdatedAt t (set_ResultURLs [path]
                       (set_Progress 100 (set_Status "completed" cur))))]))
      as (w3 & ->).
    eexists w3, _, _. split; [|apply (loop_completed _ _ i cur path results t)].
    by rewrite <- !app_assoc.
  - destruct (fail_job_job_state st job "storage_failed" err w1 cur
                (evs0 ++ [EvSaveResults (JobID cur) results])) as (t & w2 & ->).
    eexists w2, _, _. split; [|apply (loop_storage_failed _ _ i cur err results t)].
    by rewrite <- !app_assoc.
Qed.

Lemma process_files_trace total files : ∀ i results w cur evs0,
  ∃ w' evs o final,
    process_files config embed job total i files results (finish_job config job)
      (job_state st w job cur evs0)
    = (o, job_state st w' job final (evs0 ++ evs))
    ∧ loop_trace codes total i cur files evs o final.
Proof.
  induction files as [|fileURL rest IH]; intros i results w cur evs0.
  - cbn [process_files].
    destruct (finish_job_trace total i results w cur evs0) as (w' & evs & final & Hrun & Htr).
    by eauto 10.
  - cbn [process_files]. unfold mbind, M_bind, bind.
    destruct (downloadFile_job_state st job fileURL w cur evs0) as (d & w1 & ->).
    destruct d as [[content filename]|err].
    2:{ destruct (fail_job_job_state st job "download_failed" err w1 cur
                    (evs0 ++ [EvDownloadFile fileURL])) as (t & w2 & ->).
        eexists w2, _, _, _. split; [by rewrite <- !app_assoc|].
        by apply loop_file_failed. }
    destruct (ExtractTextFromFile filename content) as [text|err].
    2:{ destruct (fail_job_job_state st job "extraction_failed" err w1 cur
                    (evs0 ++ [EvDownloadFile fileURL])) as (t & w2 & ->).
        eexists w2, _, _, _. split; [by rewrite <- !app_assoc|].
        by apply loop_file_failed. }
    rewrite load_job_state.
    set (req := {| Req_Model := Model cur; Inputs := _; TruncateStrategy := _;
                   ChunkSize := _; Normalize := _ |}).
    destruct (world_only_job_state st job (embed req) w1 cur
                (evs0 ++ [EvDownloadFile fileURL]) (embed_world_only req))
      as (o & w2 & Hembed).
    rewrite Hembed.
    destruct o as [[resp err]| |].
    2,3: eexists w2, [_], _, cur; (split; [done|]); by apply loop_crashed.
    destruct err as [err|].
    { destruct (fail_job_job_state st job "embedding_failed" err w2 cur
                  (evs0 ++ [EvDownloadFile fileURL])) as (t & w3 & ->).
      eexists w3, _, _, _. split; [by rewrite <- !app_assoc|].
      apply loop_file_failed. by eapply codes_embedding. }
    unfold run at 1. destruct resp as [resp|].
    2:{ eexists w2, [_], _, cur. split; [done|]. by apply loop_crashed. }
    unfold run at 1. destruct (total =? 0).
    { eexists w2, [_], _, cur. split; [done|]. by apply loop_crashed. }
    rewrite assign_job_state by done.
    destruct (UpdateJob_job_state st job w2
                (set_Progress (GoInt.quo (GoInt.mul (GoInt.add i 1) 100) total) cur)
                (evs0 ++ [EvDownloadFile fileURL])) as (t & w3 & ->).
    destruct (IH (GoInt.add i 1) (results ++ [resp]) w3
                (set_UpdatedAt t
                   (set_Progress (GoInt.quo (GoInt.mul (GoInt.add i 1) 100) total) cur))
                ((evs0 ++ [EvDownloadFile fileURL])
                 ++ [EvUpdateJob (set_UpdatedAt t
                       (set_Progress (GoInt.quo (GoInt.mul (GoInt.add i 1) 100) total)
                          cur))]))
      as (w4 & evs & o & final & -> & Htr).
    eexists w4, _, o, final. split; [by rewrite <- !app_assoc|].
    exact (loop_file_done codes total i cur fileURL rest t evs o final Htr).
Qed.

Lemma assign_heap (s : State W) (p : loc) (j : Job) (f : Job → Job) :
  heap s !! p = Some j →
  assign p f s = (Returns tt, set_heap (<[p := f j]> (heap s)) s).
Proof. intros Hp. unfold assign. by rewrite Hp. Qed.

Lemma UpdateJob_heap (s : State W) (p : loc) (j : Job) :
  heap s !! p = Some j →
  ∃ t w, UpdateJob p s
         = (Returns tt, job_state s w p (set_UpdatedAt t j)
                          [EvUpdateJob (set_UpdatedAt t j)]).
Proof.
  intros Hp. unfold UpdateJob, mbind, M_bind, bind, call.
  destruct (time_Now_Unix (world s)) as [t w]. exists t, w.
  unfold assign. cbn. rewrite Hp. cbn.
  unfold load. cbn. rewrite lookup_insert_eq. by cbn.
Qed.

(** One run of [processJob] on a job that the registry holds. *)
Lemma processJobWith_trace workerID jobID j0 :
  jobs (jobStore st) !! jobID = Some job →
  heap st !! job = Some j0 →
  ∃ w evs o final,
    processJobWith config embed workerID jobID st
    = (o, job_state st w job final evs)
    ∧ job_trace codes j0 evs o final.
Proof.
  intros Hjob Hj0. unfold processJobWith, mbind, M_bind, bind.
  unfold GetJob. rewrite Hjob.
  rewrite (assign_heap st job j0 _ Hj0).
  rewrite (assign_heap _ job (set_Status "running" j0) (set_Progress 0))
    by apply lookup_insert_eq.
  destruct (UpdateJob_heap
              (set_heap (<[job := set_Progress 0 (set_Status "running" j0)]>
                 (heap (set_heap (<[job := set_Status "running" j0]> (heap st)) st)))
                 (set_heap (<[job := set_Status "running" j0]> (heap st)) st))
              job (set_Progress 0 (set_Status "running" j0)))
    as (t & w1 & ->); [apply lookup_insert_eq|].
  assert (∀ (w : W) (j : Job) (evs : list event),
            job_state
              (set_heap (<[job := set_Progress 0 (set_Status "running" j0)]>
                 (heap (set_heap (<[job := set_Status "running" j0]> (heap st)) st)))
                 (set_heap (<[job := set_Status "running" j0]> (heap st)) st))
              w job j evs
            = job_state st w job j evs) as ->.
  { intros. unfold job_state, set_heap. cbn. by rewrite !insert_insert_eq. }
  rewrite load_job_state. cbn [Files set_UpdatedAt set_Progress set_Status].
  destruct (process_files_trace (GoInt.len (Files j0)) (Files j0) 0 [] w1
              (set_UpdatedAt t (set_Progress 0 (set_Status "running" j0)))
              [EvUpdateJob (set_UpdatedAt t (set_Progress 0 (set_Status "running" j0)))])
    as (w2 & evs & o & final & -> & Htr).
  eexists w2, _, o, final. split; [done|]. exists t, evs. done.
Qed.

End WorkerTrace.

(** ** The progress of a job *)

Section Progress.
Variable total : Z.
Hypothesis total_pos : 0 < total.
Hypothesis total_small : total * 100 ≤ GoInt.max_int.

Lemma progress_after_eq i :
  0 ≤ i ≤ total → progress_after total i = i * 100 / total.
Proof.
  intros Hi. unfold progress_after, GoInt.quo, GoInt.mul.
  unfold GoInt.max_int in total_small.
  rewrite (wrap_in_range (i * 100))
    by (unfold GoInt.in_range, GoInt.min_int, GoInt.max_int; nia).
  rewrite Z.quot_div_nonneg by lia.
  apply wrap_in_range. unfold GoInt.in_range, GoInt.min_int, GoInt.max_int.
  assert (0 ≤ i * 100 / total) by (apply Z.div_pos; lia).
  assert (i * 100 / total ≤ i * 100) by (apply Z.div_le_upper_bound; nia).
  nia.
Qed.

Lemma progress_after_bounds i :
  0 ≤ i ≤ total → 0 ≤ progress_after total i ≤ 100.
Proof.
  intros Hi. rewrite progress_after_eq by done. split.
  - apply Z.div_pos; lia.
  - apply Z.div_le_upper_bound; nia.
Qed.

Lemma progress_after_mono i k :
  0 ≤ i ≤ k → k ≤ total → progress_after total i ≤ progress_after total k.
Proof.
  intros Hi Hk. rewrite !progress_after_eq by lia.
  apply Z.div_le_mono; lia.
Qed.

Lemma progress_after_100 i :
  0 ≤ i ≤ total → (progress_after total i = 100 ↔ i = total).
Proof.
  intros Hi. rewrite progress_after_eq by done. split.
  - intros Heq. destruct (Z_lt_le_dec i total) as [Hlt|]; [|lia].
    assert (i * 100 / total < 100) by (apply Z.div_lt_upper_bound; nia). lia.
  - intros ->. rewrite Z.mul_comm. apply Z.div_mul. lia.
Qed.

Lemma add_1_in_range i : 0 ≤ i < total → GoInt.add i 1 = i + 1.
Proof.
  intros Hi. apply wrap_in_range.
  unfold GoInt.in_range, GoInt.min_int, GoInt.max_int in *. lia.
Qed.

End Progress.

Lemma progress_after_0 total : progress_after total 0 = 0.
Proof. unfold progress_after. by destruct total. Qed.

Lemma split_cons_inv {A} (x y : A) (l l1 l2 : list A) :
  x :: l = l1 ++ y :: l2 →
  (l1 = [] ∧ x = y ∧ l = l2) ∨ (∃ l1', l1 = x :: l1' ∧ l = l1' ++ y :: l2).
Proof.
  destruct l1 as [|x' l1']; cbn; intros Heq; injection Heq as -> ->; eauto.
Qed.

Ltac split_events H :=
  repeat (apply split_cons_inv in H as [(-> & H & ?)|(? & -> & H)];
          [try discriminate H; try (injection H as <-)|]);
  try (by destruct (app_cons_not_nil _ _ _ H)).

(** *** The records that a run writes *)

Section TraceFacts.
Variable codes : list string.
Variable total : Z.
Hypothesis total_small : total * 100 ≤ GoInt.max_int.

Lemma progress_after_range i :
  0 ≤ i ≤ total → 0 ≤ progress_after total i ≤ 100.
Proof.
  intros Hi. destruct (Z_lt_le_dec 0 total).
  - by apply progress_after_bounds.
  - assert (i = 0) as -> by lia. rewrite progress_after_0. lia.
Qed.

(** What [loop_trace] says of the records written. *)
Lemma loop_trace_written i cur files evs o final :
  loop_trace codes total i cur files evs o final →
  0 ≤ i → i + GoInt.len files = total →
  Status cur = "running" → ResultURLs cur = [] → Error_ cur = None →
  Progress cur = progress_after total i →
  Forall (written_ok codes) (writes evs)
  ∧ non_decreasing_from (Progress cur) (Progress <$> writes evs)
  ∧ written_ok codes final
  ∧ last (cur :: writes evs) = Some final
  ∧ (∀ evs1 j evs2, evs = evs1 ++ EvUpdateJob j :: evs2 →
       Status j = "running" → Progress j = 100 → downloads evs1 = files).
Proof.
  induction 1 as [i cur path results t|i cur err results t
                 |i cur fileURL rest code err t Hcode|i cur fileURL rest o Ho
                 |i cur fileURL rest t evs o final Htr IH];
    intros Hi Hlen Hst Hurls Herr Hprog.
  - assert (0 ≤ Progress cur ≤ 100) as Hp.
    { rewrite Hprog. apply progress_after_range. unfold GoInt.len in Hlen. lia. }
    assert (written_ok codes (job_with cur "completed" 100 [path] (Error_ cur) t)) as Hok.
    { split; [cbn; lia|]. right; left. cbn. eauto 10. }
    split; [|split; [|split; [|split]]].
    + cbn. by constructor.
    + cbn. split; [lia|done].
    + done.
    + done.
    + intros evs1 j evs2 Heq Hj _. split_events Heq. discriminate Hj.
  - assert (0 ≤ Progress cur ≤ 100) as Hp.
    { rewrite Hprog. apply progress_after_range. unfold GoInt.len in Hlen. lia. }
    assert (written_ok codes
              (job_with cur "failed" (Progress cur) (ResultURLs cur)
                 (Some {| Code := "storage_failed"; Message := err |}) t)) as Hok.
    { split; [done|]. right; right; left. cbn. unfold has_code. cbn. eauto 10. }
    split; [|split; [|split; [|split]]].
    + cbn. by constructor.
    + cbn. split; [lia|done].
    + done.
    + done.
    + intros evs1 j evs2 Heq Hj _. split_events Heq. discriminate Hj.
  - assert (0 ≤ i < total) as Hi'.
    { unfold GoInt.len in Hlen. cbn [length] in Hlen. lia. }
    assert (0 ≤ Progress cur < 100) as Hp.
    { rewrite Hprog.
      pose proof (progress_after_bounds total ltac:(lia) total_small i ltac:(lia)).
      pose proof (progress_after_100 total ltac:(lia) total_small i ltac:(lia)). lia. }
    assert (written_ok codes
              (job_with cur "failed" (Progress cur) (ResultURLs cur)
                 (Some {| Code := code; Message := err |}) t)) as Hok.
    { split; [cbn; lia|]. right; right; right. cbn. unfold has_code. cbn.
      repeat split; try done; try lia. eauto 10. }
    split; [|split; [|split; [|split]]].
    + cbn. by constructor.
    + cbn. split; [lia|done].
    + done.
    + done.
    + intros evs1 j evs2 Heq Hj _. split_events Heq. discriminate Hj.
  - assert (0 ≤ Progress cur ≤ 100) as Hp.
    { rewrite Hprog. apply progress_after_range. unfold GoInt.len in Hlen. lia. }
    split; [|split; [|split; [|split]]].
    + cbn. constructor.
    + done.
    + split; [done|]. left. done.
    + done.
    + intros evs1 j evs2 Heq _ _. split_events Heq.
  - assert (0 ≤ i < total) as Hi'.
    { unfold GoInt.len in Hlen. cbn [length] in Hlen. lia. }
    assert (0 < total) as Htotal by lia.
    rewrite (add_1_in_range total total_small i Hi') in *.
    set (r := job_with cur (Status cur) (progress_after total (i + 1))
                (ResultURLs cur) (Error_ cur) t) in *.
    destruct IH as (Hall & Hsorted & Hfinal & Hlast & Hfull); try done; try lia.
    { unfold GoInt.len in *. cbn [length] in Hlen. lia. }
    cbn [writes omap] in *. fold (writes evs).
    pose proof (progress_after_bounds total Htotal total_small (i + 1) ltac:(lia)) as Hb.
    split; [|split; [|split; [|split]]].
    + constructor; [|done]. split; [done|]. left. done.
    + cbn. split; [|done]. rewrite Hprog. apply progress_after_mono; try done; lia.
    + done.
    + done.
    + intros evs1 j evs2 Heq Hj Hp.
      apply split_cons_inv in Heq as [(-> & Heq & ?)|(evs1' & -> & Heq)];
        [discriminate Heq|].
      apply split_cons_inv in Heq as [(-> & Heq & ?)|(evs1'' & -> & Heq)].
      * injection Heq as <-. cbn in Hp.
        apply (progress_after_100 total Htotal total_small (i + 1)) in Hp; [|lia].
        assert (rest = []) as ->; [|done].
        unfold GoInt.len in Hlen. cbn [length] in Hlen. destruct rest; [done|].
        cbn [length] in Hlen. lia.
      * cbn. f_equal. by apply (Hfull evs1'' j evs2).
Qed.

End TraceFacts.

Section Populated.
Variable codes : list string.
Variable total : Z.


End Populated.

(** *** A failure inside the loop *)

Section WorkerTheorems.
Context `{GoRuntime} {W Body : Type} `{World W Body}.
Variable config : Config.

Lemma job_state_id (st : State W) (job : loc) (cur : Job) :
  heap st !! job = Some cur →
  jobs (jobStore st) !! JobID cur = Some job →
  job_state st (world st) job cur [] = st.
Proof.
  intros Hheap Hreg. destruct st as [w h n [js] tr]. unfold job_state. cbn in *.
  by rewrite !insert_id, app_nil_r.
Qed.

Lemma stored_job_state (st : State W) w (job : loc) (j : Job) evs :
  stored (job_state st w job j evs) (JobID j) = Some j.
Proof. unfold stored. cbn. rewrite lookup_insert_eq. cbn. by rewrite lookup_insert_eq. Qed.

Lemma abort_on_failure_state
    (embed : EmbedRequest → M W (option EmbedResponse * option error))
    (after_loop : list EmbedResponse → M W unit)
    (job : loc) (total i : Z) (fileURL : string) (rest : list string)
    (results : list EmbedResponse) (st : State W) (w : W) (cur : Job)
    (evs0 : list event) (code : string) (err : error) :
  (∀ req, world_only (embed req)) →
  file_failure config embed (Model cur) fileURL (job_state st w job cur evs0)
  = Some (code, err) →
  ∃ t w',
    process_files config embed job total i (fileURL :: rest) results after_loop
      (job_state st w job cur evs0)
    = (Returns tt,
       job_state st w' job
         (job_with cur "failed" (Progress cur) (ResultURLs cur)
            (Some {| Code := code; Message := err |}) t)
         (evs0 ++ [EvDownloadFile fileURL;
                   EvUpdateJob (job_with cur "failed" (Progress cur) (ResultURLs cur)
                                  (Some {| Code := code; Message := err |}) t);
                   EvSendCallback (job_with cur "failed" (Progress cur) (ResultURLs cur)
                                     (Some {| Code := code; Message := err |}) t)])).
Proof.
  intros Hembed Hfail.
  unfold file_failure in Hfail. cbn [process_files]. unfold mbind, M_bind, bind.
  destruct (downloadFile_job_state st job fileURL w cur evs0) as (d & w1 & Hd).
  rewrite Hd in Hfail |- *.
  assert (Hend : ∀ c e w0,
            (c, e) = (code, err) →
            ∃ t w',
              fail_job job c e (job_state st w0 job cur (evs0 ++ [EvDownloadFile fileURL]))
              = (Returns tt,
                 job_state st w' job
                   (job_with cur "failed" (Progress cur) (ResultURLs cur)
                      (Some {| Code := code; Message := err |}) t)
                   (evs0 ++ [EvDownloadFile fileURL;
                      EvUpdateJob (job_with cur "failed" (Progress cur) (ResultURLs cur)
                                     (Some {| Code := code; Message := err |}) t);
                      EvSendCallback (job_with cur "failed" (Progress cur) (ResultURLs cur)
                                        (Some {| Code := code; Message := err |}) t)]))).
  { intros c e w0 [= -> ->].
    destruct (fail_job_job_state st job code err w0 cur (evs0 ++ [EvDownloadFile fileURL]))
      as (t & w2 & Hf). cbn zeta in Hf. rewrite Hf.
    exists t, w2. by rewrite <- app_assoc. }
  destruct d as [[content filename]|e]; [|by apply Hend; injection Hfail as <- <-].
  destruct (ExtractTextFromFile filename content) as [text|e];
    [|by apply Hend; injection Hfail as <- <-].
  rewrite load_job_state.
  set (req := {| Req_Model := _; Inputs := _; TruncateStrategy := _;
                 ChunkSize := _; Normalize := _ |}) in *.
  destruct (world_only_job_state st job (embed req) w1 cur
              (evs0 ++ [EvDownloadFile fileURL]) (Hembed req)) as (o & w2 & He).
  rewrite He in Hfail |- *.
  destruct o as [[resp [e|]]| |]; try discriminate Hfail.
  by apply Hend; injection Hfail as <- <-.
Qed.

(** C2.  Whenever the loop of [processJob] is at a file for which
    acquisition, extraction or embedding fails, whatever the index, the
    files left, the results accumulated and the rest of the function,
    [processJob] sets the status to [failed] with the error code
    [download_failed], [extraction_failed] or [embedding_failed]
    respectively, writes the record back to the registry, invokes the
    callback dispatcher once and returns: it starts on no other file
    and persists no result. *)
Theorem failure_aborts_job
    (embed : EmbedRequest → M W (option EmbedResponse * option error))
    (after_loop : list EmbedResponse → M W unit)
    (job : loc) (total i : Z) (fileURL : string) (rest : list string)
    (results : list EmbedResponse) (st : State W) (cur : Job)
    (code : string) (err : error)
    (Hembed : ∀ req, world_only (embed req))
    (Hheap : heap st !! job = Some cur)
    (Hreg : jobs (jobStore st) !! JobID cur = Some job)
    (Hfail : file_failure config embed (Model cur) fileURL st = Some (code, err)) :
  ∃ (st' : State W) (t : Z),
    let failed := job_with cur "failed" (Progress cur) (ResultURLs cur)
                    (Some {| Code := code; Message := err |}) t in
    process_files config embed job total i (fileURL :: rest) results after_loop st
    = (Returns tt, st')
    ∧ stored st' (JobID cur) = Some failed
    ∧ trace st' = trace st ++ [EvDownloadFile fileURL; EvUpdateJob failed;
                               EvSendCallback failed].
Proof.
  pose proof (abort_on_failure_state embed after_loop job total i fileURL rest
                results st (world st) cur [] code err Hembed) as Haux.
  rewrite (job_state_id st job cur Hheap Hreg) in Haux.
  destruct (Haux Hfail) as (t & w' & Hrun).
  eexists _, t. cbn zeta. split; [exact Hrun|]. split.
  - apply (stored_job_state st w' job (job_with cur "failed" _ _ _ t)).
  - done.
Qed.

End WorkerTheorems.

Lemma loop_trace_no_code codes total i cur files evs o final code :
  loop_trace codes total i cur files evs o final →
  code ∉ codes → code ≠ "storage_failed" →
  ¬ has_code code cur →
  (∀ e j, e ∈ evs → event_job e = Some j → ¬ has_code code j)
  ∧ ¬ has_code code final.
Proof.
  intros Htr Hcodes Hstorage.
  assert (Hnew : ∀ cur c err t p urls,
            c ≠ code →
            ¬ has_code code (job_with cur "failed" p urls
                               (Some {| Code := c; Message := err |}) t)).
  { intros ? c ? ? ? ? Hc (e & [= <-] & Hcode). by cbn in Hcode. }
  induction Htr as [i cur path results t|i cur err results t
                   |i cur fileURL rest c err t Hc|i cur fileURL rest o Ho
                   |i cur fileURL rest t evs o final Htr IH]; intros Hcur.
  - split; [|done].
    intros e j He Hj. repeat (apply elem_of_cons in He as [->|He]);
      [discriminate Hj|injection Hj as <-..|by apply elem_of_nil in He]; done.
  - split; [|by apply Hnew].
    intros e j He Hj. repeat (apply elem_of_cons in He as [->|He]);
      [discriminate Hj|injection Hj as <-..|by apply elem_of_nil in He];
      by apply Hnew.
  - assert (c ≠ code) by (intros ->; done).
    split; [|by apply Hnew].
    intros e j He Hj. repeat (apply elem_of_cons in He as [->|He]);
      [discriminate Hj|injection Hj as <-..|by apply elem_of_nil in He];
      by apply Hnew.
  - split; [|done].
    intros e j He Hj. apply elem_of_cons in He as [->|He];
      [discriminate Hj|by apply elem_of_nil in He].
  - destruct IH as [IHevs IHfinal]; [done|]. split; [|done].
    intros e j He Hj. apply elem_of_cons in He as [->|He]; [discriminate Hj|].
    apply elem_of_cons in He as [->|He]; [by injection Hj as <-|]. by eapply IHevs.
Qed.

(** *** Runs of [processJob] with the embedding service of the program *)

Section ProcessJobFacts.
Context `{GoRuntime} {W Body : Type} `{World W Body}.
Variable config : Config.

Lemma GenerateEmbeddings_error_absurd req (st st' : State W) resp err :
  GenerateEmbeddings config req st = (Returns (resp, Some err), st') → False.
Proof.
  intros Hrun. pose proof (GenerateEmbeddings_no_error config req st) as Hno.
  rewrite Hrun in Hno. by destruct Hno.
Qed.

Lemma processJob_trace workerID jobID (st : State W) job j0 :
  jobs (jobStore st) !! jobID = Some job →
  heap st !! job = Some j0 →
  ∃ w evs o final,
    processJob config workerID jobID st = (o, job_state st w job final evs)
    ∧ job_trace stage_codes j0 evs o final.
Proof.
  intros Hjob Hj0. unfold processJob.
  apply (processJobWith_trace config (GenerateEmbeddings config)
           (GenerateEmbeddings_world_only config) stage_codes); try done.
  - unfold stage_codes. apply elem_of_cons. by left.
  - unfold stage_codes. apply elem_of_cons. right. apply elem_of_cons. by left.
  - intros ????? Habs. by destruct (GenerateEmbeddings_error_absurd _ _ _ _ _ Habs).
Qed.

(** A run of [processJob] that finds no job, or a pointer to nothing. *)
Lemma processJob_no_job workerID jobID (st : State W) :
  (jobs (jobStore st) !! jobID = None
   ∨ ∃ job, jobs (jobStore st) !! jobID = Some job ∧ heap st !! job = None) →
  (processJob config workerID jobID st).2 = st.
Proof.
  unfold processJob, processJobWith, mbind, M_bind, bind, GetJob.
  intros [->|(job & -> & Hnone)]; [done|].
  unfold assign at 1. by rewrite Hnone.
Qed.

Lemma CreateJob_eq files model callbackURL (st : State W) :
  ∃ id created updated w,
    let j0 := {| JobID := id; Status := "queued"; Progress := 0; Files := files;
                 Model := model; ResultURLs := []; Error_ := None;
                 CreatedAt := created; UpdatedAt := updated;
                 CallbackURL := callbackURL |} in
    CreateJob files model callbackURL st
    = (Returns (next_loc st),
       {| world := w; heap := <[next_loc st := j0]> (heap st);
          next_loc := Pos.succ (next_loc st);
          jobStore := {| jobs := <[id := next_loc st]> (jobs (jobStore st)) |};
          trace := trace st ++ [EvCreateJob j0] |}).
Proof.
  unfold CreateJob, mbind, M_bind, bind, call.
  destruct (uuid_New_String (world st)) as [id w1]. cbn.
  destruct (time_Now_Unix w1) as [created w2]. cbn.
  destruct (time_Now_Unix w2) as [updated w3]. cbn.
  exists id, created, updated, w3. cbn zeta.
  unfold load. cbn. rewrite lookup_insert_eq. by cbn.
Qed.

Lemma processJob_no_code code workerID jobID (st : State W) :
  code ∉ stage_codes → code ≠ "storage_failed" →
  no_code code st → no_code code (processJob config workerID jobID st).2.
Proof.
  intros Hc Hs [Hheap Htrace].
  destruct (jobs (jobStore st) !! jobID) as [job|] eqn:Hjob.
  2:{ rewrite processJob_no_job by (by left). done. }
  destruct (heap st !! job) as [j0|] eqn:Hj0.
  2:{ rewrite processJob_no_job by (right; eauto). done. }
  destruct (processJob_trace workerID jobID st job j0 Hjob Hj0)
    as (w & evs & o & final & -> & t & evs' & -> & Htr).
  assert (¬ has_code code (job_with j0 "running" 0 (ResultURLs j0) (Error_ j0) t)) as Hr0.
  { intros (e & He & Hcode). cbn in He. apply (Hheap job j0 Hj0). by exists e. }
  destruct (loop_trace_no_code _ _ _ _ _ _ _ _ code Htr Hc Hs Hr0) as [Hevs Hfinal].
  split; cbn.
  - intros p j Hp. destruct (decide (p = job)) as [->|Hne].
    + rewrite lookup_insert_eq in Hp. by injection Hp as <-.
    + rewrite lookup_insert_ne in Hp by done. by eapply Hheap.
  - intros e j He Hj. apply elem_of_app in He as [He|He]; [by eapply Htrace|].
    apply elem_of_cons in He as [->|He]; [by injection Hj as <-|]. by eapply Hevs.
Qed.

Lemma reachable_no_code code (st : State W) :
  code ∉ stage_codes → code ≠ "storage_failed" →
  reachable config st → no_code code st.
Proof.
  intros Hc Hs. induction 1 as [w|st files model cb _ [Hheap Htrace]
                               |st workerID jobID _ IH|st w _ IH].
  - split; cbn.
    + intros p j Hp. by rewrite lookup_empty in Hp.
    + intros e j He. by apply elem_of_nil in He.
  - destruct (CreateJob_eq files model cb st) as (id & c & u & w & Heq).
    cbn zeta in Heq. rewrite Heq. split; cbn.
    + intros p j Hp. destruct (decide (p = next_loc st)) as [->|Hne].
      * rewrite lookup_insert_eq in Hp. injection Hp as <-.
        by intros (e & [=] & _).
      * rewrite lookup_insert_ne in Hp by done. by eapply Hheap.
    + intros e j He Hj. apply elem_of_app in He as [He|He]; [by eapply Htrace|].
      apply elem_of_cons in He as [->|He]; [|by apply elem_of_nil in He].
      injection Hj as <-. by intros (e & [=] & _).
  - by apply processJob_no_code.
  - done.
Qed.

End ProcessJobFacts.

Section ClaimTheorems.
Context `{GoRuntime} {W Body : Type} `{World W Body}.
Variable config : Config.

Lemma stored_after_run (st : State W) w (job : loc) (final : Job) evs jobID :
  jobs (jobStore st) !! jobID = Some job →
  stored (job_state st w job final evs) jobID = Some final.
Proof.
  intros Hjob. unfold stored. cbn.
  assert ((<[JobID final := job]> (jobs (jobStore st))) !! jobID = Some job) as ->.
  { destruct (decide (JobID final = jobID)) as [->|Hne].
    - apply lookup_insert_eq.
    - by rewrite lookup_insert_ne. }
  cbn. apply lookup_insert_eq.
Qed.

(** The first run of [processJob] on a job as [CreateJob] made it. *)
Lemma processJob_first_run workerID jobID (st : State W) j0 :
  stored st jobID = Some j0 → as_created j0 →
  GoInt.len (Files j0) * 100 ≤ GoInt.max_int →
  ∃ o st' evs final,
    processJob config workerID jobID st = (o, st')
    ∧ trace st' = trace st ++ evs
    ∧ stored st' jobID = Some final
    ∧ written_ok stage_codes final
    ∧ Forall (written_ok stage_codes) (writes evs)
    ∧ non_decreasing_from (Progress j0) (Progress <$> writes evs)
    ∧ (∀ evs1 j evs2, evs = evs1 ++ EvUpdateJob j :: evs2 →
         Status j = "running" → Progress j = 100 → downloads evs1 = Files j0).
Proof.
  intros Hstored (Hq & Hp & Hu & He) Hfiles. unfold stored in Hstored.
  destruct (jobs (jobStore st) !! jobID) as [job|] eqn:Hjob; [|done].
  cbn in Hstored.
  destruct (processJob_trace config workerID jobID st job j0 Hjob Hstored)
    as (w & evs & o & final & Hrun & t & evs' & -> & Htr).
  set (r0 := job_with j0 "running" 0 (ResultURLs j0) (Error_ j0) t) in *.
  destruct (loop_trace_written stage_codes (GoInt.len (Files j0)) Hfiles
              0 r0 (Files j0) evs' o final Htr) as (Hall & Hsorted & Hfinal & _ & Hfull);
    try done; try lia.
  assert (written_ok stage_codes r0) as Hr0.
  { split; [cbn; lia|]. left. done. }
  eexists o, _, _, final. split; [exact Hrun|]. split; [done|].
  split; [|split; [done|split; [|split]]].
  - by apply stored_after_run.
  - cbn. by constructor.
  - cbn. rewrite Hp. done.
  - intros evs1 j evs2 Heq Hj Hp100.
    apply split_cons_inv in Heq as [(-> & Heq & ?)|(evs1' & -> & Heq)].
    + injection Heq as <-. cbn in Hp100. lia.
    + cbn. by apply (Hfull evs1' j evs2).
Qed.


(** C1, as the code has it.  Over the first run of [processJob] on a
    job, the progress values written to the registry never decrease and
    stay within 0 and 100; no record written is [queued]; a record
    written as [completed] has progress 100; a record with progress 100
    is [completed], or [running], or [failed] with the code
    [storage_failed]; and a [running] record with progress 100 is
    written only once the worker has started on every file of the job. *)
Theorem progress_non_decreasing (workerID : Z) (jobID : string) (st : State W)
    (j0 : Job)
    (Hstored : stored st jobID = Some j0)
    (Hcreated : as_created j0)
    (Hfiles : GoInt.len (Files j0) * 100 ≤ GoInt.max_int) :
  ∃ evs,
    trace (processJob config workerID jobID st).2 = trace st ++ evs
    ∧ non_decreasing_from (Progress j0) (Progress <$> writes evs)
    ∧ (∀ j, j ∈ writes evs →
         0 ≤ Progress j ≤ 100
         ∧ Status j ≠ "queued"
         ∧ (Status j = "completed" → Progress j = 100)
         ∧ (Progress j = 100 →
            Status j = "completed" ∨ Status j = "running"
            ∨ (Status j = "failed" ∧ has_code "storage_failed" j)))
    ∧ (∀ evs1 j evs2, evs = evs1 ++ EvUpdateJob j :: evs2 →
         Status j = "running" → Progress j = 100 → downloads evs1 = Files j0).
Proof.
  destruct (processJob_first_run workerID jobID st j0 Hstored Hcreated Hfiles)
    as (o & st' & evs & final & Hrun & Htrace & _ & _ & Hall & Hsorted & Hfull).
  exists evs. rewrite Hrun. split; [done|]. split; [done|]. split; [|done].
  intros j Hj. rewrite Forall_forall in Hall. specialize (Hall j Hj).
  destruct Hall as (Hrange & [(Hs & _)|[(Hs & Hp & _)
                   |[(Hs & _ & Hcode)|(Hs & _ & Hlt & _)]]]);
    rewrite Hs; repeat split; try done; try lia; eauto.
Qed.


(** C10.  [GenerateEmbeddings] never returns an error or a nil
    response, and it does return for a valid request; so in no state
    that the process reaches does a job record, on the heap, written to
    the registry or handed to the callback dispatcher, have the error
    code [embedding_failed]. *)
Theorem embedding_failed_unreachable :
  (∀ (req : EmbedRequest) (st : State W),
     match (GenerateEmbeddings config req st).1 with
     | Returns (resp, err) => is_Some resp ∧ err = None
     | _ => True
     end)
  ∧ (∀ (req : EmbedRequest) (st : State W),
       valid_request config req →
       ∃ resp st', GenerateEmbeddings config req st = (Returns (Some resp, None), st'))
  ∧ (∀ st : State W, reachable config st → no_code "embedding_failed" st).
Proof.
  split; [|split].
  - apply GenerateEmbeddings_no_error.
  - intros req st Hvalid.
    destruct (GenerateEmbeddings_returns config req st Hvalid) as (rs & w & Hrun & _).
    by eauto.
  - intros st. apply reachable_no_code; [|done].
    unfold stage_codes. intros Hin.
    repeat (apply elem_of_cons in Hin as [Hin|Hin]; [discriminate Hin|]).
    by apply elem_of_nil in Hin.
Qed.

End ClaimTheorems.

(** ** The results of the pipeline *)

Section VectorTheorems.
Context `{GoRuntime} {W Body : Type} `{World W Body}.
Variable config : Config.

(** C6, as the code has it.  With a configured dimension that is not
    negative, [generateEmbedding] returns a vector.  Its length is the
    configured dimension when the provider is not "ollama" and when the
    call to the Ollama backend fails; when that call succeeds, the
    vector is the one the backend returned, normalised if asked, and
    has the length of that vector. *)
Theorem generateEmbedding_length (text : string) (normalize : bool) (st : State W)
    (Hdim : 0 ≤ EmbeddingDimension config) :
  ∃ (v : slice float32) (st' : State W),
    generateEmbedding config text normalize st = (Returns v, st')
    ∧ (EmbeddingProvider config ≠ "ollama" →
       GoInt.len (elems v) = EmbeddingDimension config)
    ∧ (∀ err st1, ollamaEmbedding config text st = (Returns (RErr err), st1) →
       GoInt.len (elems v) = EmbeddingDimension config)
    ∧ (∀ emb st1, EmbeddingProvider config = "ollama" →
       ollamaEmbedding config text st = (Returns (ROk emb), st1) →
       v = (if normalize then normalizeL2 emb else emb)
       ∧ GoInt.len (elems v) = GoInt.len (elems emb)).
Proof.
  destruct (generateEmbedding_cases config text normalize st Hdim)
    as (v & w & Hrun & [(l & -> & Hlen & Hfallback)|(Hp & emb & st1 & Hollama & ->)]).
  - exists (Some l), (set_world w st). split; [done|]. split; [done|]. split; [done|].
    intros emb st1 Hp Hok. destruct (Hfallback Hp) as (err & st2 & Herr).
    rewrite Hok in Herr. discriminate Herr.
  - eexists _, (set_world w st). split; [done|]. split; [done|]. split.
    + intros err st2 Herr. rewrite Hollama in Herr. discriminate Herr.
    + intros emb' st2 _ Hok. rewrite Hollama in Hok. injection Hok as <- <-.
      split; [done|]. destruct normalize; [|done].
      unfold GoInt.len. by rewrite normalizeL2_elems_length.
Qed.

(** C7, as the code has it.  For a valid request [GenerateEmbeddings]
    returns one result per input, in the order of the inputs, with the
    identifier of its input.  When the input is no longer than the
    effective chunk size, [Chunks] is nil and [Embeddings] is the vector
    that [generateEmbedding] returned for the text; otherwise
    [Embeddings] is nil and [Chunks] holds the records of the chunks of
    [chunkText], in order.  The two are never both present, and exactly
    one is unless the Ollama backend answered with a nil vector. *)
Theorem GenerateEmbeddings_payload (req : EmbedRequest) (st : State W)
    (Hvalid : valid_request config req) :
  ∃ (results : list EmbedResult) (st' : State W),
    GenerateEmbeddings config req st
    = (Returns (Some {| Results := results |}, None), st')
    ∧ Forall2 (λ input result,
                 result_for (W := W) config (Normalize req)
                   (effective_chunkSize config req)
                   (effective_truncateStrategy req) input result
                 ∧ (Embeddings result = None ∨ Chunks result = None)
                 ∧ (exactly_one_payload result
                    ∨ (EmbeddingProvider config = "ollama"
                       ∧ ∃ st1 st2 : State W,
                           ollamaEmbedding config (InputItem_Text input) st1
                           = (Returns (ROk None), st2))))
              (Inputs req) results.
Proof.
  destruct (GenerateEmbeddings_returns config req st Hvalid) as (rs & w & Hrun & Hrs).
  exists rs, (set_world w st). split; [done|].
  eapply Forall2_impl; [exact Hrs|]. intros input result Hfor. split; [done|].
  destruct Hfor as [_ Hfor]. unfold exactly_one_payload.
  destruct (_ <=? _).
  - destruct Hfor as (Hchunks & _ & Hnil). split; [by right|].
    destruct (Embeddings result) as [v|] eqn:Hv; [left; left; eauto|].
    right. by apply Hnil.
  - destruct Hfor as (Hemb & chunks & cs & _ & Hcs & _). split; [by left|].
    left. right. split; [done|]. rewrite Hcs. eauto.
Qed.

End VectorTheorems.

(** ** The job queue *)

Section QueueFacts.
Import JobQueue.

Lemma send_bounded jobID q :
  bounded q →
  bounded (send jobID q).1
  ∧ buf (send jobID q).1 ++ parked (send jobID q).1 = buf q ++ parked q ++ [jobID].
Proof.
  intros [Hcap Hparked]. unfold send, bounded.
  destruct (Nat.ltb_spec (length (buf q)) capacity) as [Hlt|Hge]; cbn.
  - assert (parked q = []) as Hnil.
    { destruct (parked q) as [|v l]; [done|]. specialize (Hparked ltac:(done)). lia. }
    rewrite Hnil. split; [|by rewrite app_nil_r].
    split; [rewrite length_app; cbn; lia|done].
  - split; [|by rewrite app_assoc].
    split; [done|]. intros _. lia.
Qed.

Lemma receive_bounded q :
  bounded q →
  bounded (receive q).1
  ∧ buf q ++ parked q
    = option_list (receive q).2 ++ buf (receive q).1 ++ parked (receive q).1.
Proof.
  intros [Hcap Hparked]. unfold receive, bounded.
  destruct (buf q) as [|jobID rest] eqn:Hbuf; [by cbn; rewrite Hbuf|].
  destruct (parked q) as [|v waiting] eqn:Hp; cbn.
  - split; [|done]. split; [cbn in Hcap; lia|done].
  - specialize (Hparked ltac:(done)). cbn in Hparked.
    split; [|by rewrite <- app_assoc].
    split; [rewrite length_app; cbn; lia|].
    intros _. rewrite length_app. cbn. lia.
Qed.

Lemma run_bounded ops : ∀ q,
  bounded q →
  bounded (run ops q).1
  ∧ buf q ++ parked q ++ submitted ops
    = delivered (run ops q).2 ++ buf (run ops q).1 ++ parked (run ops q).1.
Proof.
  induction ops as [|o ops IH]; intros q Hq.
  - cbn. by rewrite app_nil_r.
  - cbn [run]. destruct o as [jobID|workerID]; cbn [step].
    + destruct (send_bounded jobID q Hq) as [Hq1 Heq1].
      destruct (send jobID q) as [q1 done] eqn:Hsend. cbn [fst] in *.
      destruct (IH q1 Hq1) as [Hq2 Heq2].
      destruct (run ops q1) as [q2 es] eqn:Hrun. cbn [fst snd] in *.
      split; [done|].
      assert (delivered ((if done then Enqueued jobID else Blocked jobID) :: es)
              = delivered es) as -> by (by destruct done).
      rewrite <- Heq2.
      change (submitted (EnqueueJob jobID :: ops)) with (jobID :: submitted ops).
      rewrite (app_assoc (buf q1)), Heq1, <- !app_assoc. done.
    + destruct (receive_bounded q Hq) as [Hq1 Heq1].
      destruct (receive q) as [q1 v] eqn:Hrecv. cbn [fst snd] in *.
      destruct (IH q1 Hq1) as [Hq2 Heq2].
      destruct (run ops q1) as [q2 es] eqn:Hrun. cbn [fst snd] in *.
      split; [done|].
      change (submitted (Receive workerID :: ops)) with (submitted ops).
      rewrite (app_assoc (buf q)), Heq1, <- !app_assoc, Heq2.
      by destruct v as [jobID|].
Qed.

(** C9.  After any sequence of enqueue and dequeue operations on the
    job queue, the identifiers submitted are, in order, those delivered
    to executors, then those in the buffer, then those of the parked
    submitters: none is dropped and none is delivered twice.  The
    buffer holds at most 100 identifiers; an enqueue on a full buffer
    does not complete and parks the submitter, an enqueue on a buffer
    with room completes at once, and the dequeue that follows a parked
    submitter moves its identifier into the buffer. *)
Theorem jobQueue_backpressure (ops : list op) :
  let q := (run ops NewWorker_jobQueue).1 in
  let es := (run ops NewWorker_jobQueue).2 in
  submitted ops = delivered es ++ buf q ++ parked q
  ∧ (length (buf q) ≤ capacity)%nat
  ∧ (parked q ≠ [] → length (buf q) = capacity)
  ∧ (∀ jobID, length (buf q) = capacity →
       send jobID q = ({| buf := buf q; parked := parked q ++ [jobID] |}, false))
  ∧ (∀ jobID, (length (buf q) < capacity)%nat →
       send jobID q = ({| buf := buf q ++ [jobID]; parked := [] |}, true))
  ∧ (∀ jobID waiting, parked q = jobID :: waiting →
       ∃ head rest, buf q = head :: rest
         ∧ receive q = ({| buf := rest ++ [jobID]; parked := waiting |}, Some head)).
Proof.
  cbn zeta.
  destruct (run_bounded ops NewWorker_jobQueue) as [[Hcap Hparked] Heq].
  { split; [cbn; lia|done]. }
  cbn [NewWorker_jobQueue buf parked app] in Heq.
  split; [done|]. split; [done|]. split; [done|]. split; [|split].
  - intros jobID Hfull. unfold send.
    destruct (Nat.ltb_spec (length (buf (run ops NewWorker_jobQueue).1)) capacity);
      [lia|done].
  - intros jobID Hroom. unfold send.
    destruct (Nat.ltb_spec (length (buf (run ops NewWorker_jobQueue).1)) capacity);
      [|lia].
    destruct (parked (run ops NewWorker_jobQueue).1) as [|v l]; [done|].
    specialize (Hparked ltac:(done)). lia.
  - intros jobID waiting Hp. rewrite Hp in Hparked. specialize (Hparked ltac:(done)).
    unfold receive. rewrite Hp.
    destruct (buf (run ops NewWorker_jobQueue).1) as [|head rest]; [done|]. eauto.
Qed.

End QueueFacts.

(** ** The pipeline without a remote backend *)

Section EffectFree.
Context {W : Type}.

Lemma effect_free_ret {A} (a : A) : effect_free (mret a : M W A).
Proof. by exists (Returns a). Qed.

Lemma effect_free_run {A} (o : outcome A) : effect_free (run o : M W A).
Proof. by exists o. Qed.

Lemma effect_free_bind {A B} (m : M W A) (k : A → M W B) :
  effect_free m → (∀ a, effect_free (k a)) → effect_free (m ≫= k).
Proof.
  intros [o Hm] Hk. unfold mbind, M_bind, bind. destruct o as [a| |].
  - destruct (Hk a) as [o' Hk']. exists o'. intros st. by rewrite Hm, Hk'.
  - exists Panics. intros st. by rewrite Hm.
  - exists Diverges. intros st. by rewrite Hm.
Qed.

End EffectFree.

Section LocalProvider.
Context `{GoRuntime} {W Body : Type} `{World W Body}.
Variable config : Config.
Hypothesis provider_local : EmbeddingProvider config ≠ "ollama".

Lemma generateEmbedding_local text normalize :
  generateEmbedding (W := W) config text normalize
  = run (mockEmbedding text (EmbeddingDimension config) normalize).
Proof.
  unfold generateEmbedding. apply String.eqb_neq in provider_local.
  rewrite provider_local. by destruct (String.eqb _ "openai").
Qed.

Lemma embed_chunks_effect_free normalize chunks : ∀ acc,
  effect_free (embed_chunks (W := W) config normalize chunks acc).
Proof.
  induction chunks as [|c chunks IH]; intros acc; cbn [embed_chunks].
  - apply effect_free_ret.
  - rewrite generateEmbedding_local.
    apply effect_free_bind; [apply effect_free_run|intros ?].
    apply effect_free_bind; [apply effect_free_run|intros ?]. apply IH.
Qed.

Lemma embed_input_effect_free normalize chunkSize strategy input :
  effect_free (embed_input (W := W) config normalize chunkSize strategy input).
Proof.
  unfold embed_input. destruct (_ <=? _).
  - rewrite generateEmbedding_local.
    apply effect_free_bind; [apply effect_free_run|intros ?]. apply effect_free_ret.
  - apply effect_free_bind; [apply effect_free_run|intros ?].
    apply effect_free_bind; [apply embed_chunks_effect_free|intros ?].
    apply effect_free_ret.
Qed.

Lemma embed_inputs_effect_free normalize chunkSize strategy inputs : ∀ results,
  effect_free (embed_inputs (W := W) config normalize chunkSize strategy inputs results).
Proof.
  induction inputs as [|input inputs IH]; intros results; cbn [embed_inputs].
  - apply effect_free_ret.
  - apply effect_free_bind; [apply embed_input_effect_free|intros ?]. apply IH.
Qed.

End LocalProvider.

Section LocalProviderTheorem.
Context `{GoRuntime} {W Body : Type} `{World W Body}.
Variable config : Config.

(** X1.  With a provider other than "ollama" ("mock", "openai" or any
    other name) [GenerateEmbeddings] touches nothing outside the
    process and its response is the same in every state: the same
    request always gets the same vectors. *)
Theorem GenerateEmbeddings_local_provider (req : EmbedRequest)
    (Hprovider : EmbeddingProvider config ≠ "ollama") :
  ∃ o, ∀ st : State W, GenerateEmbeddings config req st = (o, st).
Proof.
  unfold GenerateEmbeddings.
  apply (effect_free_bind (W := W)); [by apply embed_inputs_effect_free|intros ?].
  apply effect_free_ret.
Qed.

End LocalProviderTheorem.

(** ** The chunks of a response *)

Section ChunkFacts.
Context `{GoRuntime}.

Lemma chunkText_truncate docID text chunkSize :
  0 ≤ chunkSize →
  chunkText docID text chunkSize "truncate"
  = Returns [ {| ChunkID := docID +:+ "_0";
                 Text := string_of_runes
                           (take (Z.to_nat (Z.min chunkSize (utf8_RuneCountInString text)))
                                 (runes_of text));
                 Start := 0;
                 End_ := Z.min chunkSize (utf8_RuneCountInString text) |} ].
Proof.
  intros Hcs. unfold chunkText, utf8_RuneCountInString.
  cbn [String.eqb Ascii.eqb Bool.eqb].
  pose proof (len_nonneg (runes_of text)) as HL.
  set (L := GoInt.len (runes_of text)) in *.
  assert ((if chunkSize >? L then L else chunkSize) = Z.min chunkSize L) as ->.
  { destruct (Z.gtb_spec chunkSize L); lia. }
  unfold slice_range. fold L.
  destruct (Z.leb_spec 0 (Z.min chunkSize L)); [|lia].
  destruct (Z.leb_spec (Z.min chunkSize L) L); [|lia].
  cbn. by rewrite Z.sub_0_r.
Qed.

Lemma chunkText_within docID text chunkSize strategy chunks :
  0 < chunkSize ≤ GoInt.max_int →
  chunkSize < utf8_RuneCountInString text < max_text_len →
  chunkText docID text chunkSize strategy = Returns chunks →
  Forall (λ tc, 0 ≤ Start tc < End_ tc
                ∧ End_ tc ≤ utf8_RuneCountInString text
                ∧ End_ tc - Start tc ≤ chunkSize) chunks.
Proof.
  intros [Hpos Hint] [Hlong Hlen] Hrun.
  destruct (String.eqb_spec strategy "truncate") as [->|Hs].
  - rewrite chunkText_truncate in Hrun by lia. injection Hrun as <-.
    constructor; [|constructor]. cbn. lia.
  - rewrite chunkText_not_truncate in Hrun by done.
    rewrite (chunkText_split_eq docID (runes_of text) chunkSize Hpos Hint Hlen text eq_refl)
      in Hrun.
    injection Hrun as <-. apply Forall_forall. intros tc Htc.
    apply list_elem_of_fmap in Htc as (k & -> & Hk).
    apply elem_of_seq in Hk as [_ Hk]. cbn [split_chunk Start End_].
    unfold utf8_RuneCountInString in *.
    set (L := GoInt.len (runes_of text)) in *.
    assert (Z.of_nat k < ceil_div L chunkSize) as Hlt.
    { pose proof (ceil_div_nonneg L chunkSize ltac:(lia) Hpos). lia. }
    apply lt_ceil_div in Hlt; [|done]. lia.
Qed.

End ChunkFacts.

Section PipelineShape.
Context `{GoRuntime} {W Body : Type} `{World W Body}.
Variable config : Config.

Lemma effective_chunkSize_le_max req :
  effective_chunkSize config req ≤ MaxChunkSize config.
Proof.
  unfold effective_chunkSize.
  set (chunkSize := if ChunkSize req <=? 0 then _ else _).
  destruct (Z.gtb_spec chunkSize (MaxChunkSize config)); lia.
Qed.

Lemma result_for_within normalize chunkSize strategy input result :
  0 < chunkSize ≤ GoInt.max_int →
  utf8_RuneCountInString (InputItem_Text input) < max_text_len →
  result_for (W := W) config normalize chunkSize strategy input result →
  Forall (chunk_within (utf8_RuneCountInString (InputItem_Text input)) chunkSize)
         (elems (Chunks result)).
Proof.
  intros Hcs Hlen [_ Hfor].
  destruct (Z.leb_spec (utf8_RuneCountInString (InputItem_Text input)) chunkSize)
    as [|Hlong].
  - destruct Hfor as (-> & _). constructor.
  - destruct Hfor as (_ & chunks & cs & Hrun & -> & Hcs'). cbn.
    pose proof (chunkText_within _ _ _ _ _ Hcs (conj Hlong Hlen) Hrun) as Hall.
    clear Hrun. induction Hcs' as [|tc c chunks cs (_ & Hs & He) _ IH]; [constructor|].
    apply Forall_cons in Hall as [Htc Hall]. constructor; [|by apply IH].
    unfold chunk_within. rewrite Hs, He. done.
Qed.

Lemma results_within normalize chunkSize strategy inputs results :
  0 < chunkSize ≤ GoInt.max_int →
  Forall (λ input, utf8_RuneCountInString (InputItem_Text input) < max_text_len) inputs →
  Forall2 (result_for (W := W) config normalize chunkSize strategy) inputs results →
  Forall2 (λ input result,
             Forall (chunk_within (utf8_RuneCountInString (InputItem_Text input))
                       chunkSize)
                    (elems (Chunks result)))
          inputs results.
Proof.
  intros Hcs Hlen Hrs. induction Hrs as [|input result inputs results Hr _ IH];
    [constructor|].
  apply Forall_cons in Hlen as [Hlen1 Hlen]. constructor; [|by apply IH].
  by eapply result_for_within.
Qed.

(** X2.  For a valid request, whatever the strategy, every chunk record
    of a response lies within the text of its input, is not empty, and
    spans at most the effective chunk size, which is at most the
    configured maximum. *)
Theorem GenerateEmbeddings_chunks_within (req : EmbedRequest) (st : State W)
    (Hvalid : valid_request config req) :
  ∃ (results : list EmbedResult) (st' : State W),
    GenerateEmbeddings config req st
    = (Returns (Some {| Results := results |}, None), st')
    ∧ effective_chunkSize config req ≤ MaxChunkSize config
    ∧ Forall2 (λ input result,
                 Forall (chunk_within (utf8_RuneCountInString (InputItem_Text input))
                           (effective_chunkSize config req))
                        (elems (Chunks result)))
              (Inputs req) results.
Proof.
  destruct (GenerateEmbeddings_returns config req st Hvalid) as (rs & w & Hrun & Hrs).
  destruct Hvalid as (_ & Hcs & Hlen).
  exists rs, (set_world w st). split; [done|].
  split; [apply effective_chunkSize_le_max|].
  by eapply results_within.
Qed.

Lemma embed_input_truncate normalize chunkSize input (st : State W) :
  0 ≤ EmbeddingDimension config →
  0 < chunkSize →
  chunkSize < utf8_RuneCountInString (InputItem_Text input) →
  ∃ result w,
    embed_input config normalize chunkSize "truncate" input st
    = (Returns result, set_world w st)
    ∧ first_chunk_result (W := W) config normalize chunkSize input result.
Proof.
  intros Hdim Hpos Hlong. unfold embed_input.
  destruct (Z.leb_spec (utf8_RuneCountInString (InputItem_Text input)) chunkSize); [lia|].
  unfold mbind, M_bind, bind, run at 1.
  rewrite chunkText_truncate by lia. rewrite Z.min_l by lia.
  cbn [embed_chunks Text ChunkID Start End_].
  set (prefix := string_of_runes _).
  destruct (generateEmbedding_cases config prefix normalize st Hdim)
    as (v & w & Hgen & _).
  destruct (truncateSnippet_returns prefix) as [s Hs].
  unfold mbind, M_bind, bind. rewrite Hgen. unfold run. rewrite Hs. cbn [app].
  eexists _, w. split; [reflexivity|]. unfold first_chunk_result. cbn.
  split; [done|]. split; [done|]. eexists. split; [done|]. cbn.
  fold prefix. rewrite Hs. eauto 10.
Qed.

Lemma embed_inputs_truncate normalize chunkSize inputs : ∀ results (st : State W),
  0 ≤ EmbeddingDimension config →
  0 < chunkSize ≤ GoInt.max_int →
  Forall (λ input, utf8_RuneCountInString (InputItem_Text input) < max_text_len) inputs →
  ∃ rs w,
    embed_inputs config normalize chunkSize "truncate" inputs results st
    = (Returns (results ++ rs), set_world w st)
    ∧ Forall2 (λ input result,
                 chunkSize < utf8_RuneCountInString (InputItem_Text input) →
                 first_chunk_result (W := W) config normalize chunkSize input result)
              inputs rs.
Proof.
  induction inputs as [|input inputs IH]; intros results st Hdim Hcs Hlen;
    cbn [embed_inputs].
  - exists [], (world st). rewrite app_nil_r. split; [by destruct st|constructor].
  - apply Forall_cons in Hlen as [Hlen1 Hlen].
    assert (∃ r w, embed_input config normalize chunkSize "truncate" input st
                   = (Returns r, set_world w st)
                   ∧ (chunkSize < utf8_RuneCountInString (InputItem_Text input) →
                      first_chunk_result (W := W) config normalize chunkSize input r))
      as (r & w & Hrun & Hr).
    { destruct (Z_lt_le_dec chunkSize (utf8_RuneCountInString (InputItem_Text input))).
      - destruct (embed_input_truncate normalize chunkSize input st Hdim ltac:(lia) l)
          as (r & w & Hrun & Hr). by eauto.
      - destruct (embed_input_returns config normalize chunkSize "truncate" input st
                    Hdim Hcs Hlen1) as (r & w & Hrun & _).
        exists r, w. split; [done|]. lia. }
    unfold mbind, M_bind, bind. rewrite Hrun.
    destruct (IH (results ++ [r]) (set_world w st) Hdim Hcs Hlen) as (rs & w' & Hrest & Hrs).
    rewrite Hrest, <- app_assoc. cbn [app]. exists (r :: rs), w'.
    split; [done|]. by constructor.
Qed.

(** X3.  Under the "truncate" strategy (asked for, or by default), a
    valid request gets, for every input longer than the effective chunk
    size, exactly one chunk record: it spans the first [chunk_size] code
    points, has the identifier [<id>_0], and carries the vector of that
    prefix; the rest of the text is in no chunk. *)
Theorem GenerateEmbeddings_truncate_first_chunk (req : EmbedRequest) (st : State W)
    (Hvalid : valid_request config req)
    (Hstrategy : effective_truncateStrategy req = "truncate") :
  ∃ (results : list EmbedResult) (st' : State W),
    GenerateEmbeddings config req st
    = (Returns (Some {| Results := results |}, None), st')
    ∧ Forall2 (λ input result,
                 effective_chunkSize config req
                 < utf8_RuneCountInString (InputItem_Text input) →
                 first_chunk_result (W := W) config (Normalize req)
                   (effective_chunkSize config req) input result)
              (Inputs req) results.
Proof.
  destruct Hvalid as (Hdim & Hcs & Hlen). unfold GenerateEmbeddings.
  rewrite Hstrategy.
  destruct (embed_inputs_truncate (Normalize req) (effective_chunkSize config req)
              (Inputs req) [] st Hdim Hcs Hlen) as (rs & w & Hrun & Hrs).
  unfold mbind, M_bind, bind. rewrite Hrun. cbn [app]. by eauto.
Qed.

(** X4.  When the effective chunk size is zero (the configured default
    or maximum is zero) and the strategy is not "truncate", a request
    whose first input is not empty never gets an answer:
    [GenerateEmbeddings] does not return, for the loop of [chunkText]
    does not advance, whatever the number of iterations. *)
Theorem GenerateEmbeddings_zero_chunkSize (req : EmbedRequest) (input : InputItem)
    (rest : list InputItem) (st : State W)
    (Hzero : effective_chunkSize config req = 0)
    (Hstrategy : effective_truncateStrategy req ≠ "truncate")
    (Hinputs : Inputs req = input :: rest)
    (Htext : 0 < utf8_RuneCountInString (InputItem_Text input) < max_text_len) :
  (GenerateEmbeddings config req st).1 = Diverges
  ∧ ∀ fuel : nat,
      chunkText_split fuel (InputItem_ID input) (runes_of (InputItem_Text input))
        0 0 0 []
      = Diverges.
Proof.
  assert (Hloop : ∀ fuel : nat,
            chunkText_split fuel (InputItem_ID input) (runes_of (InputItem_Text input))
              0 0 0 [] = Diverges).
  { intros fuel. apply chunkText_split_stuck; unfold utf8_RuneCountInString in Htext; lia. }
  split; [|done].
  unfold GenerateEmbeddings. rewrite Hzero, Hinputs. cbn [embed_inputs].
  unfold mbind, M_bind, bind, embed_input.
  destruct (Z.leb_spec (utf8_RuneCountInString (InputItem_Text input)) 0); [lia|].
  unfold mbind, M_bind, bind, run at 1.
  rewrite chunkText_not_truncate by done. unfold chunkText.
  cbn [String.eqb Ascii.eqb Bool.eqb]. by rewrite Hloop.
Qed.

(** X5.  When the effective chunk size is negative (the configured
    default or maximum is), a request whose first input is not empty
    makes [GenerateEmbeddings] panic, on the slice expression of
    [chunkText], whatever the strategy. *)
Theorem GenerateEmbeddings_negative_chunkSize (req : EmbedRequest) (input : InputItem)
    (rest : list InputItem) (st : State W)
    (Hneg : GoInt.min_int ≤ effective_chunkSize config req < 0)
    (Hinputs : Inputs req = input :: rest)
    (Htext : 0 < utf8_RuneCountInString (InputItem_Text input)) :
  (GenerateEmbeddings config req st).1 = Panics.
Proof.
  unfold GenerateEmbeddings. rewrite Hinputs. cbn [embed_inputs].
  set (chunkSize := effective_chunkSize config req) in *.
  unfold mbind, M_bind, bind, embed_input.
  unfold utf8_RuneCountInString in *.
  set (L := GoInt.len (runes_of (InputItem_Text input))) in *.
  destruct (Z.leb_spec L chunkSize); [lia|].
  unfold mbind, M_bind, bind, run at 1.
  assert (chunkText (InputItem_ID input) (InputItem_Text input) chunkSize
            (effective_truncateStrategy req) = Panics) as ->; [|done].
  unfold chunkText. fold L.
  assert (slice_range (runes_of (InputItem_Text input)) 0 chunkSize = Panics) as Hslice.
  { unfold slice_range. destruct (Z.leb_spec 0 chunkSize); [lia|]. done. }
  destruct (String.eqb _ "truncate").
  - destruct (Z.gtb_spec chunkSize L); [lia|]. by rewrite Hslice.
  - cbn [chunkText_split]. fold L.
    destruct (Z.ltb_spec 0 L); [|lia]. cbn [negb].
    rewrite add_in_range.
    2:{ unfold GoInt.in_range, GoInt.max_int. lia. }
    rewrite Z.add_0_l. destruct (Z.gtb_spec chunkSize L); [lia|]. by rewrite Hslice.
Qed.

End PipelineShape.

Lemma append_inj_l (a b c : string) : a +:+ b = a +:+ c → b = c.
Proof.
  induction a as [|x a IH]; [done|].
  change (String x (a +:+ b) = String x (a +:+ c) → b = c). intros [= Heq]. auto.
Qed.

Section ChunkIds.
Context `{GoRuntime}.

Lemma chunkText_ids docID text chunkSize strategy chunks :
  0 < chunkSize ≤ GoInt.max_int →
  utf8_RuneCountInString text < max_text_len →
  chunkText docID text chunkSize strategy = Returns chunks →
  ChunkID <$> chunks
  = (λ k : nat, docID +:+ "_" +:+ pretty (Z.of_nat k)) <$> seq 0 (length chunks).
Proof.
  intros [Hpos Hint] Hlen Hrun.
  destruct (String.eqb_spec strategy "truncate") as [->|Hs].
  - rewrite chunkText_truncate in Hrun by lia. by injection Hrun as <-.
  - rewrite chunkText_not_truncate in Hrun by done.
    rewrite (chunkText_split_eq docID (runes_of text) chunkSize Hpos Hint Hlen text eq_refl)
      in Hrun.
    injection Hrun as <-. rewrite length_fmap, length_seq, <- list_fmap_compose.
    done.
Qed.

End ChunkIds.

Section ChunkIdsTheorem.
Context `{GoRuntime} {W Body : Type} `{World W Body}.
Variable config : Config.

Lemma result_for_ids normalize chunkSize strategy input result :
  0 < chunkSize ≤ GoInt.max_int →
  utf8_RuneCountInString (InputItem_Text input) < max_text_len →
  result_for (W := W) config normalize chunkSize strategy input result →
  Chunk_ChunkID <$> elems (Chunks result)
  = (λ k : nat, InputItem_ID input +:+ "_" +:+ pretty (Z.of_nat k))
    <$> seq 0 (length (elems (Chunks result))).
Proof.
  intros Hcs Hlen [_ Hfor].
  destruct (_ <=? _).
  - destruct Hfor as (-> & _). done.
  - destruct Hfor as (_ & chunks & cs & Hrun & -> & Hcs'). change (elems (Some cs)) with cs.
    assert (Chunk_ChunkID <$> cs = ChunkID <$> chunks ∧ length cs = length chunks)
      as [-> ->].
    { clear Hrun. induction Hcs' as [|tc c chunks cs (Hid & _) _ [IH1 IH2]]; [done|].
      cbn. by rewrite Hid, IH1, IH2. }
    by eapply chunkText_ids.
Qed.

Lemma results_ids_distinct normalize chunkSize strategy inputs results :
  0 < chunkSize ≤ GoInt.max_int →
  Forall (λ input, utf8_RuneCountInString (InputItem_Text input) < max_text_len) inputs →
  Forall2 (result_for (W := W) config normalize chunkSize strategy) inputs results →
  Forall2 (λ input result,
             NoDup (Chunk_ChunkID <$> elems (Chunks result))
             ∧ ∀ (k : nat) c, elems (Chunks result) !! k = Some c →
                 Chunk_ChunkID c = InputItem_ID input +:+ "_" +:+ pretty (Z.of_nat k))
          inputs results.
Proof.
  intros Hcs Hlen Hrs. induction Hrs as [|input result inputs results Hr _ IH];
    [constructor|].
  apply Forall_cons in Hlen as [Hlen1 Hlen]. constructor; [|by apply IH].
  pose proof (result_for_ids _ _ _ _ _ Hcs Hlen1 Hr) as Hids. split.
  - rewrite Hids. apply NoDup_fmap_2; [|apply NoDup_seq].
    intros k1 k2 Heq. apply append_inj_l, append_inj_l in Heq.
    apply (inj pretty) in Heq. lia.
  - intros k c Hk.
    assert ((Chunk_ChunkID <$> elems (Chunks result)) !! k = Some (Chunk_ChunkID c)) as Hk'
      by (by rewrite list_lookup_fmap, Hk).
    rewrite Hids, list_lookup_fmap in Hk'.
    destruct (seq 0 (length (elems (Chunks result))) !! k) as [i|] eqn:Hi; [|done].
    apply lookup_seq in Hi as [-> _]. by injection Hk' as <-.
Qed.

(** X6.  For a valid request, whatever the strategy, the chunk records
    of a result are numbered from zero in the order of the text: the
    [k]-th has the identifier [<id>_<k>] of its input; so no two chunk
    records of one result have the same identifier. *)
Theorem GenerateEmbeddings_chunk_ids (req : EmbedRequest) (st : State W)
    (Hvalid : valid_request config req) :
  ∃ (results : list EmbedResult) (st' : State W),
    GenerateEmbeddings config req st
    = (Returns (Some {| Results := results |}, None), st')
    ∧ Forall2 (λ input result,
                 NoDup (Chunk_ChunkID <$> elems (Chunks result))
                 ∧ ∀ (k : nat) c, elems (Chunks result) !! k = Some c →
                     Chunk_ChunkID c
                     = InputItem_ID input +:+ "_" +:+ pretty (Z.of_nat k))
              (Inputs req) results.
Proof.
  destruct (GenerateEmbeddings_returns config req st Hvalid) as (rs & w & Hrun & Hrs).
  destruct Hvalid as (_ & Hcs & Hlen).
  exists rs, (set_world w st). split; [done|]. by eapply results_ids_distinct.
Qed.

End ChunkIdsTheorem.

(** ** Vectors whose squares underflow, and the text of a PDF *)

(** ** Vectors whose squares underflow *)

Lemma sumSq_underflow (vec : list float32) (acc : float64) :
  Forall (λ v, is_zero (mul32 v v) = true) vec →
  is_zero acc = true →
  is_zero (fold_left (λ sumSq v, add64 sumSq (to64 (mul32 v v))) vec acc) = true.
Proof.
  intros Hall. revert acc. induction Hall as [|v vec Hv _ IH]; intros acc Hacc; [done|].
  cbn [fold_left]. apply IH.
  destruct (mul32 v v) as [s| | |]; try discriminate Hv.
  destruct acc as [s'| | |]; try discriminate Hacc.
  by destruct s, s'.
Qed.

(** X7.  [normalizeL2] squares each component in [float32]; when
    every square underflows to zero the norm it computes is zero and
    the vector is returned as it is, not normalised, although its
    components need not be zero. *)
Theorem normalizeL2_underflow (vec : slice float32)
    (Hsquares : Forall (λ v, is_zero (mul32 v v) = true) (elems vec)) :
  eqb64 (normalizeL2_norm vec) zero64 = true ∧ normalizeL2 vec = vec.
Proof.
  assert (Hnorm : eqb64 (normalizeL2_norm vec) zero64 = true).
  { unfold normalizeL2_norm, normalizeL2_sumSq.
    pose proof (sumSq_underflow (elems vec) zero64 Hsquares eq_refl) as Hz.
    destruct (fold_left _ _ _) as [s| | |]; try discriminate Hz. done. }
  split; [done|]. unfold normalizeL2. by rewrite Hnorm.
Qed.

(** ** Text extraction *)

Lemma list_ascii_of_string_app (s1 s2 : string) :
  list_ascii_of_string (s1 +:+ s2) = list_ascii_of_string s1 ++ list_ascii_of_string s2.
Proof.
  induction s1 as [|c s1 IH]; [done|].
  change (String c s1 +:+ s2) with (String c (s1 +:+ s2)).
  cbn [list_ascii_of_string]. by rewrite IH.
Qed.

Lemma WriteByte_printable (result : string) (c : Ascii.ascii) :
  printable_string result → printable c = true → printable_string (WriteByte result c).
Proof.
  intros Hr Hc. unfold printable_string, WriteByte.
  rewrite list_ascii_of_string_app. apply Forall_app. split; [done|].
  cbn. by repeat constructor.
Qed.

Lemma extractPDFText_scan_printable (text : string) : ∀ inText inParen result,
  printable_string result →
  printable_string (extractPDFText_scan text inText inParen result).
Proof.
  induction text as [|c rest IH]; intros inText inParen result Hr; [done|].
  cbn [extractPDFText_scan].
  destruct inParen.
  - destruct (Ascii.eqb c ")"); [by apply IH|]. apply IH.
    destruct (printable c) eqn:Hc; [by apply WriteByte_printable|done].
  - destruct rest as [|c' rest'].
    + destruct (_ && _); by apply IH.
    + destruct (Ascii.eqb c "B" && Ascii.eqb c' "T"); [by apply IH|].
      destruct (Ascii.eqb c "E" && Ascii.eqb c' "T").
      * apply IH. by apply WriteByte_printable.
      * destruct (_ && _); by apply IH.
Qed.

Lemma extractPDFText_ascii_printable (content : string) : ∀ result,
  printable_string result →
  printable_string (extractPDFText_ascii content result).
Proof.
  induction content as [|c rest IH]; intros result Hr; [done|].
  cbn [extractPDFText_ascii]. apply IH.
  destruct (printable c) eqn:Hc; [by apply WriteByte_printable|].
  destruct (_ || _); [|done]. by apply WriteByte_printable.
Qed.

(** X8.  Whatever the bytes of the file, the text that [extractPDFText]
    builds, which it then trims, holds printable ASCII only (bytes 32
    to 126): every other byte of the file is dropped or written as a
    space. *)
Theorem extractPDFText_printable `{GoRuntime} (content : string) :
  extractPDFText content = strings_TrimSpace (extractPDFText_result content)
  ∧ printable_string (extractPDFText_result content).
Proof.
  split; [done|]. unfold extractPDFText_result.
  assert (printable_string (extractPDFText_scan content false false "")) as Hscan.
  { apply extractPDFText_scan_printable. constructor. }
  destruct (_ =? _)%nat; [|done]. by apply extractPDFText_ascii_printable.
Qed.

Lemma append_assoc (a b c : string) : (a +:+ b) +:+ c = a +:+ (b +:+ c).
Proof.
  induction a as [|x a IH]; [done|].
  change (String x (a +:+ b) +:+ c = String x (a +:+ (b +:+ c))).
  change (String x ((a +:+ b) +:+ c) = String x (a +:+ (b +:+ c))). by rewrite IH.
Qed.

Lemma append_nil_r (a : string) : a +:+ "" = a.
Proof.
  induction a as [|x a IH]; [done|].
  change (String x (a +:+ "") = String x a). by rewrite IH.
Qed.

Lemma scan_in_parentheses (s tail : string) : ∀ inText result,
  ")"%char ∉ list_ascii_of_string s →
  extractPDFText_scan (s +:+ String ")" tail) inText true result
  = extractPDFText_scan tail inText false (result +:+ printable_bytes s).
Proof.
  induction s as [|c s IH]; intros inText result Hno.
  - change ("" +:+ String ")" tail) with (String ")" tail).
    cbn [extractPDFText_scan Ascii.eqb Bool.eqb printable_bytes].
    by rewrite append_nil_r.
  - change (String c s +:+ String ")" tail) with (String c (s +:+ String ")" tail)).
    cbn [extractPDFText_scan list_ascii_of_string] in *.
    apply not_elem_of_cons in Hno as [Hc Hno].
    destruct (Ascii.eqb_spec c ")"); [done|].
    rewrite IH by done. cbn [printable_bytes].
    destruct (printable c); [|done]. unfold WriteByte. by rewrite append_assoc.
Qed.

(** X9.  A text object [BT(s)ET] whose string [s] has no closing
    parenthesis is read as the printable bytes of [s], markers inside
    [s] included, followed by the space that [ET] writes. *)
Theorem extractPDFText_text_object (s : string)
    (Hs : ")"%char ∉ list_ascii_of_string s) :
  extractPDFText_result ("BT(" +:+ s +:+ ")ET") = printable_bytes s +:+ " ".
Proof.
  assert (extractPDFText_scan ("BT(" +:+ s +:+ ")ET") false false ""
          = printable_bytes s +:+ " ") as Hscan.
  { change ("BT(" +:+ s +:+ ")ET")
      with (String "B" (String "T" (String "(" (s +:+ String ")" "ET")))).
    cbn [extractPDFText_scan Ascii.eqb Bool.eqb andb].
    rewrite (scan_in_parentheses s "ET" true "" Hs).
    cbn [extractPDFText_scan Ascii.eqb Bool.eqb andb].
    by destruct (s +:+ ")ET"). }
  unfold extractPDFText_result. rewrite Hscan.
  destruct (printable_bytes s); done.
Qed.

(** ** The registry *)

Lemma same_job_refl j : same_job j j.
Proof. by repeat split. Qed.

Lemma same_job_with j0 status progress urls err t :
  same_job j0 (job_with j0 status progress urls err t).
Proof. by repeat split. Qed.

Lemma same_job_trans j0 j1 j2 : same_job j0 j1 → same_job j1 j2 → same_job j0 j2.
Proof.
  intros (? & ? & ? & ? & ?) (? & ? & ? & ? & ?). repeat split; congruence.
Qed.

Lemma loop_trace_same_job codes total i cur files evs o final :
  loop_trace codes total i cur files evs o final →
  same_job cur final
  ∧ ∀ e j, e ∈ evs → event_job e = Some j → same_job cur j.
Proof.
  induction 1 as [i cur path results t|i cur err results t
                 |i cur fileURL rest code err t Hcode|i cur fileURL rest o Ho
                 |i cur fileURL rest t evs o final Htr IH].
  - split; [apply same_job_with|].
    intros e j He Hj. repeat (apply elem_of_cons in He as [->|He]);
      [discriminate Hj|injection Hj as <-..|by apply elem_of_nil in He];
      apply same_job_with.
  - split; [apply same_job_with|].
    intros e j He Hj. repeat (apply elem_of_cons in He as [->|He]);
      [discriminate Hj|injection Hj as <-..|by apply elem_of_nil in He];
      apply same_job_with.
  - split; [apply same_job_with|].
    intros e j He Hj. repeat (apply elem_of_cons in He as [->|He]);
      [discriminate Hj|injection Hj as <-..|by apply elem_of_nil in He];
      apply same_job_with.
  - split; [apply same_job_refl|].
    intros e j He Hj. apply elem_of_cons in He as [->|He];
      [discriminate Hj|by apply elem_of_nil in He].
  - destruct IH as [IHfinal IHevs].
    pose proof (same_job_with cur (Status cur)
                  (progress_after total (GoInt.add i 1)) (ResultURLs cur) (Error_ cur) t)
      as Hstep.
    split; [by eapply same_job_trans|].
    intros e j He Hj. apply elem_of_cons in He as [->|He]; [discriminate Hj|].
    apply elem_of_cons in He as [->|He]; [by injection Hj as <-|].
    eapply same_job_trans; [exact Hstep|]. by eapply IHevs.
Qed.

Lemma job_trace_same_job codes j0 evs o final :
  job_trace codes j0 evs o final →
  same_job j0 final ∧ ∀ e j, e ∈ evs → event_job e = Some j → same_job j0 j.
Proof.
  intros (t & evs' & -> & Htr).
  destruct (loop_trace_same_job _ _ _ _ _ _ _ _ Htr) as [Hfinal Hevs].
  pose proof (same_job_with j0 "running" 0 (ResultURLs j0) (Error_ j0) t) as Hstep.
  split; [by eapply same_job_trans|].
  intros e j He Hj. apply elem_of_cons in He as [->|He]; [by injection Hj as <-|].
  eapply same_job_trans; [exact Hstep|]. by eapply Hevs.
Qed.

Section StoreFacts.
Context `{GoRuntime} {W Body : Type} `{World W Body}.
Variable config : Config.

Lemma store_ok_CreateJob files model callbackURL (st : State W) :
  store_ok st → store_ok (CreateJob files model callbackURL st).2.
Proof.
  intros [Hreg Hheap].
  destruct (CreateJob_eq files model callbackURL st) as (id & c & u & w & Heq).
  cbn zeta in Heq. rewrite Heq. split; cbn.
  - intros jobID p Hp. destruct (decide (jobID = id)) as [->|Hne].
    + rewrite lookup_insert_eq in Hp. injection Hp as <-.
      rewrite lookup_insert_eq. by eauto.
    + rewrite lookup_insert_ne in Hp by done.
      destruct (Hreg jobID p Hp) as (j & Hj & Hid).
      exists j. split; [|done]. rewrite lookup_insert_ne; [done|].
      intros <-. specialize (Hheap (next_loc st) ltac:(eauto)). lia.
  - intros p [j Hp]. destruct (decide (p = next_loc st)) as [->|Hne]; [lia|].
    rewrite lookup_insert_ne in Hp by done.
    specialize (Hheap p ltac:(eauto)). lia.
Qed.

Lemma store_ok_job_state (st : State W) w job j0 final evs :
  store_ok st → heap st !! job = Some j0 → JobID final = JobID j0 →
  store_ok (job_state st w job final evs).
Proof.
  intros [Hreg Hheap] Hj0 Hid. split; cbn.
  - intros jobID p Hp.
    assert (jobs (jobStore st) !! jobID = Some p
            ∨ (jobID = JobID final ∧ p = job)) as [Hold| [-> ->]].
    { destruct (decide (jobID = JobID final)) as [->|Hne].
      - rewrite lookup_insert_eq in Hp. injection Hp as <-. by right.
      - rewrite lookup_insert_ne in Hp by done. by left. }
    + destruct (Hreg jobID p Hold) as (j & Hj & Hjid).
      destruct (decide (p = job)) as [->|Hne].
      * rewrite lookup_insert_eq. exists final. split; [done|]. congruence.
      * rewrite lookup_insert_ne by done. eauto.
    + rewrite lookup_insert_eq. eauto.
  - intros p [j Hp]. destruct (decide (p = job)) as [->|Hne].
    + apply Hheap. eauto.
    + rewrite lookup_insert_ne in Hp by done. apply Hheap. eauto.
Qed.

Lemma store_ok_processJob workerID jobID (st : State W) :
  store_ok st → store_ok (processJob config workerID jobID st).2.
Proof.
  intros Hok.
  destruct (jobs (jobStore st) !! jobID) as [job|] eqn:Hjob.
  2:{ rewrite processJob_no_job by (by left). done. }
  destruct (heap st !! job) as [j0|] eqn:Hj0.
  2:{ rewrite processJob_no_job by (right; eauto). done. }
  destruct (processJob_trace config workerID jobID st job j0 Hjob Hj0)
    as (w & evs & o & final & -> & Htr).
  destruct (job_trace_same_job _ _ _ _ _ Htr) as [(Hid & _) _].
  by eapply store_ok_job_state.
Qed.

(** X10.  In every state that the process reaches the registry is
    consistent: the entry of an identifier points to a record on the
    heap, and that record carries this very identifier; so [GetJob]
    never returns a dangling pointer or the record of another job. *)
Theorem reachable_store_ok (st : State W) (Hreach : reachable config st) :
  store_ok st
  ∧ ∀ jobID job, GetJob jobID st = (Returns (Some job), st) →
      ∃ j, load job st = (Returns j, st) ∧ JobID j = jobID.
Proof.
  assert (Hok : store_ok st).
  { induction Hreach as [w|st files model cb _ IH|st workerID jobID _ IH|st w _ IH].
    - split; cbn.
      + intros jobID p Hp. by rewrite lookup_empty in Hp.
      + intros p [j Hp]. by rewrite lookup_empty in Hp.
    - by apply store_ok_CreateJob.
    - by apply store_ok_processJob.
    - done. }
  split; [done|]. intros jobID job Hget. unfold GetJob in Hget.
  injection Hget as Hget. destruct Hok as [Hreg _].
  destruct (Hreg jobID job Hget) as (j & Hj & Hid).
  exists j. split; [|done]. unfold load. by rewrite Hj.
Qed.

(** X11.  [CreateJob] on a consistent registry files a new record
    under its identifier, with the files, the model and the callback
    URL given; it leaves the record of every other identifier as it
    was, and the registry consistent. *)
Theorem CreateJob_isolated (files : list string) (model callbackURL : string)
    (st : State W) (Hok : store_ok st) :
  ∃ (job : loc) (j : Job) (st' : State W),
    CreateJob files model callbackURL st = (Returns job, st')
    ∧ GetJob (JobID j) st' = (Returns (Some job), st')
    ∧ load job st' = (Returns j, st')
    ∧ Files j = files ∧ Model j = model ∧ CallbackURL j = callbackURL
    ∧ (∀ jobID, jobID ≠ JobID j → stored st' jobID = stored st jobID)
    ∧ store_ok st'.
Proof.
  pose proof (store_ok_CreateJob files model callbackURL st Hok) as Hok'.
  destruct (CreateJob_eq files model callbackURL st) as (id & c & u & w & Heq).
  cbn zeta in Heq. rewrite Heq in Hok'.
  exists (next_loc st),
    {| JobID := id; Status := "queued"; Progress := 0; Files := files;
       Model := model; ResultURLs := []; Error_ := None; CreatedAt := c;
       UpdatedAt := u; CallbackURL := callbackURL |}.
  eexists. split; [exact Heq|].
  cbn [JobID Files Model CallbackURL].
  split; [|split; [|split; [done|split; [done|split; [done|split; [|done]]]]]].
  - unfold GetJob. cbn. by rewrite lookup_insert_eq.
  - unfold load. cbn. by rewrite lookup_insert_eq.
  - intros jobID Hne. unfold stored. cbn. rewrite lookup_insert_ne by done.
    destruct (jobs (jobStore st) !! jobID) as [p|] eqn:Hp; [|done]. cbn.
    rewrite lookup_insert_ne; [done|]. intros <-.
    destruct Hok as [Hreg Hheap]. destruct (Hreg jobID _ Hp) as (j & Hj & _).
    specialize (Hheap (next_loc st) ltac:(eauto)). lia.
Qed.

(** X12.  [GetJob] hands out the pointer that the registry holds, not
    a copy: an assignment through it changes the record that the
    registry holds at once, with no call of [UpdateJob]; and
    [UpdateJob] on such a pointer changes nothing but the field
    [UpdatedAt]. *)
Theorem GetJob_aliases (jobID : string) (st : State W) (job : loc) (j : Job)
    (f : Job → Job)
    (Hget : GetJob jobID st = (Returns (Some job), st))
    (Hload : load job st = (Returns j, st))
    (Hid : JobID j = jobID) :
  (∃ st', assign job f st = (Returns tt, st')
          ∧ stored st' jobID = Some (f j)
          ∧ trace st' = trace st)
  ∧ (∃ t st', UpdateJob job st = (Returns tt, st')
              ∧ jobStore st' = jobStore st
              ∧ heap st' = <[job := set_UpdatedAt t j]> (heap st)
              ∧ stored st' jobID = Some (set_UpdatedAt t j)).
Proof.
  unfold GetJob in Hget. injection Hget as Hget.
  unfold load in Hload. destruct (heap st !! job) as [j'|] eqn:Hj; [|done].
  injection Hload as ->. subst jobID. split.
  - eexists. split; [by apply assign_heap|]. split; [|done].
    unfold stored. cbn. rewrite Hget. cbn. apply lookup_insert_eq.
  - destruct (UpdateJob_heap st job j Hj) as (t & w & Hrun).
    exists t. eexists. split; [exact Hrun|].
    split; [|split; [done|]].
    + cbn [jobStore job_state JobID set_UpdatedAt].
      destruct st as [w0 h n [js] tr]. cbn in *. by rewrite insert_id.
    + apply (stored_job_state st w job (set_UpdatedAt t j)).
Qed.

Lemma queue_depth_fold (st : State W) (m : gmap string loc) :
  (∀ jobID p, m !! jobID = Some p → is_Some (heap st !! p)) →
  Z.of_nat (size m) ≤ GoInt.max_int →
  map_fold (λ _ p (count : outcome Z),
              outcome_bind count (λ count,
                match heap st !! p with
                | Some j => Returns (if counts_as_pending j
                                     then GoInt.add count 1 else count)
                | None => Panics
                end))
           (Returns 0) m
  = Returns (Z.of_nat (size (filter (λ kv, pending_at st kv.2 = true) m))).
Proof.
  apply (map_fold_weak_ind
           (λ r m, (∀ jobID p, m !! jobID = Some p → is_Some (heap st !! p)) →
                   Z.of_nat (size m) ≤ GoInt.max_int →
                   r = Returns (Z.of_nat (size (filter (λ kv, pending_at st kv.2 = true) m))))).
  - intros _ _. by rewrite map_filter_empty, map_size_empty.
  - intros jobID p m' r Hnone IH Hlive Hsize.
    rewrite map_size_insert_None in Hsize by done.
    rewrite IH; [|intros id q Hq; apply (Hlive id q); rewrite lookup_insert_ne; [done|];
                  by intros ->; rewrite Hnone in Hq | lia].
    cbn [outcome_bind].
    destruct (Hlive jobID p (lookup_insert_eq _ _ _)) as [j Hj]. rewrite Hj.
    pose proof (map_size_filter (λ kv, pending_at st kv.2 = true) m') as Hle.
    destruct (counts_as_pending j) eqn:Hpending.
    + rewrite map_filter_insert_True by (unfold pending_at; cbn; by rewrite Hj).
      rewrite map_size_insert_None by (by rewrite map_lookup_filter, Hnone).
      rewrite add_in_range; [f_equal; lia|].
      unfold GoInt.in_range, GoInt.min_int, GoInt.max_int in *. lia.
    + rewrite map_filter_insert_False
        by (unfold pending_at; cbn; rewrite Hj, Hpending; done).
      by rewrite delete_id.
Qed.

(** X13.  On a consistent registry [GetQueueDepth] returns the number
    of entries whose job is [queued] or [running]; it changes nothing
    and does not panic, and the handler [Health] answers 200 with that
    number.  (The registry holds fewer than 2^63 jobs.) *)
Theorem GetQueueDepth_counts (st : State W) (Hok : store_ok st)
    (Hsize : Z.of_nat (size (jobs (jobStore st))) ≤ GoInt.max_int) :
  GetQueueDepth st = (Returns (Z.of_nat (size (pending_jobs st))), st)
  ∧ Handler.Health st
    = (Returns (JSON 200 (JHealth {| Health_Status := "ok"; Version := "1.0.0";
                                     QueueDepth := Z.of_nat (size (pending_jobs st)) |})),
       st)
  ∧ (0 ≤ Z.of_nat (size (pending_jobs st)) ≤ Z.of_nat (size (jobs (jobStore st))))
  ∧ ∀ jobID job, pending_jobs st !! jobID = Some job ↔
      ∃ j, jobs (jobStore st) !! jobID = Some job ∧ heap st !! job = Some j
           ∧ (Status j = "queued" ∨ Status j = "running").
Proof.
  assert (Hdepth : GetQueueDepth st
                   = (Returns (Z.of_nat (size (pending_jobs st))), st)).
  { unfold GetQueueDepth. f_equal. apply queue_depth_fold; [|done].
    intros jobID p Hp. destruct Hok as [Hreg _].
    destruct (Hreg jobID p Hp) as (j & Hj & _). eauto. }
  split; [done|]. split; [|split].
  - unfold Handler.Health, mbind, M_bind, bind. by rewrite Hdepth.
  - pose proof (map_size_filter (λ kv, pending_at st kv.2 = true) (jobs (jobStore st))).
    unfold pending_jobs. lia.
  - intros jobID job. unfold pending_jobs. rewrite map_lookup_filter_Some. cbn.
    unfold pending_at, counts_as_pending. split.
    + intros [Hjob Hp]. destruct (heap st !! job) as [j|]; [|done].
      exists j. split; [done|]. split; [done|].
      apply orb_true_iff in Hp as [Hp|Hp]; apply String.eqb_eq in Hp; auto.
    + intros (j & Hjob & Hj & Hs). split; [done|]. rewrite Hj.
      apply orb_true_iff. destruct Hs as [-> | ->]; auto.
Qed.

End StoreFacts.

(** ** Listing the jobs *)

Section ListJobsFacts.
Context `{GoRuntime} {W Body : Type} `{World W Body}.
Variable range : gmap string loc → list (string * loc).

Lemma ListJobs_eq (st : State W) :
  ListJobs range st = (Returns ((range (jobs (jobStore st))).*2), st).
Proof.
  unfold ListJobs. do 2 f_equal.
  assert (∀ l acc, foldl (λ (jobs : list loc) (kv : string * loc), jobs ++ [kv.2]) acc l
                   = acc ++ l.*2) as Hfold.
  { induction l as [|kv l IH]; intros acc; cbn; [by rewrite app_nil_r|].
    by rewrite IH, <- app_assoc. }
  by rewrite Hfold.
Qed.

Lemma ListJobs_statuses_eq (st : State W) (ps : list loc) : ∀ statuses,
  Forall (λ p, is_Some (heap st !! p)) ps →
  Handler.ListJobs_statuses ps statuses st
  = (Returns (statuses ++ omap (λ p, job_status <$> heap st !! p) ps), st).
Proof.
  induction ps as [|p ps IH]; intros statuses Hall; cbn [Handler.ListJobs_statuses].
  - by rewrite app_nil_r.
  - apply Forall_cons in Hall as [[j Hj] Hall].
    assert (load p st = (Returns j, st)) as Hload by (unfold load; by rewrite Hj).
    unfold mbind, M_bind, bind. rewrite Hload, IH by done.
    cbn [omap list_omap]. rewrite Hj. cbn. by rewrite <- app_assoc.
Qed.

(** X14.  On a consistent registry the handler [ListJobs] answers 200
    with one status per registered job: the statuses are those of the
    records of the registry, each once, in the order in which the map
    is visited, whichever that is; nothing changes. *)
Theorem ListJobs_every_job (st : State W)
    (Hrange : ∀ m, range m ≡ₚ map_to_list m)
    (Hok : store_ok st) :
  ∃ statuses,
    Handler.ListJobs range st = (Returns (JSON 200 (JJobs statuses)), st)
    ∧ statuses = omap (λ kv, job_status <$> stored st kv.1) (range (jobs (jobStore st)))
    ∧ statuses ≡ₚ omap (λ kv, job_status <$> stored st kv.1)
                       (map_to_list (jobs (jobStore st)))
    ∧ length statuses = size (jobs (jobStore st)).
Proof.
  destruct Hok as [Hreg _].
  assert (Hlive : Forall (λ p, is_Some (heap st !! p)) (range (jobs (jobStore st))).*2).
  { apply Forall_forall. intros p Hp.
    apply list_elem_of_fmap in Hp as ([jobID p'] & -> & Hin). cbn.
    rewrite Hrange in Hin. apply elem_of_map_to_list in Hin.
    destruct (Hreg jobID p' Hin) as (j & Hj & _). eauto. }
  assert (omap (λ p, job_status <$> heap st !! p) (range (jobs (jobStore st))).*2
          = omap (λ kv, job_status <$> stored st kv.1) (range (jobs (jobStore st))))
    as Hsame.
  { assert (∀ l, Forall (λ kv : string * loc, jobs (jobStore st) !! kv.1 = Some kv.2) l →
                 omap (λ p, job_status <$> heap st !! p) l.*2
                 = omap (λ kv, job_status <$> stored st kv.1) l) as Hmap.
    { induction l as [|kv l IH]; intros Hl; [done|].
      apply Forall_cons in Hl as [Hkv Hl]. cbn. unfold stored at 1. rewrite Hkv. cbn.
      by rewrite IH. }
    apply Hmap. apply Forall_forall. intros [jobID p] Hin. cbn.
    rewrite Hrange in Hin. by apply elem_of_map_to_list in Hin. }
  eexists. split; [|split; [|split]].
  - unfold Handler.ListJobs, mbind, M_bind, bind. rewrite ListJobs_eq.
    rewrite ListJobs_statuses_eq by done. cbn [app]. reflexivity.
  - exact Hsame.
  - by rewrite Hsame, Hrange.
  - clear Hsame.
    rewrite <- length_map_to_list, <- (Hrange (jobs (jobStore st))).
    rewrite <- (length_fmap snd).
    induction Hlive as [|p ps [j Hj] _ IH]; [done|]. cbn. rewrite Hj. cbn. by rewrite IH.
Qed.

End ListJobsFacts.

(** ** Runs of the worker *)

Lemma loop_trace_callbacks codes total i cur files evs o final :
  loop_trace codes total i cur files evs o final →
  Status cur = "running" →
  (o = Returns tt
   ∧ callbacks evs = [final]
   ∧ (∃ evs0, evs = evs0 ++ [EvUpdateJob final; EvSendCallback final])
   ∧ (Status final = "completed" ∨ Status final = "failed"))
  ∨ (o ≠ Returns tt ∧ callbacks evs = [] ∧ Status final = "running").
Proof.
  induction 1 as [i cur path results t|i cur err results t
                 |i cur fileURL rest code err t Hcode|i cur fileURL rest o Ho
                 |i cur fileURL rest t evs o final Htr IH]; intros Hst.
  - left. split; [done|]. split; [done|]. split; [by eexists [_]|by left].
  - left. split; [done|]. split; [done|]. split; [by eexists [_]|by right].
  - left. split; [done|]. split; [done|]. split; [by eexists [_]|by right].
  - right. done.
  - destruct (IH Hst) as [(-> & Hcb & (evs0 & ->) & Hfinal)|(Ho & Hcb & Hfinal)].
    + left. split; [done|]. split; [done|]. split; [|done].
      by eexists (EvDownloadFile fileURL :: EvUpdateJob _ :: evs0).
    + right. done.
Qed.

Section WorkerFacts.
Context `{GoRuntime} {W Body : Type} `{World W Body}.
Variable config : Config.

Lemma saveResults_job_state_url (st : State W) job jobID results w j evs :
  ∃ r w', saveResults config jobID results (job_state st w job j evs)
          = (Returns r, job_state st w' job j (evs ++ [EvSaveResults jobID results]))
    ∧ ∀ url, r = ROk url → url = "/v1/results/" +:+ results_filename jobID.
Proof.
  unfold saveResults, mbind, M_bind, bind, emit, call. cbn.
  unfold job_state, set_world, set_trace. cbn. rewrite <- app_assoc.
  destruct (os_MkdirAll _ _ w) as [[e|] w1]; cbn;
    [by eexists _, _; split; [done|]; intros url [=]|].
  destruct (json_MarshalIndent_results results) as [data|e]; cbn;
    [|by eexists _, _; split; [done|]; intros url [=]].
  destruct (os_WriteFile _ _ _ w1) as [[e|] w2]; cbn;
    [by eexists _, _; split; [done|]; intros url [=]|].
  eexists _, _. split; [done|]. by intros url [= <-].
Qed.

(** X15.  When [saveResults] succeeds, the URL it returns is
    [/v1/results/<job_id>_results.json]; the file was written, after
    the storage directory had been made, at the path that the handler
    [GetResults] serves for that file name (the name has no directory
    part, so [filepath.Base] leaves it as it is). *)
Theorem saveResults_url (jobID : string) (results : list EmbedResponse)
    (st st' : State W) (url : string)
    (Hbase : filepath_Base (results_filename jobID) = results_filename jobID)
    (Hrun : saveResults config jobID results st = (Returns (ROk url), st')) :
  url = "/v1/results/" +:+ results_filename jobID
  ∧ ∃ data w1,
      json_MarshalIndent_results results = ROk data
      ∧ os_MkdirAll (StoragePath config) 493 (world st) = (None, w1)
      ∧ os_WriteFile (filepath_Join (StoragePath config) (results_filename jobID))
          data 420 w1 = (None, world st')
      ∧ Handler.GetResults config (results_filename jobID)
        = File (filepath_Join (StoragePath config) (results_filename jobID)).
Proof.
  unfold saveResults, mbind, M_bind, bind, emit, call in Hrun. cbn in Hrun.
  destruct (os_MkdirAll _ _ (world st)) as [[e|] w1] eqn:Hmk; cbn in Hrun;
    [discriminate Hrun|].
  destruct (json_MarshalIndent_results results) as [data|e]; cbn in Hrun;
    [|discriminate Hrun].
  destruct (os_WriteFile _ _ _ w1) as [[e|] w2] eqn:Hwrite; cbn in Hrun;
    [discriminate Hrun|].
  injection Hrun as <- <-. split; [done|]. exists data, w1.
  split; [done|]. split; [done|]. split; [exact Hwrite|].
  unfold Handler.GetResults. by rewrite Hbase.
Qed.

(** X16.  [sendCallback] is best effort: for the record of a job it
    returns, whatever the network does, and changes neither the record
    nor the registry; a job without a callback URL causes no call to
    the world outside at all. *)
Theorem sendCallback_best_effort (job : loc) (j : Job) (st : State W)
    (Hload : load job st = (Returns j, st)) :
  ∃ st', sendCallback job st = (Returns tt, st')
    ∧ heap st' = heap st
    ∧ jobStore st' = jobStore st
    ∧ trace st' = trace st ++ [EvSendCallback j]
    ∧ (CallbackURL j = "" → world st' = world st).
Proof.
  unfold sendCallback, mbind, M_bind, bind. rewrite Hload.
  unfold emit at 1. cbn.
  destruct (String.eqb_spec (CallbackURL j) "") as [Hurl|Hurl].
  - eexists. split; [done|]. done.
  - destruct (json_Marshal_payload _) as [data|?].
    2:{ eexists. split; [done|]. done. }
    unfold call. cbn.
    destruct (http_Post _ _ _ _ _) as [[resp|?] w']; cbn;
      eexists; (split; [done|]); done.
Qed.

(** The first statements of a run, and the loop that follows them. *)
Lemma processJob_start workerID jobID (st : State W) job j0 :
  jobs (jobStore st) !! jobID = Some job →
  heap st !! job = Some j0 →
  ∃ t w1,
    let running := set_UpdatedAt t (set_Progress 0 (set_Status "running" j0)) in
    started job st (job_state st w1 job running [EvUpdateJob running])
    ∧ processJob config workerID jobID st
      = process_files config (GenerateEmbeddings config) job (GoInt.len (Files j0)) 0
          (Files j0) [] (finish_job config job)
          (job_state st w1 job running [EvUpdateJob running]).
Proof.
  intros Hjob Hj0.
  unfold started, processJob, processJobWith, mbind, M_bind, bind.
  unfold GetJob. rewrite Hjob.
  rewrite (assign_heap st job j0 _ Hj0).
  rewrite (assign_heap _ job (set_Status "running" j0) (set_Progress 0))
    by apply lookup_insert_eq.
  destruct (UpdateJob_heap
              (set_heap (<[job := set_Progress 0 (set_Status "running" j0)]>
                 (heap (set_heap (<[job := set_Status "running" j0]> (heap st)) st)))
                 (set_heap (<[job := set_Status "running" j0]> (heap st)) st))
              job (set_Progress 0 (set_Status "running" j0)))
    as (t & w1 & ->); [apply lookup_insert_eq|].
  assert (∀ (w : W) (j : Job) (evs : list event),
            job_state
              (set_heap (<[job := set_Progress 0 (set_Status "running" j0)]>
                 (heap (set_heap (<[job := set_Status "running" j0]> (heap st)) st)))
                 (set_heap (<[job := set_Status "running" j0]> (heap st)) st))
              w job j evs
            = job_state st w job j evs) as ->.
  { intros. unfold job_state, set_heap. cbn. by rewrite !insert_insert_eq. }
  exists t, w1. cbn zeta. split; [done|]. by rewrite load_job_state.
Qed.

(** The end of a run: what [saveResults] returns decides how the job
    ends. *)
Lemma finish_job_state (job : loc) (results : list EmbedResponse) (st : State W)
    (w : W) (cur : Job) (evs0 : list event) :
  ∃ (r : result string) (w1 w' : W) (final : Job),
    saveResults config (JobID cur) results (job_state st w job cur evs0)
    = (Returns r,
       job_state st w1 job cur (evs0 ++ [EvSaveResults (JobID cur) results]))
    ∧ finish_job config job results (job_state st w job cur evs0)
      = (Returns tt,
         job_state st w' job final
           (evs0 ++ [EvSaveResults (JobID cur) results;
                     EvUpdateJob final; EvSendCallback final]))
    ∧ same_job cur final
    ∧ match r with
      | ROk url =>
          url = "/v1/results/" +:+ results_filename (JobID cur)
          ∧ Status final = "completed" ∧ Progress final = 100
          ∧ ResultURLs final = [url] ∧ Error_ final = Error_ cur
      | RErr err =>
          Status final = "failed" ∧ Progress final = Progress cur
          ∧ ResultURLs final = ResultURLs cur
          ∧ Error_ final = Some {| Code := "storage_failed"; Message := err |}
      end.
Proof.
  unfold finish_job, mbind, M_bind, bind. rewrite load_job_state.
  destruct (saveResults_job_state_url st job (JobID cur) results w cur evs0)
    as (r & w1 & Hsave & Hurl).
  rewrite Hsave. exists r, w1.
  destruct r as [path|err].
  - do 3 (rewrite assign_job_state by done).
    destruct (UpdateJob_job_state st job w1
                (set_ResultURLs [path] (set_Progress 100 (set_Status "completed" cur)))
                (evs0 ++ [EvSaveResults (JobID cur) results])) as (t & w2 & ->).
    destruct (sendCallback_job_state st job w2
                (set_UpdatedAt t (set_ResultURLs [path]
                   (set_Progress 100 (set_Status "completed" cur))))
                ((evs0 ++ [EvSaveResults (JobID cur) results])
                 ++ [EvUpdateJob (set_UpdatedAt t (set_ResultURLs [path]
                       (set_Progress 100 (set_Status "completed" cur))))]))
      as (w3 & ->).
    eexists w3, _. split; [done|]. split; [by rewrite <- !app_assoc|].
    split; [by repeat split|]. split; [by apply Hurl|done].
  - destruct (fail_job_job_state st job "storage_failed" err w1 cur
                (evs0 ++ [EvSaveResults (JobID cur) results])) as (t & w2 & Hfail).
    cbn zeta in Hfail. rewrite Hfail.
    eexists w2, _. split; [done|]. split; [by rewrite <- !app_assoc|].
    split; [by repeat split|]. done.
Qed.

(** X17.  A job without files is processed without a division by
    zero: after its first statements [processJob] starts on no file,
    hands the empty list of results to [saveResults] once, and returns.
    When [saveResults] succeeds the job is [completed] with progress
    100 and the URL it returned; when it fails the job is [failed] with
    the code [storage_failed] and its error.  The callback dispatcher
    is invoked once, with the final record. *)
Theorem processJob_no_files (workerID : Z) (jobID : string) (st : State W) (j0 : Job)
    (Hstored : stored st jobID = Some j0)
    (Hfiles : Files j0 = []) :
  ∃ (job : loc) (st1 st2 st' : State W) (r : result string) (evs : list event)
    (final : Job),
    GetJob jobID st = (Returns (Some job), st)
    ∧ started job st st1
    ∧ saveResults config (JobID j0) [] st1 = (Returns r, st2)
    ∧ processJob config workerID jobID st = (Returns tt, st')
    ∧ trace st' = trace st ++ evs
    ∧ downloads evs = []
    ∧ saved evs = [(JobID j0, [])]
    ∧ callbacks evs = [final]
    ∧ stored st' jobID = Some final
    ∧ match r with
      | ROk url =>
          Status final = "completed" ∧ Progress final = 100
          ∧ ResultURLs final = [url]
      | RErr err =>
          Status final = "failed"
          ∧ Error_ final = Some {| Code := "storage_failed"; Message := err |}
      end.
Proof.
  unfold stored in Hstored.
  destruct (jobs (jobStore st) !! jobID) as [job|] eqn:Hjob; [|done].
  cbn in Hstored.
  destruct (processJob_start workerID jobID st job j0 Hjob Hstored)
    as (t & w1 & Hstart & Hrun).
  cbn zeta in Hstart, Hrun. rewrite Hfiles in Hrun. cbn [process_files] in Hrun.
  set (running := set_UpdatedAt t (set_Progress 0 (set_Status "running" j0))) in *.
  destruct (finish_job_state job [] st w1 running [EvUpdateJob running])
    as (r & w2 & w' & final & Hsave & Hfinish & Hsame & Hr).
  rewrite Hfinish in Hrun.
  exists job. eexists _, _, _, r, _, final.
  split; [by unfold GetJob; rewrite Hjob|]. split; [exact Hstart|].
  split; [exact Hsave|]. split; [exact Hrun|]. split; [done|].
  split; [done|]. split; [done|]. split; [done|].
  split; [by apply stored_after_run|].
  destruct r as [url|err]; [|by destruct Hr as (? & _ & _ & ?)].
  by destruct Hr as (_ & ? & ? & ? & _).
Qed.

(** X18.  On a consistent registry a run of [processJob] touches no
    other job: the record of every other identifier is as it was; the
    record of its own job keeps its identifier, files, model, creation
    time and callback URL; and the registry stays consistent.  For an
    identifier that the registry does not hold, nothing changes at
    all. *)
Theorem processJob_isolated (workerID : Z) (jobID : string) (st : State W)
    (Hok : store_ok st) :
  (∀ other, other ≠ jobID →
     stored (processJob config workerID jobID st).2 other = stored st other)
  ∧ (∀ j0, stored st jobID = Some j0 →
       ∃ final, stored (processJob config workerID jobID st).2 jobID = Some final
                ∧ same_job j0 final)
  ∧ (stored st jobID = None → processJob config workerID jobID st = (Returns tt, st))
  ∧ store_ok (processJob config workerID jobID st).2.
Proof.
  pose proof (store_ok_processJob config workerID jobID st Hok) as Hok'.
  destruct Hok as [Hreg Hheap].
  destruct (jobs (jobStore st) !! jobID) as [job|] eqn:Hjob.
  2:{ assert (processJob config workerID jobID st = (Returns tt, st)) as Hrun.
      { unfold processJob, processJobWith, mbind, M_bind, bind, GetJob. by rewrite Hjob. }
      rewrite Hrun. split; [done|]. split; [|done].
      intros j0 Hst. unfold stored in Hst. by rewrite Hjob in Hst. }
  destruct (Hreg jobID job Hjob) as (j0 & Hj0 & Hid).
  destruct (processJob_trace config workerID jobID st job j0 Hjob Hj0)
    as (w & evs & o & final & Hrun & Htr).
  destruct (job_trace_same_job _ _ _ _ _ Htr) as [Hsame _].
  rewrite Hrun in Hok' |- *. cbn [snd] in *.
  split; [|split; [|split; [|done]]].
  - intros other Hne. unfold stored. cbn.
    destruct Hsame as (Hfid & _). rewrite Hfid, Hid.
    rewrite lookup_insert_ne by done.
    destruct (jobs (jobStore st) !! other) as [p|] eqn:Hp; [|done]. cbn.
    rewrite lookup_insert_ne; [done|]. intros <-.
    destruct (Hreg other job Hp) as (j & Hj & Hjid). congruence.
  - intros j0' Hst. unfold stored in Hst. rewrite Hjob in Hst. cbn in Hst.
    assert (j0' = j0) as -> by congruence.
    exists final. split; [by apply stored_after_run|done].
  - intros Hst. unfold stored in Hst. rewrite Hjob in Hst. cbn in Hst. congruence.
Qed.

(** X19.  A run of [processJob] on a registered job that returns
    leaves the job [completed] or [failed] and has invoked the callback
    dispatcher exactly once, as its last call, with the record that it
    wrote to the registry last; a run that does not return (it panics
    or loops in the pipeline) invokes no callback and leaves the job
    [running]. *)
Theorem processJob_one_callback (workerID : Z) (jobID : string) (st : State W)
    (j0 : Job) (Hstored : stored st jobID = Some j0) :
  ∃ (o : outcome unit) (st' : State W) (evs : list event) (final : Job),
    processJob config workerID jobID st = (o, st')
    ∧ trace st' = trace st ++ evs
    ∧ stored st' jobID = Some final
    ∧ (o = Returns tt →
       callbacks evs = [final]
       ∧ (∃ evs0, evs = evs0 ++ [EvUpdateJob final; EvSendCallback final])
       ∧ (Status final = "completed" ∨ Status final = "failed"))
    ∧ (o ≠ Returns tt → callbacks evs = [] ∧ Status final = "running").
Proof.
  unfold stored in Hstored.
  destruct (jobs (jobStore st) !! jobID) as [job|] eqn:Hjob; [|done].
  cbn in Hstored.
  destruct (processJob_trace config workerID jobID st job j0 Hjob Hstored)
    as (w & evs & o & final & Hrun & t & evs' & -> & Htr).
  exists o. eexists _, _, final. split; [exact Hrun|]. split; [done|].
  split; [by apply stored_after_run|].
  destruct (loop_trace_callbacks _ _ _ _ _ _ _ _ Htr eq_refl)
    as [(-> & Hcb & (evs0 & ->) & Hfinal)|(Ho & Hcb & Hfinal)].
  - split; [|done]. intros _. split; [done|]. split; [|done].
    by eexists (EvUpdateJob _ :: evs0).
  - split; [done|]. done.
Qed.

End WorkerFacts.

(** ** The end of a job *)

Section FinishFacts.
Context `{GoRuntime} {W Body : Type} `{World W Body}.
Variable config : Config.

(** X20.  Once every file of a job has been embedded, [processJob]
    persists the results and ends the job according to what
    [saveResults] returns: when it returns a URL, which is
    [/v1/results/<job_id>_results.json], the job is [completed] with
    progress 100 and that URL as its one result URL; when it returns an
    error the job is [failed] with the code [storage_failed] and that
    error, its progress and result URLs being left as they were.
    Either way the record is written to the registry once and the
    callback dispatcher is invoked once, after the write. *)
Theorem finish_job_outcome (job : loc) (results : list EmbedResponse) (st : State W)
    (cur : Job)
    (Hload : load job st = (Returns cur, st))
    (Hget : GetJob (JobID cur) st = (Returns (Some job), st)) :
  ∃ (r : result string) (st1 st' : State W) (final : Job),
    saveResults config (JobID cur) results st = (Returns r, st1)
    ∧ finish_job config job results st = (Returns tt, st')
    ∧ stored st' (JobID cur) = Some final
    ∧ trace st' = trace st ++ [EvSaveResults (JobID cur) results;
                               EvUpdateJob final; EvSendCallback final]
    ∧ same_job cur final
    ∧ match r with
      | ROk url =>
          url = "/v1/results/" +:+ results_filename (JobID cur)
          ∧ Status final = "completed" ∧ Progress final = 100
          ∧ ResultURLs final = [url] ∧ Error_ final = Error_ cur
      | RErr err =>
          Status final = "failed" ∧ Progress final = Progress cur
          ∧ ResultURLs final = ResultURLs cur
          ∧ Error_ final = Some {| Code := "storage_failed"; Message := err |}
      end.
Proof.
  unfold load in Hload. destruct (heap st !! job) as [j|] eqn:Hheap; [|done].
  injection Hload as ->. unfold GetJob in Hget. injection Hget as Hreg.
  destruct (finish_job_state config job results st (world st) cur [])
    as (r & w1 & w' & final & Hsave & Hrun & Hsame & Hr).
  rewrite (job_state_id st job cur Hheap Hreg) in Hsave, Hrun.
  exists r. eexists _, _, final. split; [exact Hsave|]. split; [exact Hrun|].
  split; [|split; [done|split; [done|done]]].
  destruct Hsame as [<- _]. apply stored_job_state.
Qed.

End FinishFacts.

Section SavedResults.
Context `{GoRuntime} {W Body : Type} `{World W Body}.
Variable config : Config.
Variables (st : State W) (job : loc).

(** The loop persists results only when it has gone through every
    file: what it persists is what it had, then the response of each
    file. *)
Lemma process_files_saved total files : ∀ i results w cur evs0,
  ∃ w' evs o final,
    process_files config (GenerateEmbeddings config) job total i files results
      (finish_job config job) (job_state st w job cur evs0)
    = (o, job_state st w' job final (evs0 ++ evs))
    ∧ (saved evs = []
       ∨ ∃ rs w2 cur2 before after,
           files_embedded config job total i files (job_state st w job cur evs0)
             rs (job_state st w2 job cur2 (evs0 ++ before))
           ∧ finish_job config job (results ++ rs)
               (job_state st w2 job cur2 (evs0 ++ before))
             = (o, job_state st w' job final (evs0 ++ evs))
           ∧ evs = before ++ EvSaveResults (JobID cur) (results ++ rs) :: after
           ∧ downloads before = files ∧ saved before = []
           ∧ downloads after = [] ∧ saved after = []).
Proof.
  induction files as [|fileURL rest IH]; intros i results w cur evs0.
  - cbn [process_files].
    destruct (finish_job_state config job results st w cur evs0)
      as (r & w1 & w' & final & _ & Hrun & _ & _).
    eexists w', _, _, final. split; [exact Hrun|]. right.
    exists [], w, cur, [], [EvUpdateJob final; EvSendCallback final].
    rewrite !app_nil_r. split; [constructor|]. done.
  - cbn [process_files]. unfold mbind, M_bind, bind.
    destruct (downloadFile_job_state st job fileURL w cur evs0) as (d & w1 & Hdl).
    rewrite Hdl.
    destruct d as [[content filename]|err].
    2:{ destruct (fail_job_job_state st job "download_failed" err w1 cur
                    (evs0 ++ [EvDownloadFile fileURL])) as (t & w2 & ->).
        eexists w2, _, _, _. split; [by rewrite <- !app_assoc|]. by left. }
    destruct (ExtractTextFromFile filename content) as [text|err] eqn:Htext.
    2:{ destruct (fail_job_job_state st job "extraction_failed" err w1 cur
                    (evs0 ++ [EvDownloadFile fileURL])) as (t & w2 & ->).
        eexists w2, _, _, _. split; [by rewrite <- !app_assoc|]. by left. }
    rewrite load_job_state.
    set (req := {| Req_Model := Model cur; Inputs := _; TruncateStrategy := _;
                   ChunkSize := _; Normalize := _ |}).
    destruct (world_only_job_state st job (GenerateEmbeddings config req) w1 cur
                (evs0 ++ [EvDownloadFile fileURL])
                (GenerateEmbeddings_world_only config req))
      as (o & w2 & Hembed).
    rewrite Hembed.
    destruct o as [[resp err]| |].
    2,3: eexists w2, [_], _, cur; (split; [done|]); by left.
    destruct err as [err|].
    { destruct (fail_job_job_state st job "embedding_failed" err w2 cur
                  (evs0 ++ [EvDownloadFile fileURL])) as (t & w3 & ->).
      eexists w3, _, _, _. split; [by rewrite <- !app_assoc|]. by left. }
    unfold run at 1. destruct resp as [resp|].
    2:{ eexists w2, [_], _, cur. split; [done|]. by left. }
    unfold run at 1. destruct (Z.eqb_spec total 0) as [Htotal|Htotal].
    { eexists w2, [_], _, cur. split; [done|]. by left. }
    set (progress := GoInt.quo (GoInt.mul (GoInt.add i 1) 100) total).
    rewrite assign_job_state by done.
    destruct (UpdateJob_job_state st job w2 (set_Progress progress cur)
                (evs0 ++ [EvDownloadFile fileURL])) as (t & w3 & Hupd).
    rewrite Hupd.
    set (cur' := set_UpdatedAt t (set_Progress progress cur)) in *.
    destruct (IH (GoInt.add i 1) (results ++ [resp]) w3 cur'
                ((evs0 ++ [EvDownloadFile fileURL]) ++ [EvUpdateJob cur']))
      as (w4 & evs & o & final & Hrest & Hsaved).
    rewrite Hrest.
    eexists w4, (_ :: _ :: evs), o, final. split; [by rewrite <- !app_assoc|].
    change (saved (_ :: _ :: evs)) with (saved evs).
    destruct Hsaved as [Hnone|(rs & w5 & cur2 & before & after & Hfiles & Hfin
                                & -> & Hbefore & Hsb & Hafter & Hsa)];
      [by left|].
    right.
    exists (resp :: rs), w5, cur2,
      (EvDownloadFile fileURL :: EvUpdateJob cur' :: before), after.
    assert (Hevs : (evs0 ++ [EvDownloadFile fileURL]) ++ [EvUpdateJob cur'] ++ before
                   = evs0 ++ EvDownloadFile fileURL :: EvUpdateJob cur' :: before)
      by (by rewrite <- !app_assoc).
    rewrite <- !app_assoc in Hfiles, Hfin. cbn [app] in Hfiles, Hfin.
    split; [|split; [|split; [|split; [|done]]]].
    + eapply (files_embedded_cons config job total i fileURL rest _ content filename
                _ text cur resp _ _ rs _);
        [exact Hdl|exact Htext|apply load_job_state|exact Hembed|exact Htotal| |exact Hfiles].
      unfold mbind, M_bind, bind. fold progress.
      rewrite assign_job_state by done.
      rewrite Hupd. by rewrite <- !app_assoc.
    + rewrite Hfin. by rewrite <- !app_assoc.
    + cbn [JobID cur' set_UpdatedAt set_Progress]. by rewrite <- app_assoc.
    + change (downloads (_ :: _ :: before)) with (fileURL :: downloads before).
      by rewrite Hbefore.
Qed.

End SavedResults.

Section SavedResultsTheorem.
Context `{GoRuntime} {W Body : Type} `{World W Body}.
Variable config : Config.

Lemma files_embedded_length job total i files (st : State W) results st' :
  files_embedded config job total i files st results st' →
  length results = length files.
Proof. induction 1; cbn; congruence. Qed.

(** X21.  A run of [processJob] calls [saveResults] at most once, and
    only after its loop has gone through every file of the job without
    a failure: every file has then been downloaded, in order, before
    the call and none after it, and what is saved, under the identifier
    of the job, is one response per file, in order, each being what
    [GenerateEmbeddings] returned for the text extracted from the
    download of its file.  Partial results are never persisted. *)
Theorem processJob_saves_all (workerID : Z) (jobID : string) (st : State W) (j0 : Job)
    (Hstored : stored st jobID = Some j0) :
  ∃ evs,
    trace (processJob config workerID jobID st).2 = trace st ++ evs
    ∧ (saved evs = []
       ∨ ∃ (job : loc) (st1 st2 : State W) (results : list EmbedResponse)
           (before after : list event),
           GetJob jobID st = (Returns (Some job), st)
           ∧ started job st st1
           ∧ files_embedded config job (GoInt.len (Files j0)) 0 (Files j0)
               st1 results st2
           ∧ processJob config workerID jobID st = finish_job config job results st2
           ∧ trace st2 = trace st ++ before
           ∧ evs = before ++ EvSaveResults (JobID j0) results :: after
           ∧ downloads before = Files j0 ∧ saved before = []
           ∧ downloads after = [] ∧ saved after = []
           ∧ length results = length (Files j0)).
Proof.
  unfold stored in Hstored.
  destruct (jobs (jobStore st) !! jobID) as [job|] eqn:Hjob; [|done].
  cbn in Hstored.
  destruct (processJob_start config workerID jobID st job j0 Hjob Hstored)
    as (t & w1 & Hstart & Hrun).
  cbn zeta in Hstart, Hrun.
  set (running := set_UpdatedAt t (set_Progress 0 (set_Status "running" j0))) in *.
  destruct (process_files_saved config st job (GoInt.len (Files j0)) (Files j0) 0 []
              w1 running [EvUpdateJob running])
    as (w2 & evs & o & final & Hloop & Hsaved).
  rewrite Hrun, Hloop. eexists (_ :: evs). split; [done|].
  change (saved (_ :: evs)) with (saved evs).
  destruct Hsaved as [Hnone|(rs & w3 & cur2 & before & after & Hfiles & Hfin
                              & -> & Hbefore & Hsb & Hafter & Hsa)];
    [by left|].
  right.
  exists job, (job_state st w1 job running [EvUpdateJob running]),
    (job_state st w3 job cur2 ([EvUpdateJob running] ++ before)), rs,
    (EvUpdateJob running :: before), after.
  split; [by unfold GetJob; rewrite Hjob|]. split; [exact Hstart|].
  split; [exact Hfiles|]. split; [symmetry; exact Hfin|].
  split; [done|]. split; [done|]. split; [done|]. split; [done|].
  split; [done|]. split; [done|].
  by eapply files_embedded_length.
Qed.

End SavedResultsTheorem.

(** ** The handlers *)







Section HandlerFacts.
Context `{GoRuntime} {W Body : Type} `{World W Body}.
Variable config : Config.
Variable limits : Limits.

(** X22.  The handler [Embed] never answers with the status 500:
    when it returns it answers 200, 400 or 413.  It answers 200 only
    for a request within the batch limit, with a chunk size from 0 to
    the configured maximum and a strategy that is empty, "truncate" or
    "split", and then with the response of [GenerateEmbeddings]; every
    refusal leaves the state of the process as it was. *)
Theorem Embed_replies (bound : result EmbedRequest) (st : State W) :
  match Handler.Embed config limits bound st with
  | (Returns (JSON code obj), st') =>
      (code = 200
       ∧ ∃ req resp,
           bound = ROk req ∧ obj = JEmbed (Some resp)
           ∧ GenerateEmbeddings config req st = (Returns (Some resp, None), st')
           ∧ GoInt.len (Inputs req) ≤ MaxBatchSize limits
           ∧ 0 ≤ ChunkSize req ≤ MaxChunkSize config
           ∧ (TruncateStrategy req = "" ∨ TruncateStrategy req = "truncate"
              ∨ TruncateStrategy req = "split"))
      ∨ (code = 400 ∧ st' = st
         ∧ ∃ message, obj = JError {| Code := "invalid_request"; Message := message |})
      ∨ (code = 413 ∧ st' = st
         ∧ ∃ req, bound = ROk req ∧ MaxBatchSize limits < GoInt.len (Inputs req))
  | (Returns (File _), _) => False
  | _ => True
  end.
Proof.
  unfold Handler.Embed, Handler.invalid_request.
  destruct bound as [req|err]; [|right; left; cbn; eauto].
  destruct (Z.gtb_spec (GoInt.len (Inputs req)) (MaxBatchSize limits)) as [Hbatch|Hbatch].
  { right; right. cbn. split; [done|]. split; [done|]. exists req. split; [done|lia]. }
  destruct (Z.ltb_spec (ChunkSize req) 0) as [|Hcs0]; cbn [orb].
  { right; left. cbn. eauto. }
  destruct (Z.gtb_spec (ChunkSize req) (MaxChunkSize config)) as [|Hcs1].
  { right; left. cbn. eauto. }
  destruct (negb (String.eqb (TruncateStrategy req) "")
            && negb (String.eqb (TruncateStrategy req) "truncate")
            && negb (String.eqb (TruncateStrategy req) "split")) eqn:Hbad.
  { right; left. cbn. eauto. }
  assert (TruncateStrategy req = "" ∨ TruncateStrategy req = "truncate"
          ∨ TruncateStrategy req = "split") as Hstrategy.
  { destruct (String.eqb_spec (TruncateStrategy req) ""); [by left|].
    destruct (String.eqb_spec (TruncateStrategy req) "truncate"); [by right; left|].
    destruct (String.eqb_spec (TruncateStrategy req) "split"); [by right; right|].
    discriminate Hbad. }
  unfold mbind, M_bind, bind.
  pose proof (GenerateEmbeddings_no_error config req st) as Hno.
  destruct (GenerateEmbeddings config req st) as [[[resp err]| |] st'] eqn:Hrun;
    [|done|done].
  destruct Hno as [[r ->] ->]. cbn. left. split; [done|].
  exists req, r. split; [done|]. split; [done|]. split; [done|].
  split; [lia|]. split; [lia|done].
Qed.

Lemma results_ids normalize chunkSize strategy inputs results :
  Forall2 (result_for (W := W) config normalize chunkSize strategy) inputs results →
  Result_ID <$> results = InputItem_ID <$> inputs.
Proof.
  induction 1 as [|input result inputs results [Hid _] _ IH]; [done|].
  cbn. by rewrite Hid, IH.
Qed.

(** X23.  The handler [Embed] answers a valid request that passes
    its three checks with the status 200 and one result per input. *)
Theorem Embed_accepts (req : EmbedRequest) (st : State W)
    (Hbatch : GoInt.len (Inputs req) ≤ MaxBatchSize limits)
    (Hchunk : 0 ≤ ChunkSize req ≤ MaxChunkSize config)
    (Hstrategy : TruncateStrategy req = "" ∨ TruncateStrategy req = "truncate"
                 ∨ TruncateStrategy req = "split")
    (Hvalid : valid_request config req) :
  ∃ (results : list EmbedResult) (st' : State W),
    Handler.Embed config limits (ROk req) st
    = (Returns (JSON 200 (JEmbed (Some {| Results := results |}))), st')
    ∧ Result_ID <$> results = InputItem_ID <$> Inputs req.
Proof.
  destruct (GenerateEmbeddings_returns config req st Hvalid) as (rs & w & Hrun & Hrs).
  exists rs, (set_world w st). split.
  - unfold Handler.Embed.
    destruct (Z.gtb_spec (GoInt.len (Inputs req)) (MaxBatchSize limits)); [lia|].
    destruct (Z.ltb_spec (ChunkSize req) 0); [lia|]. cbn [orb].
    destruct (Z.gtb_spec (ChunkSize req) (MaxChunkSize config)); [lia|].
    assert (negb (String.eqb (TruncateStrategy req) "")
            && negb (String.eqb (TruncateStrategy req) "truncate")
            && negb (String.eqb (TruncateStrategy req) "split") = false) as ->.
    { destruct Hstrategy as [-> | [-> | ->]]; done. }
    unfold mbind, M_bind, bind. by rewrite Hrun.
  - by eapply results_ids.
Qed.

End HandlerFacts.

Ltac refused n :=
  unfold mret, M_ret, ret; cbv beta iota; right; split; [done|];
  lazymatch n with
  | 0 => left; split; [done|]; by eexists
  | 1 => right; left; split; [done|]; by eexists
  | 2 => right; right; split; [done|]; split; [done|];
         eexists _, _; split; [done|];
         match goal with Hr : Upload_ReadAll _ = _ |- _ => by rewrite Hr end
  end.

Section HandlerFacts2.
Context `{GoRuntime} {W Body : Type} `{World W Body}.
Variable config : Config.
Variable limits : Limits.

(** X24.  The handler [EmbedFile] answers 200 only with the response
    of [GenerateEmbeddings] for one input, the text extracted from the
    upload under the name of the file, with the strategy of the form,
    "split" when the form has none, with the configured default chunk
    size whatever the form says, and normalised unless the form has a
    value other than "true" for [normalize].  It answers 500 only when
    the upload cannot be read; every refusal leaves the state of the
    process as it was. *)
Theorem EmbedFile_replies (formFile : result Upload) (form : string → option string)
    (st : State W) :
  match Handler.EmbedFile config limits formFile form st with
  | (Returns (JSON code obj), st') =>
      (code = 200
       ∧ ∃ header content text resp,
           formFile = ROk header
           ∧ Upload_ReadAll header = (content, None)
           ∧ ExtractTextFromFile (Filename header) content = ROk text
           ∧ obj = JEmbed (Some resp)
           ∧ GenerateEmbeddings config
               {| Req_Model := default (EmbeddingModel limits) (form "model");
                  Inputs := [ {| InputItem_ID := Filename header;
                                 InputItem_Text := text |} ];
                  TruncateStrategy := default "split" (form "truncate_strategy");
                  ChunkSize := DefaultChunkSize config;
                  Normalize := String.eqb (default "true" (form "normalize")) "true" |}
               st
             = (Returns (Some resp, None), st'))
      ∨ (st' = st
         ∧ ((code = 400
             ∧ ∃ message,
                 obj = JError {| Code := "invalid_request"; Message := message |})
            ∨ (code = 413 ∧ ∃ header, formFile = ROk header)
            ∨ (code = 500
               ∧ obj = JError {| Code := "internal_error";
                                 Message := "Failed to read file" |}
               ∧ ∃ header err, formFile = ROk header
                               ∧ (Upload_ReadAll header).2 = Some err)))
  | (Returns (File _), _) => False
  | _ => True
  end.
Proof.
  unfold Handler.EmbedFile, Handler.invalid_request, Handler.internal_error,
    Handler.DefaultPostForm.
  destruct formFile as [header|e0]; [|refused 0]. cbv zeta.
  destruct (_ && _); [refused 0|].
  destruct (gt64 _ _); [refused 1|].
  destruct (Upload_ReadAll header) as [content [e1|]] eqn:Hread; [refused 2|].
  destruct (ExtractTextFromFile (Filename header) content) as [text|e2] eqn:Htext;
    [|refused 0].
  unfold mbind, M_bind, bind.
  match goal with
  | |- context [GenerateEmbeddings config ?r st] =>
      pose proof (GenerateEmbeddings_no_error config r st) as Hno;
      destruct (GenerateEmbeddings config r st) as [[[resp e]| |] st'] eqn:Hrun
  end; [|done|done].
  destruct Hno as [[r ->] ->]. cbn. left. split; [done|].
  exists header, content, text, r. done.
Qed.


End HandlerFacts2.

(** ** The middleware *)

Lemma cut_space_Some (s before after : string) :
  cut_space s = Some (before, after)
  ↔ s = before +:+ String " " after ∧ " "%char ∉ list_ascii_of_string before.
Proof.
  revert before. induction s as [|c s IH]; intros before; cbn [cut_space].
  - split; [done|]. intros [Hs _]. by destruct before.
  - destruct (Ascii.eqb_spec c " ") as [->|Hc].
    + split.
      * intros [= <- <-]. split; [done|]. cbn. apply not_elem_of_nil.
      * intros [Hs Hno]. destruct before as [|c' before'].
        -- change (String " " s = String " " after) in Hs. congruence.
        -- change (String " " s = String c' (before' +:+ String " " after)) in Hs.
           injection Hs as <- _. cbn in Hno. apply not_elem_of_cons in Hno. tauto.
    + destruct (cut_space s) as [[b a]|] eqn:Hcut.
      * split.
        -- intros [= <- <-]. destruct (IH b) as [[-> Hno] _]; [done|].
           split; [done|]. cbn. apply not_elem_of_cons. done.
        -- intros [Hs Hno]. destruct before as [|c' before'].
           { change (String c s = String " " after) in Hs. congruence. }
           change (String c s = String c' (before' +:+ String " " after)) in Hs.
           injection Hs as <- Hs. cbn in Hno. apply not_elem_of_cons in Hno as [_ Hno].
           destruct (IH before') as [_ Hback].
           specialize (Hback (conj Hs Hno)). congruence.
      * split; [done|]. intros [Hs Hno]. destruct before as [|c' before'].
        { change (String c s = String " " after) in Hs. congruence. }
        change (String c s = String c' (before' +:+ String " " after)) in Hs.
        injection Hs as <- Hs. cbn in Hno. apply not_elem_of_cons in Hno as [_ Hno].
        destruct (IH before') as [_ Hback]. specialize (Hback (conj Hs Hno)). done.
Qed.

Section AuthFacts.
Context `{GoRuntime}.
Variable cfg : Limits.

Lemma valid_token_spec (token : string) (keys : list string) :
  Middleware.valid_token token keys = true
  ↔ ∃ key, key ∈ keys ∧ token = strings_TrimSpace key.
Proof.
  induction keys as [|key rest IH]; cbn [Middleware.valid_token].
  - split; [done|]. intros (key & Hin & _). by apply elem_of_nil in Hin.
  - destruct (String.eqb_spec token (strings_TrimSpace key)) as [Heq|Hne].
    + split; [|done]. intros _. exists key. split; [by left|done].
    + rewrite IH. split.
      * intros (k & Hin & Hk). exists k. split; [by right|done].
      * intros (k & Hin & Hk). apply elem_of_cons in Hin as [->|Hin]; [done|eauto].
Qed.

(** X26.  [AuthMiddleware] lets a request through exactly when it
    carries the configured RapidAPI proxy secret, a secret being
    configured, or an [Authorization] header made of a scheme that is
    "bearer" in lower case, one space, and a token equal to one of the
    configured API keys with its surrounding blanks removed; every
    other request is stopped with the status 401 and the code
    [unauthorized]. *)
Theorem AuthMiddleware_admits (GetHeader : string → string) :
  ((∃ keys, Middleware.AuthMiddleware cfg GetHeader = Middleware.Next keys)
   ↔ (((RapidAPIProxySecret cfg ≠ "")
       ∧ GetHeader "X-RapidAPI-Proxy-Secret" = RapidAPIProxySecret cfg)
      ∨ (∃ scheme token key,
           GetHeader "Authorization" = scheme +:+ String " " token
           ∧ (" "%char ∉ list_ascii_of_string scheme)
           ∧ strings_ToLower scheme = "bearer"
           ∧ key ∈ APIKeys cfg ∧ token = strings_TrimSpace key)))
  ∧ ((∃ keys, Middleware.AuthMiddleware cfg GetHeader = Middleware.Next keys)
     ∨ ∃ message,
         Middleware.AuthMiddleware cfg GetHeader
         = Middleware.AbortWithStatusJSON 401
             {| Code := "unauthorized"; Message := message |}).
Proof.
  unfold Middleware.AuthMiddleware, Middleware.unauthorized. cbv zeta.
  destruct (String.eqb_spec (RapidAPIProxySecret cfg) "") as [Hsecret|Hsecret];
    cbn [negb].
  2: destruct (String.eqb_spec (GetHeader "X-RapidAPI-Proxy-Secret")
                 (RapidAPIProxySecret cfg)) as [Hhdr|Hhdr].
  2:{ split; [|by eauto]. split; [by left|by eauto]. }
  all: assert (Hrapid : ¬ (RapidAPIProxySecret cfg ≠ ""
                           ∧ GetHeader "X-RapidAPI-Proxy-Secret"
                             = RapidAPIProxySecret cfg)) by tauto;
    clear Hsecret; try clear Hhdr.
  all: destruct (String.eqb_spec (GetHeader "Authorization") "") as [Hauth|Hauth].
  1,3: split; [|by eauto]; split; [by intros [? [=]]|];
       intros [?|(scheme & token & key & Hs & _)]; [done|];
       rewrite Hs in Hauth; by destruct scheme.
  all: unfold SplitN_space_2;
    destruct (cut_space (GetHeader "Authorization")) as [[scheme token]|] eqn:Hcut.
  2,4: split; [|by eauto]; split; [by intros [? [=]]|];
       intros [?|(scheme & token & key & Hs & Hno & _)]; [done|];
       assert (cut_space (GetHeader "Authorization") = Some (scheme, token)) as Hc
         by (by apply cut_space_Some);
       congruence.
  all: apply cut_space_Some in Hcut as [Hs Hno].
  all: destruct (String.eqb_spec (strings_ToLower scheme) "bearer") as [Hb|Hb];
    cbn [negb].
  2,4: split; [|by eauto]; split; [by intros [? [=]]|];
       intros [?|(scheme' & token' & key & Hs' & Hno' & Hb' & _)]; [done|];
       assert (cut_space (GetHeader "Authorization") = Some (scheme, token)) as Hc1
         by (by apply cut_space_Some);
       assert (cut_space (GetHeader "Authorization") = Some (scheme', token')) as Hc2
         by (by apply cut_space_Some);
       congruence.
  all: destruct (Middleware.valid_token token (APIKeys cfg)) eqn:Hvalid; cbn [negb].
  1,3: split; [|by eauto]; split; [intros _|by eauto];
       apply valid_token_spec in Hvalid as (key & Hin & Hk); right;
       by exists scheme, token, key.
  all: split; [|by eauto]; split; [by intros [? [=]]|];
    intros [?|(scheme' & token' & key & Hs' & Hno' & _ & Hin & Hk)]; [done|];
    assert (cut_space (GetHeader "Authorization") = Some (scheme, token)) as Hc1
      by (by apply cut_space_Some);
    assert (cut_space (GetHeader "Authorization") = Some (scheme', token')) as Hc2
      by (by apply cut_space_Some);
    assert (token' = token) as -> by congruence;
    assert (Middleware.valid_token token (APIKeys cfg) = true)
      by (apply valid_token_spec; eauto);
    congruence.
Qed.

End AuthFacts.

Section RateFacts.
Context {L W : Type} `{Middleware.RateLib L W}.

(** X27.  Rate limiting is per client: a request is counted against
    the limiter of its client identifier, the RapidAPI user when the
    request names one, else the [Authorization] header, else the IP
    address; that limiter is made with the configured rate and burst
    the first time the client is seen and kept afterwards; the limiter
    of every other client is left as it was; and the request is
    stopped with 429 exactly when its limiter does not allow it. *)
Theorem RateLimitMiddleware_per_client (limiter : Middleware.RateLimiter)
    (GetHeader : string → string) (ClientIP : string) (w : W) :
  let clientID := Middleware.clientID_of GetHeader ClientIP in
  let l0 := default (Middleware.rate_NewLimiter (Middleware.rate limiter)
                       (Middleware.burst limiter))
                    (Middleware.clients limiter !! clientID) in
  ∃ allowed l' w' limiter',
    Middleware.Limiter_Allow l0 w = (allowed, l', w')
    ∧ Middleware.RateLimitMiddleware limiter GetHeader ClientIP w
      = (if allowed then Middleware.Next []
         else Middleware.AbortWithStatusJSON 429
                {| Code := "too_many_requests";
                   Message := "Rate limit exceeded. Please slow down." |},
         limiter', w')
    ∧ Middleware.clients limiter' !! clientID = Some l'
    ∧ (∀ other, other ≠ clientID →
         Middleware.clients limiter' !! other = Middleware.clients limiter !! other)
    ∧ Middleware.rate limiter' = Middleware.rate limiter
    ∧ Middleware.burst limiter' = Middleware.burst limiter
    ∧ (clientID = (if String.eqb (GetHeader "X-RapidAPI-User") "" then
                     if String.eqb (GetHeader "Authorization") "" then ClientIP
                     else GetHeader "Authorization"
                   else GetHeader "X-RapidAPI-User")).
Proof.
  cbn zeta. unfold Middleware.RateLimitMiddleware, Middleware.GetLimiter.
  set (clientID := Middleware.clientID_of GetHeader ClientIP).
  destruct (Middleware.clients limiter !! clientID) as [l|] eqn:Hl; cbn [default].
  - destruct (Middleware.Limiter_Allow l w) as [[allowed l'] w'] eqn:Hallow.
    eexists allowed, l', w', _. split; [done|]. split; [by destruct allowed|].
    cbn. split; [apply lookup_insert_eq|]. split; [|split; [done|split; [done|]]].
    + intros other Hne. by rewrite lookup_insert_ne.
    + unfold clientID, Middleware.clientID_of. cbv zeta.
      destruct (String.eqb (GetHeader "X-RapidAPI-User") "") eqn:Huser; [done|].
      by rewrite Huser.
  - destruct (Middleware.Limiter_Allow _ w) as [[allowed l'] w'] eqn:Hallow.
    eexists allowed, l', w', _. split; [done|]. split; [by destruct allowed|].
    cbn. split; [apply lookup_insert_eq|]. split; [|split; [done|split; [done|]]].
    + intros other Hne. by rewrite !lookup_insert_ne.
    + unfold clientID, Middleware.clientID_of. cbv zeta.
      destruct (String.eqb (GetHeader "X-RapidAPI-User") "") eqn:Huser; [done|].
      by rewrite Huser.
Qed.

End RateFacts.

(** ** Runs of the program

    The program on given inputs, in the runtime and the worlds of
    [Sim]. *)

Import Sim.

(** A text of eleven code points in chunks of four. *)
Lemma chunkText_split_covers_witness :
  ∃ chunks : list TextChunk,
    chunkText (H := runtime) "doc" "hello world" 4 "split" = Returns chunks
    ∧ GoInt.len chunks = 3
    ∧ contiguous_cover 0 chunks 11.
Proof.
  destruct (chunkText_split_covers (H := runtime) "doc" "hello world" 4)
    as (chunks & Hrun & Hlen & Hcover & _).
  - lia.
  - unfold GoInt.max_int. lia.
  - vm_compute. reflexivity.
  - exists chunks. split; [exact Hrun|]. split; [exact Hlen|exact Hcover].
Defined.

(** With the strategy "foo" a text of eleven code points and a chunk
    size of four gives three chunks, as with "split"; with "truncate"
    it gives one. *)
Lemma GenerateEmbeddings_invalid_strategy_splits :
  GenerateEmbeddings small_config (hello_request "foo") (init empty_world)
  ≠ GenerateEmbeddings small_config (hello_request "truncate") (init empty_world)
  ∧ chunk_counts
      (GenerateEmbeddings small_config (hello_request "foo") (init empty_world)).1
    = [3%nat]
  ∧ chunk_counts
      (GenerateEmbeddings small_config (hello_request "truncate") (init empty_world)).1
    = [1%nat].
Proof.
  split; [|split; vm_compute; reflexivity].
  intros Heq. apply (f_equal (λ r, chunk_counts r.1)) in Heq.
  vm_compute in Heq. discriminate Heq.
Qed.

(** The mock backend with a dimension of four. *)
Lemma generateEmbedding_length_witness :
  ∃ (v : slice float32) (st' : State env),
    generateEmbedding small_config "hello" true (init empty_world) = (Returns v, st')
    ∧ GoInt.len (elems v) = 4.
Proof.
  destruct (generateEmbedding_length small_config "hello" true (init empty_world))
    as (v & st' & Hrun & Hlen & _).
  - vm_compute. discriminate.
  - exists v, st'. split; [exact Hrun|]. apply Hlen. discriminate.
Defined.

(** The Ollama backend answers with a vector of one component while the
    configured dimension is 512. *)
Lemma generateEmbedding_ollama_length :
  ∃ (v : slice float32) (st' : State env),
    generateEmbedding ollama_config "hello" false
      (init (ollama_world (Some [one32])))
    = (Returns v, st')
    ∧ GoInt.len (elems v) = 1
    ∧ EmbeddingDimension ollama_config = 512.
Proof. eexists _, _. split; [vm_compute; reflexivity|]. split; reflexivity. Qed.

(** A text longer than the chunk size, with the mock backend. *)
Lemma GenerateEmbeddings_payload_witness :
  ∃ (results : list EmbedResult) (st' : State env),
    GenerateEmbeddings small_config (hello_request "split") (init empty_world)
    = (Returns (Some {| Results := results |}, None), st')
    ∧ Forall exactly_one_payload results.
Proof.
  destruct (GenerateEmbeddings_payload small_config (hello_request "split")
              (init empty_world)) as (results & st' & Hrun & Hall).
  - split; [vm_compute; discriminate|]. split.
    + vm_compute. split; [reflexivity|discriminate].
    + repeat constructor.
  - exists results, st'. split; [exact Hrun|].
    clear Hrun. induction Hall as [|input result inputs rs Hr _ IH];
      constructor; [|exact IH].
    destruct Hr as (_ & _ & [Hone|[Hp _]]); [exact Hone|discriminate Hp].
Defined.

(** The Ollama backend answers 200 with a null vector: the result has
    neither an embedding nor chunks. *)
Lemma GenerateEmbeddings_no_payload :
  ∃ (result : EmbedResult) (st' : State env),
    GenerateEmbeddings ollama_config scenario_request (init (ollama_world None))
    = (Returns (Some {| Results := [result] |}, None), st')
    ∧ Embeddings result = None ∧ Chunks result = None
    ∧ ¬ exactly_one_payload result.
Proof.
  eexists _, _. split; [vm_compute; reflexivity|]. cbn.
  split; [done|]. split; [done|].
  intros [[[v Hv] _]|[_ [cs Hcs]]]; discriminate.
Qed.

(** The job of one file that is on disk. *)
Lemma progress_non_decreasing_witness :
  ∃ evs,
    trace (processJob small_config 0 "job-0" (submitted file_world ["/data/a.txt"] "")).2
    = trace (submitted file_world ["/data/a.txt"] "") ++ evs
    ∧ non_decreasing_from 0 (Progress <$> writes evs).
Proof.
  destruct (progress_non_decreasing small_config 0 "job-0"
              (submitted file_world ["/data/a.txt"] "")
              (submitted_job ["/data/a.txt"] ""))
    as (evs & Htrace & Hsorted & _).
  - vm_compute. reflexivity.
  - repeat split.
  - vm_compute. discriminate.
  - exists evs. split; [exact Htrace|exact Hsorted].
Defined.

(** The job of one file: the write after the file has progress 100 and
    status [running]. *)
Lemma progress_100_while_running :
  ∃ j : Job,
    writes (trace (processJob small_config 0 "job-0"
                     (submitted file_world ["/data/a.txt"] "")).2) !! 2%nat
    = Some j
    ∧ Status j = "running" ∧ Progress j = 100.
Proof. eexists. split; [vm_compute; reflexivity|]. split; reflexivity. Qed.

(** A job of two files, the first of which is neither on disk nor
    served: the second is left alone. *)
Lemma failure_aborts_job_witness :
  ∃ (st' : State env) (t : Z),
    let failed := job_with (submitted_job ["/data/missing.txt"; "/data/a.txt"] "")
                    "failed" 0 []
                    (Some {| Code := "download_failed";
                             Message := "Get /data/missing.txt: connection refused" |})
                    t in
    process_files small_config (GenerateEmbeddings small_config) 1%positive 2 0
      ["/data/missing.txt"; "/data/a.txt"] [] (finish_job small_config 1%positive)
      (submitted file_world ["/data/missing.txt"; "/data/a.txt"] "")
    = (Returns tt, st')
    ∧ stored st' "job-0" = Some failed
    ∧ trace st' = trace (submitted file_world ["/data/missing.txt"; "/data/a.txt"] "")
                  ++ [EvDownloadFile "/data/missing.txt"; EvUpdateJob failed;
                      EvSendCallback failed].
Proof.
  apply (failure_aborts_job small_config (GenerateEmbeddings small_config)
           (finish_job small_config 1%positive) 1%positive 2 0
           "/data/missing.txt" ["/data/a.txt"] []
           (submitted file_world ["/data/missing.txt"; "/data/a.txt"] "")
           (submitted_job ["/data/missing.txt"; "/data/a.txt"] "")
           "download_failed" "Get /data/missing.txt: connection refused").
  - apply GenerateEmbeddings_world_only.
  - vm_compute. reflexivity.
  - vm_compute. reflexivity.
  - vm_compute. reflexivity.
Defined.



(** The job whose file is on disk.  The run of [processJob] assigns
    [job.Status = "completed"] before it assigns [job.ResultURLs]; in
    between, the record that the registry holds is completed without a
    result URL. *)
Lemma stored_completed_without_result_urls :
  ∃ (st1 st2 st3 st4 : State env) (results : list EmbedResponse) (url : string)
    (j : Job),
    started 1%positive (submitted file_world ["/data/a.txt"] "") st1
    ∧ files_embedded small_config 1%positive 1 0 ["/data/a.txt"] st1 results st2
    ∧ saveResults small_config "job-0" results st2 = (Returns (ROk url), st3)
    ∧ assign 1%positive (set_Status "completed") st3 = (Returns tt, st4)
    ∧ processJob small_config 0 "job-0" (submitted file_world ["/data/a.txt"] "")
      = (assign 1%positive (set_Progress 100);;
         assign 1%positive (set_ResultURLs [url]);;
         UpdateJob 1%positive;;
         sendCallback 1%positive) st4
    ∧ stored st4 "job-0" = Some j
    ∧ Status j = "completed" ∧ ResultURLs j = []
    ∧ ¬ populated_ok j.
Proof.
  eexists _, _, _, _, _, _, _.
  split; [vm_compute; reflexivity|].
  split.
  { eapply files_embedded_cons; [vm_compute; reflexivity|vm_compute; reflexivity
      |vm_compute; reflexivity|vm_compute; reflexivity|done|vm_compute; reflexivity|].
    apply files_embedded_nil. }
  split; [vm_compute; reflexivity|]. split; [vm_compute; reflexivity|].
  split; [vm_compute; reflexivity|]. split; [vm_compute; reflexivity|].
  split; [reflexivity|]. split; [reflexivity|].
  intros [[_ Hcompleted] _]. by apply (Hcompleted eq_refl).
Qed.

(** The state after a job has been created and processed. *)
Lemma embedding_failed_unreachable_witness :
  no_code "embedding_failed"
    (processJob small_config 0 "job-0"
       (submitted file_world ["/data/a.txt"] "")).2.
Proof.
  apply (embedding_failed_unreachable small_config).
  apply reach_processJob.
  apply (reach_CreateJob small_config (init file_world)).
  apply reach_start.
Defined.

(** Two identifiers are enqueued and one is dequeued. *)
Lemma jobQueue_backpressure_witness :
  JobQueue.submitted [JobQueue.EnqueueJob "job-0"; JobQueue.EnqueueJob "job-1";
                      JobQueue.Receive 0]
  = ["job-0"] ++ ["job-1"] ++ [].
Proof.
  apply (jobQueue_backpressure
           [JobQueue.EnqueueJob "job-0"; JobQueue.EnqueueJob "job-1";
            JobQueue.Receive 0]).
Defined.

(** ** Further runs *)

Import Cases.

Lemma store_ok_init (w : env) : store_ok (init w).
Proof.
  split; cbn.
  - intros jobID p Hp. by rewrite lookup_empty in Hp.
  - intros p [j Hp]. by rewrite lookup_empty in Hp.
Qed.

Lemma store_ok_submitted (w : env) files callbackURL :
  store_ok (submitted w files callbackURL).
Proof. apply store_ok_CreateJob, store_ok_init. Qed.

(** "hello world" in chunks of four, truncated: one chunk, [0, 4). *)
Lemma GenerateEmbeddings_truncate_first_chunk_witness :
  ∃ (results : list EmbedResult) (st' : State env),
    GenerateEmbeddings small_config (hello_request "truncate") (init empty_world)
    = (Returns (Some {| Results := results |}, None), st')
    ∧ Forall2 (λ input result,
                 effective_chunkSize small_config (hello_request "truncate")
                 < utf8_RuneCountInString (InputItem_Text input) →
                 first_chunk_result (W := env) small_config
                   (Normalize (hello_request "truncate"))
                   (effective_chunkSize small_config (hello_request "truncate"))
                   input result)
              (Inputs (hello_request "truncate")) results.
Proof.
  apply (GenerateEmbeddings_truncate_first_chunk small_config (hello_request "truncate")
           (init empty_world)).
  - split; [vm_compute; discriminate|]. split.
    + vm_compute. split; [reflexivity|discriminate].
    + repeat constructor.
  - reflexivity.
Defined.

(** "hello world" in chunks of four. *)
Lemma GenerateEmbeddings_chunks_within_witness :
  ∃ (results : list EmbedResult) (st' : State env),
    GenerateEmbeddings small_config (hello_request "split") (init empty_world)
    = (Returns (Some {| Results := results |}, None), st')
    ∧ effective_chunkSize small_config (hello_request "split")
      ≤ MaxChunkSize small_config
    ∧ Forall2 (λ input result,
                 Forall (chunk_within (utf8_RuneCountInString (InputItem_Text input))
                           (effective_chunkSize small_config (hello_request "split")))
                        (elems (Chunks result)))
              (Inputs (hello_request "split")) results.
Proof.
  apply (GenerateEmbeddings_chunks_within small_config (hello_request "split")
           (init empty_world)).
  split; [vm_compute; discriminate|]. split.
  - vm_compute. split; [reflexivity|discriminate].
  - repeat constructor.
Defined.

(** "hello world" in chunks of four. *)
Lemma GenerateEmbeddings_chunk_ids_witness :
  ∃ (results : list EmbedResult) (st' : State env),
    GenerateEmbeddings small_config (hello_request "split") (init empty_world)
    = (Returns (Some {| Results := results |}, None), st')
    ∧ Forall2 (λ input result,
                 NoDup (Chunk_ChunkID <$> elems (Chunks result))
                 ∧ ∀ (k : nat) c, elems (Chunks result) !! k = Some c →
                     Chunk_ChunkID c
                     = InputItem_ID input +:+ "_" +:+ pretty (Z.of_nat k))
              (Inputs (hello_request "split")) results.
Proof.
  apply (GenerateEmbeddings_chunk_ids small_config (hello_request "split")
           (init empty_world)).
  split; [vm_compute; discriminate|]. split.
  - vm_compute. split; [reflexivity|discriminate].
  - repeat constructor.
Defined.

(** The request of the worker when the default chunk size is zero. *)
Lemma GenerateEmbeddings_zero_chunkSize_witness :
  (GenerateEmbeddings (chunk_config 0) worker_request (init empty_world)).1 = Diverges
  ∧ ∀ fuel : nat,
      chunkText_split fuel "a.txt" (runes_of "hello world") 0 0 0 [] = Diverges.
Proof.
  apply (GenerateEmbeddings_zero_chunkSize (chunk_config 0) worker_request
           {| InputItem_ID := "a.txt"; InputItem_Text := "hello world" |} []
           (init empty_world)).
  - reflexivity.
  - discriminate.
  - reflexivity.
  - vm_compute. split; reflexivity.
Defined.

(** The request of the worker when the default chunk size is -1. *)
Lemma GenerateEmbeddings_negative_chunkSize_witness :
  (GenerateEmbeddings (chunk_config (-1)) worker_request (init empty_world)).1 = Panics.
Proof.
  apply (GenerateEmbeddings_negative_chunkSize (chunk_config (-1)) worker_request
           {| InputItem_ID := "a.txt"; InputItem_Text := "hello world" |} []
           (init empty_world)).
  - vm_compute. split; [discriminate|reflexivity].
  - reflexivity.
  - vm_compute. reflexivity.
Defined.

(** The mock provider. *)
Lemma GenerateEmbeddings_local_provider_witness :
  ∃ o, ∀ st : State env,
    GenerateEmbeddings small_config (hello_request "split") st = (o, st).
Proof.
  apply (GenerateEmbeddings_local_provider small_config (hello_request "split")).
  discriminate.
Defined.

(** The vector whose only component is 2^-80 is returned as it is. *)
Lemma normalizeL2_underflow_witness :
  eqb64 (normalizeL2_norm (Some [tiny])) zero64 = true
  ∧ normalizeL2 (Some [tiny]) = Some [tiny].
Proof.
  apply (normalizeL2_underflow (Some [tiny])).
  constructor; [vm_compute; reflexivity|constructor].
Defined.

(** The text object [BT(Hello)ET]. *)
Lemma extractPDFText_text_object_witness :
  extractPDFText_result "BT(Hello)ET" = "Hello ".
Proof.
  apply (extractPDFText_text_object "Hello").
  intros Hin. repeat (apply elem_of_cons in Hin as [Hin|Hin]; [discriminate Hin|]).
  by apply elem_of_nil in Hin.
Defined.

(** The state after a job has been created and processed. *)
Lemma reachable_store_ok_witness :
  store_ok processed
  ∧ ∀ jobID job,
      GetJob jobID processed = (Returns (Some job), processed) →
      ∃ j, load job processed = (Returns j, processed) ∧ JobID j = jobID.
Proof.
  apply (reachable_store_ok small_config processed).
  apply reach_processJob.
  apply (reach_CreateJob small_config (init file_world)).
  apply reach_start.
Defined.

(** A second job is created after the first. *)
Lemma CreateJob_isolated_witness :
  ∃ (job : loc) (j : Job) (st' : State env),
    CreateJob ["/data/b.txt"] "embed-large-512" "" created = (Returns job, st')
    ∧ GetJob (JobID j) st' = (Returns (Some job), st')
    ∧ load job st' = (Returns j, st')
    ∧ Files j = ["/data/b.txt"] ∧ Model j = "embed-large-512" ∧ CallbackURL j = ""
    ∧ (∀ jobID, jobID ≠ JobID j → stored st' jobID = stored created jobID)
    ∧ store_ok st'.
Proof.
  apply (CreateJob_isolated ["/data/b.txt"] "embed-large-512" "" created).
  apply store_ok_submitted.
Defined.

(** The executor marks the job as running through its pointer. *)
Lemma GetJob_aliases_witness :
  (∃ st', assign 1%positive (set_Status "running") created = (Returns tt, st')
          ∧ stored st' "job-0" = Some (set_Status "running" created_job)
          ∧ trace st' = trace created)
  ∧ (∃ t st', UpdateJob 1%positive created = (Returns tt, st')
              ∧ jobStore st' = jobStore created
              ∧ heap st' = <[1%positive := set_UpdatedAt t created_job]> (heap created)
              ∧ stored st' "job-0" = Some (set_UpdatedAt t created_job)).
Proof.
  apply (GetJob_aliases "job-0" created 1%positive created_job (set_Status "running"));
    vm_compute; reflexivity.
Defined.

(** One job, queued. *)
Lemma GetQueueDepth_counts_witness :
  GetQueueDepth created = (Returns (Z.of_nat (size (pending_jobs created))), created)
  ∧ Handler.Health created
    = (Returns (JSON 200 (JHealth {| Health_Status := "ok"; Version := "1.0.0";
                  QueueDepth := Z.of_nat (size (pending_jobs created)) |})),
       created).
Proof.
  destruct (GetQueueDepth_counts created) as (Hdepth & Hhealth & _).
  - apply store_ok_submitted.
  - vm_compute. discriminate.
  - split; [exact Hdepth|exact Hhealth].
Defined.

(** The registry with one job, visited in the order of [map_to_list]. *)
Lemma ListJobs_every_job_witness :
  ∃ statuses,
    Handler.ListJobs map_to_list created = (Returns (JSON 200 (JJobs statuses)), created)
    ∧ length statuses = size (jobs (jobStore created)).
Proof.
  destruct (ListJobs_every_job map_to_list created) as (statuses & Hrun & _ & _ & Hlen).
  - reflexivity.
  - apply store_ok_submitted.
  - exists statuses. split; [exact Hrun|exact Hlen].
Defined.

(** The results of the job [job-0], none, are persisted. *)
Lemma saveResults_url_witness :
  "/v1/results/job-0_results.json" = "/v1/results/" +:+ results_filename "job-0"
  ∧ ∃ data w1,
      json_MarshalIndent_results [] = ROk data
      ∧ os_MkdirAll (StoragePath small_config) 493 (world (init empty_world))
        = (None, w1)
      ∧ os_WriteFile (filepath_Join (StoragePath small_config) (results_filename "job-0"))
          data 420 w1
        = (None, world (saveResults small_config "job-0" [] (init empty_world)).2)
      ∧ Handler.GetResults small_config (results_filename "job-0")
        = File (filepath_Join (StoragePath small_config) (results_filename "job-0")).
Proof.
  apply (saveResults_url small_config "job-0" [] (init empty_world)
           (saveResults small_config "job-0" [] (init empty_world)).2
           "/v1/results/job-0_results.json").
  - vm_compute. reflexivity.
  - vm_compute. reflexivity.
Defined.

(** The job has no callback URL. *)
Lemma sendCallback_best_effort_witness :
  ∃ st', sendCallback 1%positive created = (Returns tt, st')
    ∧ heap st' = heap created
    ∧ jobStore st' = jobStore created
    ∧ trace st' = trace created ++ [EvSendCallback created_job]
    ∧ (CallbackURL created_job = "" → world st' = world created).
Proof.
  apply (sendCallback_best_effort 1%positive created_job created).
  vm_compute. reflexivity.
Defined.

(** A job without files. *)
Lemma processJob_no_files_witness :
  ∃ (job : loc) (st1 st2 st' : State env) (r : result string) (evs : list event)
    (final : Job),
    GetJob "job-0" created_empty = (Returns (Some job), created_empty)
    ∧ started job created_empty st1
    ∧ saveResults small_config "job-0" [] st1 = (Returns r, st2)
    ∧ processJob small_config 0 "job-0" created_empty = (Returns tt, st')
    ∧ trace st' = trace created_empty ++ evs
    ∧ downloads evs = []
    ∧ saved evs = [("job-0", [])]
    ∧ callbacks evs = [final]
    ∧ stored st' "job-0" = Some final
    ∧ match r with
      | ROk url =>
          Status final = "completed" ∧ Progress final = 100
          ∧ ResultURLs final = [url]
      | RErr err =>
          Status final = "failed"
          ∧ Error_ final = Some {| Code := "storage_failed"; Message := err |}
      end.
Proof.
  apply (processJob_no_files small_config 0 "job-0" created_empty (submitted_job [] "")).
  - vm_compute. reflexivity.
  - reflexivity.
Defined.

(** The job of one file is processed. *)
Lemma processJob_isolated_witness :
  (∀ other, other ≠ "job-0" → stored processed other = stored created other)
  ∧ (∀ j0, stored created "job-0" = Some j0 →
       ∃ final, stored processed "job-0" = Some final ∧ same_job j0 final)
  ∧ (stored created "job-0" = None →
     processJob small_config 0 "job-0" created = (Returns tt, created))
  ∧ store_ok processed.
Proof.
  apply (processJob_isolated small_config 0 "job-0" created).
  apply store_ok_submitted.
Defined.

(** The job of one file is processed. *)
Lemma processJob_one_callback_witness :
  ∃ (o : outcome unit) (st' : State env) (evs : list event) (final : Job),
    processJob small_config 0 "job-0" created = (o, st')
    ∧ trace st' = trace created ++ evs
    ∧ stored st' "job-0" = Some final
    ∧ (o = Returns tt →
       callbacks evs = [final]
       ∧ (∃ evs0, evs = evs0 ++ [EvUpdateJob final; EvSendCallback final])
       ∧ (Status final = "completed" ∨ Status final = "failed"))
    ∧ (o ≠ Returns tt → callbacks evs = [] ∧ Status final = "running").
Proof.
  apply (processJob_one_callback small_config 0 "job-0" created created_job).
  vm_compute. reflexivity.
Defined.

(** The job of one file is processed. *)
Lemma processJob_saves_all_witness :
  ∃ evs,
    trace processed = trace created ++ evs
    ∧ (saved evs = []
       ∨ ∃ (job : loc) (st1 st2 : State env) (results : list EmbedResponse)
           (before after : list event),
           GetJob "job-0" created = (Returns (Some job), created)
           ∧ started job created st1
           ∧ files_embedded small_config job 1 0 ["/data/a.txt"] st1 results st2
           ∧ processJob small_config 0 "job-0" created
             = finish_job small_config job results st2
           ∧ trace st2 = trace created ++ before
           ∧ evs = before ++ EvSaveResults "job-0" results :: after
           ∧ downloads before = ["/data/a.txt"] ∧ saved before = []
           ∧ downloads after = [] ∧ saved after = []
           ∧ length results = 1%nat).
Proof.
  apply (processJob_saves_all small_config 0 "job-0" created created_job).
  vm_compute. reflexivity.
Defined.

(** The end of a job with no results to persist. *)
Lemma finish_job_outcome_witness :
  ∃ (r : result string) (st1 st' : State env) (final : Job),
    saveResults small_config "job-0" [] created = (Returns r, st1)
    ∧ finish_job small_config 1%positive [] created = (Returns tt, st')
    ∧ stored st' "job-0" = Some final
    ∧ trace st' = trace created ++ [EvSaveResults "job-0" [];
                                    EvUpdateJob final; EvSendCallback final]
    ∧ same_job created_job final
    ∧ match r with
      | ROk url =>
          url = "/v1/results/" +:+ results_filename "job-0"
          ∧ Status final = "completed" ∧ Progress final = 100
          ∧ ResultURLs final = [url] ∧ Error_ final = Error_ created_job
      | RErr err =>
          Status final = "failed" ∧ Progress final = Progress created_job
          ∧ ResultURLs final = ResultURLs created_job
          ∧ Error_ final = Some {| Code := "storage_failed"; Message := err |}
      end.
Proof.
  apply (finish_job_outcome small_config 1%positive [] created created_job);
    vm_compute; reflexivity.
Defined.

(** "hello world" in chunks of four, through the handler. *)
Lemma Embed_accepts_witness :
  ∃ (results : list EmbedResult) (st' : State env),
    Handler.Embed small_config default_limits (ROk (hello_request "split"))
      (init empty_world)
    = (Returns (JSON 200 (JEmbed (Some {| Results := results |}))), st')
    ∧ Result_ID <$> results = InputItem_ID <$> Inputs (hello_request "split").
Proof.
  apply (Embed_accepts small_config default_limits (hello_request "split")
           (init empty_world)).
  - vm_compute. discriminate.
  - vm_compute. split; discriminate.
  - right; right. reflexivity.
  - split; [vm_compute; discriminate|]. split.
    + vm_compute. split; [reflexivity|discriminate].
    + repeat constructor.
Defined.
